(** * appaloosa: flare detection, characterisation and completeness

    A shallow embedding of the detection core of [appaloosa.py]
    ([FINDflare], [FlagCuts], [MultiFind], [DetectCandidate],
    [FlareStats] with [chisq] and [EquivDur], [OneCadence], the peak
    times, the recovered events and the completeness curve of
    [FakeFlares], and the completeness thresholds of [FakeFlares] /
    [RunLC]) and of the overlap test of [analysis.py], together with the
    properties the specification states about it and further properties
    of the code.

    Conventions of the embedding.
    - numpy arrays are lists; an index is a [nat] where numpy produces it
      ([np.where]) and a [Z] where Python arithmetic can make it negative.
    - a float is an [fl]: an exact rational (kept in lowest terms), an
      infinity or NaN.  Rounding is idealised away, and the sign of a zero
      is not tracked.
    - a Python exception is the [Raise] case of [result].
    - results of numerical library routines that the repository only calls
      (standard deviations, [polyfit], [curve_fit], [ks_2samp], [wiener])
      are inputs of the model, and so are the random draws of
      [FakeFlares] and the equivalent durations of the flares it
      injects. *)

From Stdlib Require Import ZArith QArith Qabs Qround List Lia Lqa Bool Sorted.
From stdpp Require Import base list.
Import ListNotations.

Local Open Scope Z_scope.

(** ** Exceptions *)

Inductive exn : Type :=
| IndexError
| ValueError
| RuntimeError
| TypeError.

Inductive result (A : Type) : Type :=
| Ok (a : A)
| Raise (e : exn).
Arguments Ok {A} a.
Arguments Raise {A} e.

Global Instance result_ret : MRet result := fun _ a => Ok a.

Global Instance result_bind : MBind result := fun _ _ f m =>
  match m with
  | Ok a => f a
  | Raise e => Raise e
  end.

Definition is_ok {A : Type} (m : result A) : bool :=
  match m with Ok _ => true | Raise _ => false end.

(** ** Floats *)

Inductive fl : Type :=
| Fin (q : Q)
| PInf
| NInf
| NaN.

Definition Qsgn (q : Q) : comparison := Qcompare q 0%Q.

Definition fl_neg (a : fl) : fl :=
  match a with
  | Fin q => Fin (Qopp q)
  | PInf => NInf
  | NInf => PInf
  | NaN => NaN
  end.

Definition fl_add (a b : fl) : fl :=
  match a, b with
  | NaN, _ | _, NaN => NaN
  | Fin x, Fin y => Fin (Qred (Qplus x y))
  | PInf, NInf | NInf, PInf => NaN
  | PInf, _ | _, PInf => PInf
  | NInf, _ | _, NInf => NInf
  end.

Definition fl_sub (a b : fl) : fl := fl_add a (fl_neg b).

Definition fl_abs (a : fl) : fl :=
  match a with
  | Fin q => Fin (Qabs q)
  | PInf | NInf => PInf
  | NaN => NaN
  end.

Definition inf_of (c : comparison) : fl :=
  match c with
  | Gt => PInf
  | Lt => NInf
  | Eq => NaN
  end.

Definition fl_sgn (a : fl) : option comparison :=
  match a with
  | Fin q => Some (Qsgn q)
  | PInf => Some Gt
  | NInf => Some Lt
  | NaN => None
  end.

Definition fl_mul (a b : fl) : fl :=
  match a, b with
  | NaN, _ | _, NaN => NaN
  | Fin x, Fin y => Fin (Qred (Qmult x y))
  | PInf, c | c, PInf => match fl_sgn c with Some s => inf_of s | None => NaN end
  | NInf, c | c, NInf =>
      match fl_sgn c with Some s => inf_of (CompOpp s) | None => NaN end
  end.

(** Division as numpy performs it: a division by zero is not an error, it
    gives an infinity of the sign of the numerator, and [0/0] is NaN. *)
Definition fl_div (a b : fl) : fl :=
  match a, b with
  | NaN, _ | _, NaN => NaN
  | Fin x, Fin y =>
      match Qsgn y with
      | Eq => inf_of (Qsgn x)
      | _ => Fin (Qred (Qdiv x y))
      end
  | Fin _, (PInf | NInf) => Fin 0%Q
  | (PInf | NInf), (PInf | NInf) => NaN
  | PInf, Fin y => match Qsgn y with Lt => NInf | _ => PInf end
  | NInf, Fin y => match Qsgn y with Lt => PInf | _ => NInf end
  end.

(** Comparisons; every comparison with NaN is false. *)
Definition fl_ltb (a b : fl) : bool :=
  match a, b with
  | NaN, _ | _, NaN => false
  | Fin x, Fin y => match Qcompare x y with Lt => true | _ => false end
  | NInf, NInf => false
  | NInf, _ => true
  | _, PInf => match a with PInf => false | _ => true end
  | _, _ => false
  end.

Definition fl_leb (a b : fl) : bool :=
  match a, b with
  | NaN, _ | _, NaN => false
  | Fin x, Fin y => match Qcompare x y with Gt => false | _ => true end
  | NInf, _ => true
  | _, PInf => true
  | _, _ => false
  end.

Definition fl_gtb (a b : fl) : bool := fl_ltb b a.
Definition fl_geb (a b : fl) : bool := fl_leb b a.

Definition fl_eqb (a b : fl) : bool := fl_leb a b && fl_leb b a.

Definition fl_isnan (a : fl) : bool :=
  match a with NaN => true | _ => false end.

Definition fl_isfinite (a : fl) : bool :=
  match a with Fin _ => true | _ => false end.

Definition fz (z : Z) : fl := Fin (inject_Z z).

(** ** numpy helpers *)

(** [np.where(mask)[0]]: the positions at which the mask holds. *)
Fixpoint where_from (pos : nat) (mask : list bool) : list nat :=
  match mask with
  | [] => []
  | b :: r => if b then pos :: where_from (S pos) r else where_from (S pos) r
  end.

Definition np_where (mask : list bool) : list nat := where_from 0 mask.

(** Read of an array at a position known to be in range; the default is
    never used by the code below. *)
Definition getZ (l : list Z) (i : nat) : Z := default 0 (l !! i).

(** Sorting of floats, NaN apart, for medians. *)
Fixpoint fl_insert (x : fl) (l : list fl) : list fl :=
  match l with
  | [] => [x]
  | y :: r => if fl_leb x y then x :: l else y :: fl_insert x r
  end.

Definition fl_sort (l : list fl) : list fl := foldr fl_insert [] l.

Definition fl_sum (l : list fl) : fl := foldl fl_add (Fin 0%Q) l.

Definition nonnan (l : list fl) : list fl :=
  List.filter (fun x => negb (fl_isnan x)) l.

(** [np.nanmedian]: NaN entries are ignored; the median of nothing is
    NaN. *)
Definition nanmedian (l : list fl) : fl :=
  let s := fl_sort (nonnan l) in
  let n := length s in
  if (n =? 0)%nat then NaN
  else if Nat.even n
       then fl_div (fl_add (default NaN (s !! (n / 2 - 1)%nat))
                           (default NaN (s !! (n / 2)%nat))) (fz 2)
       else default NaN (s !! (n / 2)%nat).

(** [a[idx] = v] for an index array [idx]. *)
Definition set_at (idx : list nat) (v : Z) (a : list Z) : list Z :=
  foldl (fun acc i => <[i := v]> acc) a idx.

Definition zeros_like {A : Type} (a : list A) : list Z :=
  replicate (length a) 0.

(** ** FINDflare

    [sig_i] is the noise estimate of lines 473-478: [np.nanstd(flux)], or
    with [avg_std] the median of the rolling standard deviation.  The
    arrays [flux] and [error] correspond sample by sample. *)

Section Criteria.
Variables (sig_i : fl) (flux error : list fl) (N1 N2 : fl).

Definition med_i : fl := nanmedian flux.

Definition ca : list fl := map (fun f => fl_sub f med_i) flux.

Definition cb : list fl :=
  map (fun f => fl_div (fl_abs (fl_sub f med_i)) sig_i) flux.

Definition cc : list fl :=
  zip_with (fun f e => fl_div (fl_abs (fl_sub (fl_sub f med_i) e)) sig_i)
           flux error.

(** [(ca > 0) & (cb > N1) & (cc > N2)] *)
Definition pass_cuts : list bool :=
  zip_with andb
    (zip_with andb (map (fun x => fl_gtb x (fz 0)) ca)
                   (map (fun x => fl_gtb x N1) cb))
    (map (fun x => fl_gtb x N2) cc).

Definition ctmp : list nat := np_where pass_cuts.

Definition cindx : list Z := set_at ctmp 1 (zeros_like flux).
End Criteria.

(** The reverse cumulative count.  [ConM[-k]] is position [n - k]. *)
Definition ConM_step (cindx : list Z) (ConM : list Z) (k : nat) : list Z :=
  let n := length cindx in
  <[(n - k)%nat :=
      getZ cindx (n - k) * (getZ ConM (n - (k - 1)) + getZ cindx (n - k))]>
    ConM.

Definition ConM_of (cindx : list Z) : list Z :=
  foldl (ConM_step cindx) (zeros_like cindx) (seq 2 (length cindx - 2)).

(** [np.where((ConM[1:] >= N3) & (ConM[0:-1] - ConM[1:] < 0))[0] + 1] *)
Definition istart_of (ConM : list Z) (N3 : Z) : list nat :=
  map S
    (np_where
       (zip_with andb
          (map (fun c => N3 <=? c) (drop 1 ConM))
          (zip_with (fun a b => a - b <? 0)
             (take (length ConM - 1) ConM) (drop 1 ConM)))).

(** [istart_i + (ConM[istart_i] - 1)] *)
Definition istop_of (ConM : list Z) (istart : list nat) : list Z :=
  map (fun s => Z.of_nat s + (getZ ConM s - 1)) istart.

(** The run detection of lines 498-514 on the array of flags. *)
Definition detect_runs (cindx : list Z) (N3 : Z) : list Z * list Z :=
  let ConM := ConM_of cindx in
  let istart_i := istart_of ConM N3 in
  (map Z.of_nat istart_i, istop_of ConM istart_i).

Definition FINDflare (sig_i : fl) (flux error : list fl) (N1 N2 : fl) (N3 : Z)
  : list Z * list Z :=
  detect_runs (cindx sig_i flux error N1 N2) N3.

(** [bin_out[lo:hi] = 1] for indices that are not negative. *)
Definition set_slice (lo hi : Z) (a : list Z) : list Z :=
  imap (fun i x => if (lo <=? Z.of_nat i) && (Z.of_nat i <? hi) then 1 else x) a.

(** [FINDflare(..., returnbinary=True)] *)
Definition FINDflare_binary (sig_i : fl) (flux error : list fl) (N1 N2 : fl)
  (N3 : Z) : list Z :=
  let '(istart_i, istop_i) := FINDflare sig_i flux error N1 N2 N3 in
  foldl (fun bin_out '(s, e) => set_slice s (e + 1) bin_out)
        (zeros_like flux) (zip istart_i istop_i).

(** The candidates as (start, stop) pairs. *)
Definition pairs (r : list Z * list Z) : list (Z * Z) := zip r.1 r.2.

Definition scenario : list Z := [0;1;1;1;0;1;1;0;0;1;1;1;1].

(** ** The noise estimate

    [np.nanstd] and the rolling standard deviation of pandas take a square
    root, so the model does not compute them: it states when a float is the
    value they return. *)

Definition fl_mean (l : list fl) : fl :=
  fl_div (fl_sum l) (fz (Z.of_nat (length l))).

(** Mean squared deviation with [ddof] delta degrees of freedom. *)
Definition fl_var (ddof : nat) (l : list fl) : fl :=
  let m := fl_mean l in
  fl_div (fl_sum (map (fun x => fl_mul (fl_sub x m) (fl_sub x m)) l))
         (fz (Z.of_nat (length l) - Z.of_nat ddof)).

Definition is_sqrt (v s : fl) : Prop :=
  match v, s with
  | Fin a, Fin b => (0 <= b)%Q ∧ (b * b == a)%Q
  | PInf, PInf => True
  | (NaN | NInf), NaN => True
  | _, _ => False
  end.

(** [s] is [np.nanstd(flux)]. *)
Definition is_nanstd (flux : list fl) (s : fl) : Prop :=
  is_sqrt (fl_var 0 (nonnan flux)) s.

(** [pd.Series(flux).rolling(w, center=True).std()] squared: the sample
    variance of the [w] samples around each position, NaN where the window
    is not complete or holds a NaN. *)
Definition rolling_var (w : nat) (flux : list fl) : list fl :=
  let n := length flux in
  let offset := ((w - 1) / 2)%nat in
  map (fun i =>
         let hi := (i + 1 + offset)%nat in
         if (w <=? hi)%nat && (hi <=? n)%nat then
           let win := take w (drop (hi - w) flux) in
           if forallb (fun x => negb (fl_isnan x)) win then fl_var 1 win
           else NaN
         else NaN)
      (seq 0 n).

Definition fl_same (a b : fl) : Prop :=
  fl_eqb a b = true ∨ (fl_isnan a = true ∧ fl_isnan b = true).

(** [s] is the [np.nanmedian] of the square roots of [vars].  The square
    root is monotone, so only the middle variances need a root. *)
Definition is_median_of_sqrt (vars : list fl) (s : fl) : Prop :=
  let v := fl_sort (nonnan vars) in
  let n := length v in
  if (n =? 0)%nat then fl_isnan s = true
  else if Nat.even n
       then ∃ s1 s2 : fl,
              is_sqrt (default NaN (v !! (n / 2 - 1)%nat)) s1 ∧
              is_sqrt (default NaN (v !! (n / 2)%nat)) s2 ∧
              fl_same s (fl_div (fl_add s1 s2) (fz 2))
       else is_sqrt (default NaN (v !! (n / 2)%nat)) s.

(** [s] is [np.nanmedian(pd.Series(flux).rolling(w, center=True).std())]. *)
Definition is_rolling_sigma (w : nat) (flux : list fl) (s : fl) : Prop :=
  is_median_of_sqrt (rolling_var w flux) s.

(** The noise estimate of [FINDflare] for its two modes. *)
Definition is_sigma (avg_std : bool) (std_window : nat) (flux : list fl)
  (s : fl) : Prop :=
  if avg_std then is_rolling_sigma std_window flux s else is_nanstd flux s.

(** ** The run detection as the specification words it

    The maximal runs of consecutive flagged samples whose length is at
    least [N3], each as (first index, first index + length - 1). *)

Fixpoint run_length (c : list Z) : nat :=
  match c with
  | x :: r => if x =? 1 then S (run_length r) else 0
  | [] => 0
  end.

Fixpoint maximal_runs_from (pos : nat) (prev : bool) (c : list Z) (N3 : Z)
  : list (Z * Z) :=
  match c with
  | [] => []
  | x :: r =>
      let len := Z.of_nat (run_length c) in
      let here :=
        if (x =? 1) && negb prev && (N3 <=? len)
        then [(Z.of_nat pos, Z.of_nat pos + len - 1)] else [] in
      here ++ maximal_runs_from (S pos) (x =? 1) r N3
  end.

Definition maximal_runs (c : list Z) (N3 : Z) : list (Z * Z) :=
  maximal_runs_from 0 false c N3.

(** ** FlagCuts *)

Definition bad_flags_default : list Z := [16; 128; 2048].

(** [FlagCuts(flags, returngood=False)]: per sample, the sum over the
    rejected flags [k] of [flags & k]. *)
Definition FlagCuts_bad (flags : list Z) (bad_flags : list Z) : list Z :=
  foldl (fun bad k => zip_with Z.add bad (map (fun f => Z.land f k) flags))
        (zeros_like flags) bad_flags.


(** ** MultiFind *)

(** [a[idx]] for an index array; an index out of range raises. *)
Fixpoint np_take {A : Type} (a : list A) (idx : list nat) : result (list A) :=
  match idx with
  | [] => Ok []
  | i :: r =>
      match a !! i with
      | Some x => xs ← np_take a r; Ok (x :: xs)
      | None => Raise IndexError
      end
  end.

Fixpoint delete_from {A : Type} (pos : nat) (idx : list nat) (a : list A)
  : list A :=
  match a with
  | [] => []
  | x :: r =>
      if bool_decide (pos ∈ idx) then delete_from (S pos) idx r
      else x :: delete_from (S pos) idx r
  end.

(** [np.delete(a, idx)]: the positions [idx] are removed; a position out
    of range raises [IndexError]. *)
Definition np_delete {A : Type} (a : list A) (idx : list nat) : result (list A) :=
  if forallb (fun i => (i <? length a)%nat) idx
  then Ok (delete_from 0 idx a)
  else Raise IndexError.

(** [a[0]] and [a[-1]] *)
Definition first_of {A : Type} (a : list A) : result A :=
  match a with
  | [] => Raise IndexError
  | x :: _ => Ok x
  end.

Definition last_of {A : Type} (a : list A) : result A :=
  match last a with
  | Some x => Ok x
  | None => Raise IndexError
  end.

(** Positions of [cand1] closer than [gapwindow] to the time [t]. *)
Definition near (time_cand : list fl) (t gapwindow : fl) : list nat :=
  np_where (map (fun tc => fl_ltb (fl_abs (fl_sub tc t)) gapwindow) time_cand).

(** [np.where(cand1[1:] - cand1[:-1] > minsep)[0]] *)
Definition breaks (cand1 : list nat) (minsep : Z) : list nat :=
  np_where
    (zip_with (fun a b => minsep <? Z.of_nat a - Z.of_nat b)
       (drop 1 cand1) (take (length cand1 - 1) cand1)).

(** [istop[np.where(istart - istop == 0)] += 1] *)
Definition bump (istart istop : list Z) : list Z :=
  zip_with (fun s e => if s - e =? 0 then e + 1 else e) istart istop.

(** The candidate samples of [MultiFind]: flagged by [FINDflare], of good
    quality, and not within [gapwindow] of either end of the data. *)
Definition MultiFind_cand (isflare : list Z) (time : list fl) (flags : list Z)
  (gapwindow : fl) : result (list nat) :=
  let bad := FlagCuts_bad flags bad_flags_default in
  let cand1 :=
    np_where (zip_with andb (map (fun b => b <? 1) bad)
                            (map (fun f => 0 <? f) isflare)) in
  tc ← np_take time cand1;
  tlast ← last_of time;
  let x1 := near tc tlast gapwindow in
  tfirst ← first_of time;
  let x2 := near tc tfirst gapwindow in
  cand1 ← np_delete cand1 x1;
  np_delete cand1 x2.

(** Grouping of the candidate samples into events. *)
Definition MultiFind_group (cand1 : list nat) (minsep : Z)
  : result (list Z * list Z) :=
  if (length cand1 <? 1)%nat then Ok ([], [])
  else
    let br := breaks cand1 minsep in
    istart ← np_take cand1 (0%nat :: map S br);
    istop ← np_take cand1 (br ++ [(length cand1 - 1)%nat]);
    Ok (map Z.of_nat istart, map Z.of_nat istop).

(** [MultiFind] from the call of [FINDflare] on.  [flux_diff] is the
    detrended (and, in mode 3, matched-filtered) signal the detrending
    stage hands over, [sig_i] the noise estimate [FINDflare] derives from
    it with [avg_std=True]. *)
Definition MultiFind (sig_i : fl) (time flux_diff error : list fl)
  (flags : list Z) (gapwindow : fl) (minsep : Z) : result (list Z * list Z) :=
  let isflare := FINDflare_binary sig_i flux_diff error (fz 3) (fz 1) 3 in
  cand1 ← MultiFind_cand isflare time flags gapwindow;
  '(istart, istop) ← MultiFind_group cand1 minsep;
  Ok (istart, bump istart istop).

(** ** FlareStats *)

(** [a[i]] for a Python integer: a negative index counts from the end. *)
Definition py_index {A : Type} (a : list A) (i : Z) : result A :=
  let n := Z.of_nat (length a) in
  let j := if i <? 0 then i + n else i in
  if (0 <=? j) && (j <? n)
  then match a !! Z.to_nat j with
       | Some x => Ok x
       | None => Raise IndexError
       end
  else Raise IndexError.

(** [a[idx]] for an array of Python integers. *)
Fixpoint py_take {A : Type} (a : list A) (idx : list Z) : result (list A) :=
  match idx with
  | [] => Ok []
  | i :: r => x ← py_index a i; xs ← py_take a r; Ok (x :: xs)
  end.

(** A bound of a slice, clipped to the array as Python does. *)
Definition clip (n i : Z) : Z :=
  if i <? 0 then Z.max (i + n) 0 else Z.min i n.

(** [a[lo:hi]] *)
Definition py_slice {A : Type} (a : list A) (lo hi : Z) : list A :=
  let n := Z.of_nat (length a) in
  let l := clip n lo in
  let h := clip n hi in
  take (Z.to_nat (h - l)) (drop (Z.to_nat l) a).

(** [np.polyval]: Horner's rule, highest power first. *)
Definition polyval (p : list fl) (x : fl) : fl :=
  foldl (fun y pv => fl_add (fl_mul y x) pv) (fz 0) p.

(** The larger of two floats as [np.max] combines them: NaN wins. *)
Definition fl_max2 (a b : fl) : fl :=
  if fl_isnan a then a else if fl_isnan b then b
  else if fl_ltb a b then b else a.

Definition fl_min2 (a b : fl) : fl :=
  if fl_isnan a then a else if fl_isnan b then b
  else if fl_ltb b a then b else a.

(** [np.max] and [np.min]; an empty array raises [ValueError]. *)
Definition np_max (a : list fl) : result fl :=
  match a with
  | [] => Raise ValueError
  | x :: r => Ok (foldl fl_max2 x r)
  end.

Definition np_min (a : list fl) : result fl :=
  match a with
  | [] => Raise ValueError
  | x :: r => Ok (foldl fl_min2 x r)
  end.

(** [np.argmax]: the first position of the maximum. *)
Fixpoint first_same (m : fl) (pos : nat) (a : list fl) : nat :=
  match a with
  | [] => pos
  | x :: r =>
      if fl_eqb x m || (fl_isnan x && fl_isnan m) then pos
      else first_same m (S pos) r
  end.

Definition np_argmax (a : list fl) : result nat :=
  m ← np_max a; Ok (first_same m 0 a).

(** [chisq]: [np.sum(((data - model) / error)**2.0) / np.size(data)] *)
Definition chisq (data error model : list fl) : fl :=
  fl_div
    (fl_sum (zip_with (fun r e => let q := fl_div r e in fl_mul q q)
                      (zip_with fl_sub data model) error))
    (fz (Z.of_nat (length data))).

(** [np.trapz(y, x=x)] *)
Definition trapz (y x : list fl) : fl :=
  fl_sum (zip_with (fun d s => fl_div (fl_mul d s) (fz 2))
            (zip_with fl_sub (drop 1 x) x)
            (zip_with fl_add (drop 1 y) y)).

(** [EquivDur]: the area under the flare, with the time in seconds. *)
Definition EquivDur (time flux : list fl) : fl :=
  trapz flux (map (fun t => fl_mul (fl_mul (fl_mul t (fz 60)) (fz 60)) (fz 24)) time).

(** The fifteen properties of an event, in the order of [header]. *)
Record FlareEvent : Type := mkFlareEvent {
  t_start : fl;
  t_stop : fl;
  t_peak : fl;
  amplitude : fl;
  FWHM : fl;
  duration : fl;
  t_peak_aflare1 : fl;
  t_FWHM_aflare1 : fl;
  amplitude_aflare1 : fl;
  flare_chisq : fl;
  KS_d_model : fl;
  KS_p_model : fl;
  KS_d_cont : fl;
  KS_p_cont : fl;
  Equiv_Dur : fl
}.

(** Lines 592-605: the flare indices after the defaults and the widening
    of a flare of fewer than three samples. *)
Definition flare_indices (n : Z) (istart istop : Z) : Z * Z :=
  let istart := if istart <? 0 then 0 else istart in
  let istop := if istop <? 0 then n - 1 else istop in
  let '(istart, istop) :=
    if istart =? istop then (istart - 1, istop + 1) else (istart, istop) in
  let istop := if istop - istart <? 2 then istop + 1 else istop in
  (istart, istop).

(** [np.where((time >= t0) & (time <= t1))[0]] *)
Definition window (time : list fl) (t0 t1 : fl) : list nat :=
  np_where (map (fun t => fl_geb t t0 && fl_leb t t1) time).

(** Lines 629-633: the continuum samples and the degree of the fit. *)
Definition continuum (c1 c2 : list nat) (istart istop cpoly : Z)
  : list Z * Z :=
  let contindx := map Z.of_nat (c1 ++ c2) in
  if (length contindx =? 0)%nat then ([istart; istop], 1)
  else (contindx, cpoly).

(** What [FlareStats] has measured when it reaches the template fit. *)
Record measured : Type := mkMeasured {
  m_istart : Z;
  m_istop : Z;
  m_tstart : fl;
  m_tstop : fl;
  m_dur0 : fl;
  m_c1 : list nat;
  m_c2 : list nat;
  m_flareflux : list fl;
  m_flaretime : list fl;
  m_modelflux : list fl;
  m_flareerror : list fl;
  m_contindx : list Z;
  m_cpoly : Z;
  m_contflux : list fl;
  m_conttime : list fl;
  m_contfit : list fl;
  m_contline : list fl;
  m_medflux : fl;
  m_ampl : fl;
  m_tpeak : fl;
  m_fwhm : fl
}.

(** The outcome of [curve_fit] as [FlareStats] keeps it: the fitted
    parameters, NaN after a [ValueError], -99 after a [RuntimeError]; any
    other exception is not caught. *)
Definition nan3 : fl * fl * fl := (NaN, NaN, NaN).
Definition bad3 : fl * fl * fl := (fz (-99), fz (-99), fz (-99)).

Definition catch_fit (r : result (fl * fl * fl)) : result (fl * fl * fl) :=
  match r with
  | Ok popt => Ok popt
  | Raise ValueError => Ok nan3
  | Raise RuntimeError => Ok bad3
  | Raise e => Raise e
  end.

Section FlareStats.
(** The numerical routines of numpy and scipy that [FlareStats] calls:
    [np.polyfit] (which may raise), [curve_fit] on the template [aflare1]
    and [stats.ks_2samp] on two samples that are not empty. *)
Variable polyfit : list fl → list fl → Z → result (list fl).
Variable curve_fit : list fl → list fl → fl * fl * fl → result (fl * fl * fl).
Variable ks_2samp : list fl → list fl → fl * fl.

(** Lines 592-611: the flare indices and the times they point at. *)
Definition FlareStats_locate (time flux : list fl) (istart istop : Z)
  : result (Z * Z * fl * fl) :=
  let '(istart, istop) := flare_indices (Z.of_nat (length flux)) istart istop in
  tstart ← py_index time istart;
  tstop ← py_index time istop;
  Ok (istart, istop, tstart, tstop).

(** Lines 613-635, for a call that leaves [c1] and [c2] at their defaults:
    the two continuum windows, the continuum samples, the degree of the
    fit, and the continuum flux and time. *)
Definition FlareStats_continuum (time flux : list fl) (istart istop : Z)
  (tstart tstop : fl) (cpoly : Z)
  : result (list nat * list nat * list Z * Z * list fl * list fl) :=
  let dur0 := fl_sub tstop tstart in
  let c1 := window time (fl_sub tstart dur0)
                        (fl_sub tstart (fl_div dur0 (fz 2))) in
  let c2 := window time (fl_add tstop (fl_div dur0 (fz 2)))
                        (fl_add tstop dur0) in
  let '(contindx, cpoly) := continuum c1 c2 istart istop cpoly in
  contflux ← py_take flux contindx;
  conttime ← py_take time contindx;
  Ok (c1, c2, contindx, cpoly, contflux, conttime).

(** Lines 592-653 *)
Definition FlareStats_measure (time flux error model : list fl)
  (istart istop cpoly : Z) : result measured :=
  '(istart, istop, tstart, tstop) ← FlareStats_locate time flux istart istop;
  let dur0 := fl_sub tstop tstart in
  let flareflux := py_slice flux istart (istop + 1) in
  let flaretime := py_slice time istart (istop + 1) in
  let modelflux := py_slice model istart (istop + 1) in
  let flareerror := py_slice error istart (istop + 1) in
  '(c1, c2, contindx, cpoly, contflux, conttime) ←
    FlareStats_continuum time flux istart istop tstart tstop cpoly;
  contfit ← polyfit conttime contflux cpoly;
  let contline := map (polyval contfit) flaretime in
  let medflux := nanmedian model in
  let excess := zip_with fl_sub flareflux contline in
  top ← np_max excess;
  let ampl := fl_div top medflux in
  ipeak ← np_argmax excess;
  tpeak ← py_index flaretime (Z.of_nat ipeak);
  let p05 := np_where (map (fun x => fl_leb x (fl_mul ampl (Fin (1 # 2)))) excess) in
  fwhm ←
    (if (length p05 =? 0)%nat then Ok (fl_mul dur0 (Fin (1 # 4)))
     else
       tp ← np_take flaretime p05;
       hi ← np_max tp;
       lo ← np_min tp;
       Ok (fl_sub hi lo));
  Ok (mkMeasured istart istop tstart tstop dur0 c1 c2 flareflux flaretime
        modelflux flareerror contindx cpoly contflux conttime contfit
        contline medflux ampl tpeak fwhm).

Definition fit_data (m : measured) : list fl :=
  map (fun x => fl_div x (m_medflux m))
      (zip_with fl_sub (m_flareflux m) (m_contline m)).

(** Lines 657-666 *)
Definition FlareStats_fit (m : measured) : result (fl * fl * fl) :=
  catch_fit (curve_fit (m_flaretime m) (fit_data m)
               (m_tpeak m, m_fwhm m, m_ampl m)).

(** Lines 668-687 *)
Definition FlareStats_event (m : measured) (popt1 : fl * fl * fl) : FlareEvent :=
  let ks := ks_2samp (m_flareflux m) (m_modelflux m) in
  let ksc := ks_2samp (zip_with fl_sub (m_flareflux m) (m_contline m))
               (zip_with fl_sub (m_contflux m)
                  (map (polyval (m_contfit m)) (m_conttime m))) in
  mkFlareEvent (m_tstart m) (m_tstop m) (m_tpeak m) (m_ampl m) (m_fwhm m)
    (m_dur0 m) popt1.1.1 popt1.1.2 popt1.2
    (chisq (m_flareflux m) (m_flareerror m) (m_modelflux m))
    ks.1 ks.2 ksc.1 ksc.2
    (EquivDur (m_flaretime m) (fit_data m)).

Definition FlareStats (time flux error model : list fl)
  (istart istop cpoly : Z) : result FlareEvent :=
  m ← FlareStats_measure time flux error model istart istop cpoly;
  popt1 ← FlareStats_fit m;
  Ok (FlareStats_event m popt1).

End FlareStats.

(** ** Completeness thresholds *)

(** [a[mask]] for a boolean mask, which must have the length of [a]. *)
Definition mask_take {A : Type} (a : list A) (mask : list bool) : result (list A) :=
  if (length a =? length mask)%nat
  then Ok (map fst (List.filter snd (zip a mask)))
  else Raise IndexError.

(** Python's [min] of a sequence that is not empty. *)
Definition py_min (a : list fl) : result fl :=
  match a with
  | [] => Raise ValueError
  | x :: r => Ok (foldl (fun m y => if fl_ltb y m then y else m) x r)
  end.

Section Completeness.
(** [scipy.signal.wiener(im, mysize)] *)
Variable wiener : list fl → nat → list fl.

(** Lines 1139-1153 of [RunLC] (and 986-1000 of [FakeFlares]) for one
    threshold: the smallest bin centre among the bins whose smoothed
    recovered fraction is at least [thr], or -99. *)
Definition ed_threshold (thr : fl) (ed_fake frac_rec : list fl) : result fl :=
  let rl := map fl_isfinite frac_rec in
  let frac_rec_sm := wiener (List.filter fl_isfinite frac_rec) 3 in
  let x := np_where (map (fun v => fl_geb v thr) frac_rec_sm) in
  if (0 <? length x)%nat then
    centers ← mask_take ed_fake rl;
    sel ← np_take centers x;
    py_min sel
  else Ok (fz (-99)).

(** The pair [ed68_i], [ed90_i] of one segment. *)
Definition segment_ed (dofake : bool) (ed_fake frac_rec : list fl)
  : result (fl * fl) :=
  if dofake then
    ed68_i ← ed_threshold (Fin (68 # 100)) ed_fake frac_rec;
    ed90_i ← ed_threshold (Fin (90 # 100)) ed_fake frac_rec;
    Ok (ed68_i, ed90_i)
  else Ok (fz (-199), fz (-199)).





End Completeness.

(** [scipy.signal.wiener] for a one-dimensional array, after its
    documentation: local mean and variance over a window padded with
    zeros, the noise taken as the mean of the local variances. *)
Definition local_sum (h : nat) (a : list fl) (i : nat) : fl :=
  fl_sum (map (fun j => if (h <=? i + j)%nat
                        then default (fz 0) (a !! (i + j - h)%nat)
                        else fz 0)
              (seq 0 (2 * h + 1))).

Definition wiener_model (im : list fl) (mysize : nat) : list fl :=
  let h := (mysize / 2)%nat in
  let sz := fz (Z.of_nat mysize) in
  let idx := seq 0 (length im) in
  let lMean := map (fun i => fl_div (local_sum h im i) sz) idx in
  let sq := map (fun x => fl_mul x x) im in
  let lVar := zip_with (fun i m => fl_sub (fl_div (local_sum h sq i) sz) (fl_mul m m))
                idx lMean in
  let noise := fl_mean lVar in
  zip_with (fun xm v =>
              let '(x, m) := xm in
              if fl_ltb v noise then m
              else fl_add (fl_mul (fl_sub x m) (fl_sub (fz 1) (fl_div noise v))) m)
           (zip im lMean) lVar.

(** A completeness curve of six bins, two of them empty. *)
Definition curve_centers : list fl := map fz [10; 20; 30; 40; 50; 60].
Definition curve_fractions : list fl :=
  [fz 0; NaN; Fin (1 # 2); fz 1; NaN; fz 1].

(** ** DetectCandidate

    [dl] and [dr] are the edges of the time windows that
    [detrend.FindGaps(time)] returns. *)

(** One turn of the loop over the gaps, lines 406-410. *)
Definition DetectCandidate_gap (time : list fl) (dl dr : list Z)
  (gapwindow : fl) (acc : result (list nat)) (i : nat) : result (list nat) :=
  cand1 ← acc;
  tc ← np_take time cand1;
  dri ← py_index dr (Z.of_nat i);
  tr ← py_index time (dri - 1);
  let x1 := near tc tr gapwindow in
  dli ← py_index dl (Z.of_nat i);
  tl ← py_index time dli;
  let x2 := near tc tl gapwindow in
  cand1 ← np_delete cand1 x1;
  np_delete cand1 x2.

(** [(flux - model) / error] *)
Definition chi_of (flux error model : list fl) : list fl :=
  zip_with fl_div (zip_with fl_sub flux model) error.

(** The candidate samples of lines 398-403. *)
Definition DetectCandidate_cand (flux error : list fl) (flags : list Z)
  (model : list fl) (error_cut : fl) : list nat :=
  let bad := FlagCuts_bad flags bad_flags_default in
  let chi := chi_of flux error model in
  np_where (zip_with andb (map (fun c => fl_geb c error_cut) chi)
                          (map (fun b => b <? 1) bad)).

Definition DetectCandidate (dl dr : list Z) (time flux error : list fl)
  (flags : list Z) (model : list fl) (error_cut gapwindow : fl) (minsep : Z)
  : result (list Z * list Z) :=
  let cand1 := DetectCandidate_cand flux error flags model error_cut in
  cand1 ← foldl (DetectCandidate_gap time dl dr gapwindow) (Ok cand1)
            (seq 0 (length dl));
  cstart ← np_take cand1 (0%nat :: map S (breaks cand1 minsep));
  cstop ← np_take cand1 (breaks cand1 minsep ++ [(length cand1 - 1)%nat]);
  Ok (map Z.of_nat cstart, map Z.of_nat cstop).

(** ** The comparison with FBEYE (analysis.py) *)

(** Lines 108-110 and 414-416: the three-case test of whether the event
    from [a0] to [a1] overlaps the flare from [f0] to [f1]. *)
Definition overlaps (a0 a1 f0 f1 : fl) : bool :=
  (fl_leb a0 f0 && fl_geb a1 f1) ||
  (fl_geb a0 f0 && fl_leb a0 f1) ||
  (fl_geb a1 f0 && fl_leb a1 f1).

(** [x_any]: the events of [apdata], as pairs of start and stop time, that
    overlap one flare. *)
Definition x_any (apdata : list (fl * fl)) (f : fl * fl) : list nat :=
  np_where (map (fun a => overlaps a.1 a.2 f.1 f.2) apdata).

(** Lines 408-419 of [benchmark]: [n4_i], one entry per FBEYE flare. *)
Definition n4_i (apdata fbdata : list (fl * fl)) : list Z :=
  map (fun f => if (0 <? length (x_any apdata f))%nat then 1 else 0) fbdata.

(** ** FakeFlares: the peak times and the recovered events *)

(** [a & b] for two boolean arrays of one dimension: arrays of one length
    are combined element by element, an array of one element is combined
    with every element of the other, and other lengths raise
    [ValueError]. *)
Definition broadcast_and (a b : list bool) : result (list bool) :=
  if (length a =? length b)%nat then Ok (zip_with andb a b)
  else match a, b with
       | [x], _ => Ok (map (andb x) b)
       | _, [y] => Ok (map (fun x => x && y) a)
       | _, _ => Raise ValueError
       end.

(** [np.where((t0 >= tstart) & (t0 <= tstop))[0]] *)
Definition inside (tstart tstop : list fl) (t0 : fl) : result (list nat) :=
  m ← broadcast_and (map (fun s => fl_geb t0 s) tstart)
                    (map (fun e => fl_leb t0 e) tstop);
  Ok (np_where m).

(** Lines 906-916: the peak time of one fake flare.  [draws] are the
    successive values of [np.random.choice(time)]; the result is [None]
    when the loop is still running after the last of them. *)
Fixpoint FakeFlares_t0 (tstart tstop : list fl) (draws : list fl)
  : option (result fl) :=
  match draws with
  | [] => None
  | t0 :: rest =>
      if (0 <? length tstart)%nat then
        match inside tstart tstop t0 with
        | Raise e => Some (Raise e)
        | Ok x =>
            if (length x <? 1)%nat then Some (Ok t0)
            else FakeFlares_t0 tstart tstop rest
        end
      else Some (Ok t0)
  end.

(** Lines 939-948: [rec_fake], one entry per fake flare. *)
Definition FakeFlares_rec_k (time : list fl) (istart istop : list Z) (t0 : fl)
  : result fl :=
  ts ← py_take time istart;
  te ← py_take time istop;
  rec ← inside ts te t0;
  Ok (if (0 <? length rec)%nat then fz 1 else fz 0).

Fixpoint FakeFlares_rec_loop (time : list fl) (istart istop : list Z)
  (t0_fake : list fl) : result (list fl) :=
  match t0_fake with
  | [] => Ok []
  | t0 :: rest =>
      r ← FakeFlares_rec_k time istart istop t0;
      rs ← FakeFlares_rec_loop time istart istop rest;
      Ok (r :: rs)
  end.

Definition FakeFlares_rec (time : list fl) (istart istop : list Z)
  (t0_fake : list fl) : result (list fl) :=
  if (0 <? length istart)%nat
  then FakeFlares_rec_loop time istart istop t0_fake
  else Ok (map (fun _ => fz 0) t0_fake).

(** ** FakeFlares: the recovered fraction *)

(** [x.astype(np.intp)]: the fraction is dropped; a value that is not
    finite becomes the least integer. *)
Definition fl_trunc (x : fl) : Z :=
  match x with
  | Fin q => Z.quot (Qnum q) (Z.pos (Qden q))
  | _ => - 2 ^ 63
  end.

(** [np.linspace(start, stop, num)] for [num > 1] and [start <> stop]. *)
Definition linspace (start stop : fl) (num : nat) : list fl :=
  let step := fl_div (fl_sub stop start) (fz (Z.of_nat num - 1)) in
  <[(num - 1)%nat := stop]>
    (map (fun j => fl_add (fl_mul (fz (Z.of_nat j)) step) start) (seq 0 num)).

(** The range of [np.histogram] when none is given: the least and the
    greatest value, which must be finite, widened by a half on each side
    when they are equal; [(0, 1)] for an empty array. *)
Definition hist_edges (a : list fl) : result (fl * fl) :=
  match a with
  | [] => Ok (fz 0, fz 1)
  | _ =>
      lo ← np_min a;
      hi ← np_max a;
      if negb (fl_isfinite lo && fl_isfinite hi) then Raise ValueError
      else if fl_eqb lo hi
           then Ok (fl_sub lo (Fin (1 # 2)), fl_add hi (Fin (1 # 2)))
           else Ok (lo, hi)
  end.

(** The bin of a value among [nbins] bins of one width; the greatest
    value belongs to the last bin.  (The two corrections that
    [np.histogram] applies afterwards, against rounding at a bin edge,
    change nothing in exact arithmetic.) *)
Definition bin_of (first last : fl) (nbins : Z) (x : fl) : Z :=
  let i := fl_trunc (fl_mul (fl_div (fl_sub x first) (fl_sub last first))
                            (fz nbins)) in
  if i =? nbins then i - 1 else i.

(** [np.bincount(idx, weights=w, minlength=n)] and
    [np.bincount(idx, minlength=n)] for indices below [n]. *)
Definition bincount_w (idx : list Z) (w : list fl) (n : nat) : list fl :=
  map (fun j => fl_sum (map snd (List.filter (fun p => p.1 =? Z.of_nat j)
                                             (zip idx w))))
      (seq 0 n).

Definition bincount (idx : list Z) (n : nat) : list Z :=
  map (fun j => Z.of_nat (length (List.filter (fun i => i =? Z.of_nat j) idx)))
      (seq 0 n).

(** Lines 953-962: the histogram of the recovered events over that of all
    events, in twenty bins of the equivalent duration.  With weights of
    another length than the data [np.histogram] raises [ValueError]. *)
Definition FakeFlares_curve (ed_fake rec_fake : list fl)
  : result (list fl * list fl) :=
  if negb (length rec_fake =? length ed_fake)%nat then Raise ValueError
  else
    '(first, last) ← hist_edges ed_fake;
    let ed_bin := linspace first last 21 in
    let idx := map (bin_of first last 20) ed_fake in
    let rec_bin_N := bincount_w idx rec_fake 20 in
    let rec_bin_D := bincount idx 20 in
    let ed_bin_center :=
      zip_with (fun a b => fl_div (fl_add a b) (fz 2))
               (drop 1 ed_bin) (take 20 ed_bin) in
    let rec_bin := zip_with fl_div rec_bin_N (map fz rec_bin_D) in
    Ok (ed_bin_center, rec_bin).

(** ** OneCadence *)

(** Equality of two entries for [np.unique], which keeps one NaN. *)
Definition same_entry (a b : fl) : bool :=
  fl_eqb a b || (fl_isnan a && fl_isnan b).

(** [np.sort]: NaN comes last. *)
Definition np_sort (l : list fl) : list fl :=
  fl_sort (nonnan l) ++ List.filter fl_isnan l.

(** [np.unique]: the sorted array without the entries that equal the
    entry before them. *)
Fixpoint uniq_adj (prev : fl) (l : list fl) : list fl :=
  match l with
  | [] => []
  | y :: r => if same_entry y prev then uniq_adj y r else y :: uniq_adj y r
  end.

Definition np_unique (l : list fl) : list fl :=
  match np_sort l with
  | [] => []
  | x :: r => x :: uniq_adj x r
  end.

(** [np.abs(qtr - q) < 0.1] *)
Definition same_quarter (q v : fl) : bool :=
  fl_ltb (fl_abs (fl_sub v q)) (Fin (1 # 10)).

(** One turn of the loop, lines 349-355: the rows of quarter [q] that
    have the smallest cadence of the quarter.  [min] of an empty
    sequence raises [ValueError]. *)
Definition OneCadence_quarter (qtr cadence : list fl) (q : fl)
  : result (list nat) :=
  let x := np_where (map (same_quarter q) qtr) in
  cx ← np_take cadence x;
  m ← py_min (np_unique cx);
  let y := np_where (map (fun c => fl_eqb c m) cx) in
  np_take x y.

(** Lines 342-357: the rows that are kept, by their indices. *)
Definition OneCadence_indx (qtr cadence : list fl) : result (list nat) :=
  foldl (fun acc q =>
           indx ← acc;
           xs ← OneCadence_quarter qtr cadence q;
           Ok (indx ++ xs))
        (Ok []) (np_unique qtr).

(** [OneCadence] on rows of which [qtr_of] is column 0 and [cadence_of]
    column 5. *)
Definition OneCadence {row : Type} (qtr_of cadence_of : row → fl)
  (data : list row) : result (list row) :=
  indx ← OneCadence_indx (map qtr_of data) (map cadence_of data);
  np_take data indx.

(** ** Auxiliary notions of the proofs *)

(** State of the loop after [m] iterations, that is after [k = 2 .. m+1]. *)
Definition ConM_inv (c : list Z) (m : nat) (s : list Z) : Prop :=
  length s = length c ∧
  (∀ j : nat, (j + m + 2 ≤ length c ∨ length c ≤ j + 1)%nat → getZ s j = 0) ∧
  (∀ j : nat, (length c ≤ j + m + 1)%nat → (j + 2 ≤ length c)%nat →
     getZ s j = getZ c j * (getZ s (j + 1) + getZ c j)).

Definition binary (c : list Z) : Prop := Forall (fun x => x = 0 ∨ x = 1) c.

Definition start_mask (ConM : list Z) (N3 : Z) : list bool :=
  zip_with andb
    (map (fun c => N3 <=? c) (drop 1 ConM))
    (zip_with (fun a b => a - b <? 0)
       (take (length ConM - 1) ConM) (drop 1 ConM)).

Definition run_of (ConM : list Z) (s : nat) : Z * Z :=
  (Z.of_nat s, Z.of_nat s + (getZ ConM s - 1)).

Definition getN (l : list nat) (i : nat) : nat := default 0%nat (l !! i).

(** What the last step of [MultiFind] does to one event. *)
Definition bump_event (p : Z * Z) : Z * Z :=
  (p.1, if p.1 - p.2 =? 0 then p.2 + 1 else p.2).

(** No rejected bit is set in the quality mask [f]. *)
Definition good_quality (f : Z) : Prop :=
  Z.land f 16 = 0 ∧ Z.land f 128 = 0 ∧ Z.land f 2048 = 0.

(** Candidates as the specification describes them: each with
    [start <= stop], ordered by start, not overlapping, and any two more than
    [minsep] samples apart. *)
Definition well_separated (minsep : Z) (P : list (Z * Z)) : Prop :=
  Forall (fun p : Z * Z => p.1 ≤ p.2) P ∧
  StronglySorted
    (fun p q : Z * Z => p.1 < q.1 ∧ p.2 < q.1 ∧ minsep < q.1 - p.2) P.

Definition candidates_well_separated : Prop :=
  ∀ (sig_i : fl) (time flux_diff error : list fl) (flags : list Z)
    (gapwindow : fl) (minsep : Z) (r : list Z * list Z),
    is_sigma true 7 flux_diff sig_i →
    MultiFind sig_i time flux_diff error flags gapwindow minsep = Ok r →
    well_separated minsep
      (pairs (FINDflare sig_i flux_diff error (fz 3) (fz 1) 3)) ∧
    well_separated minsep (pairs r).

(** The quality cut as the specification describes it: no sample of a
    candidate range has a rejected bit set. *)
Definition quality_cut_before_runs : Prop :=
  ∀ (sig_i : fl) (time flux_diff error : list fl) (flags : list Z)
    (gapwindow : fl) (minsep : Z) (r : list Z * list Z),
    is_sigma true 7 flux_diff sig_i →
    MultiFind sig_i time flux_diff error flags gapwindow minsep = Ok r →
    ∀ (p : Z * Z) (i : nat) (f : Z),
      p ∈ pairs r → p.1 ≤ Z.of_nat i ≤ p.2 → flags !! i = Some f →
      good_quality f.

(** Test series: times [0, 1, 2, ...]; a flux that repeats the seven
    values 1, -1, 1, -1, 1, -1, 0, of sample standard deviation 1 over any
    seven consecutive samples, with ten units at the listed samples; errors
    of one half; a quality mask of 16 at the listed samples. *)
Definition tline (n : nat) : list fl :=
  map (fun i => fz (Z.of_nat i)) (seq 0 n).

Definition noise (i : nat) : fl :=
  default (fz 0) (map fz [1; -1; 1; -1; 1; -1; 0] !! (i mod 7)%nat).

Definition spikes (n : nat) (at_ : list nat) : list fl :=
  map (fun i => if bool_decide (i ∈ at_) then fz 10 else noise i) (seq 0 n).

Definition errs (n : nat) : list fl := replicate n (Fin (1 # 2)).

Definition masked (n : nat) (at_ : list nat) : list Z :=
  map (fun i => if bool_decide (i ∈ at_) then 16 else 0) (seq 0 n).

(** [a] without the sample at position [i]. *)
Definition without {A : Type} (i : nat) (a : list A) : list A :=
  take i a ++ drop (S i) a.

(** Stand-ins for the numerical routines, to run [FlareStats] on an
    example: a continuum fit that returns the zero polynomial, a template
    fit that does not converge, and a two-sample statistic of identical
    samples. *)
Definition polyfit_zero (x y : list fl) (deg : Z) : result (list fl) :=
  Ok (replicate (Z.to_nat (deg + 1)) (fz 0)).

Definition curve_fit_diverges (x y : list fl) (p0 : fl * fl * fl)
  : result (fl * fl * fl) :=
  Raise RuntimeError.

Definition ks_same (a b : list fl) : fl * fl := (fz 0, fz 1).

(** The smoothed recovered fraction of bin [i], counted among the bins
    with a finite fraction, is at least [thr]. *)
Definition reached (sm : list fl) (thr : fl) (i : nat) : Prop :=
  ∃ s : fl, sm !! i = Some s ∧ fl_geb s thr = true.

(** The samples the reverse scan looks at: all but the first and the
    last. *)
Definition interior (c : list Z) : list Z := take (length c - 2) (drop 1 c).

(** The run length at every position of [c], and [0] after its end. *)
Fixpoint suffix_rl (c : list Z) : list Z :=
  Z.of_nat (run_length c) ::
  match c with
  | [] => []
  | _ :: r => suffix_rl r
  end.

(** The starts and stops read off an array of counts, one position at a
    time. *)
Fixpoint runs_of_counts (pos : nat) (N3 : Z) (L : list Z) : list (Z * Z) :=
  match L with
  | a :: ((b :: _) as r) =>
      (if (N3 <=? b) && (a - b <? 0)
       then [(Z.of_nat (S pos), Z.of_nat (S pos) + (b - 1))] else []) ++
      runs_of_counts (S pos) N3 r
  | _ => []
  end.

Definition shift1 (p : Z * Z) : Z * Z := (p.1 + 1, p.2 + 1).

(** A result that is a value or an [IndexError]. *)
Definition only_IndexError {A : Type} (r : result A) : Prop :=
  match r with
  | Ok _ => True
  | Raise e => e = IndexError
  end.

(** The value of a float that is finite, up to the equality of [Q]. *)
Definition fl_is (x : fl) (q : Q) : Prop := ∃ p : Q, x = Fin p ∧ (p == q)%Q.





(** Two intervals share a point. *)
Definition intersect (a f : fl * fl) : Prop :=
  fl_leb a.1 f.2 = true ∧ fl_leb f.1 a.2 = true.

(** An interval of two numbers in order. *)
Definition interval (a : fl * fl) : Prop :=
  fl_leb a.1 a.2 = true.

(** A weight of the recovery histogram: 0 or 1. *)
Definition zero_one (w : fl) : Prop := w = fz 0 ∨ w = fz 1.

(** The number of samples that fall in bin [j]. *)
Definition in_bin (first last : fl) (j : nat) (eds : list Q) : nat :=
  length (List.filter (fun x => bin_of first last 20 (Fin x) =? Z.of_nat j) eds).

(** The time [t0] lies in one of the intervals from [tstart] to [tstop]. *)
Definition in_some (tstart tstop : list fl) (t0 : fl) : Prop :=
  ∃ (j : nat) (s e : fl),
    tstart !! j = Some s ∧ tstop !! j = Some e ∧
    fl_leb s t0 = true ∧ fl_leb t0 e = true.

(** Row [i] has the smallest cadence among the rows of its quarter. *)
Definition fastest (qtr cadence : list fl) (i : nat) : Prop :=
  ∃ qi ci : fl,
    qtr !! i = Some qi ∧ cadence !! i = Some ci ∧
    ∀ (j : nat) (qj cj : fl),
      qtr !! j = Some qj → cadence !! j = Some cj →
      fl_eqb qj qi = true → fl_leb ci cj = true.

(** Quarters that are equal or at least 0.1 apart. *)
Definition quarters_apart (qtr : list fl) : Prop :=
  ∀ a b : fl, a ∈ qtr → b ∈ qtr → same_quarter a b = true → fl_eqb b a = true.

(** The only exception of a result is [ValueError]. *)
Definition only_ValueError {A : Type} (r : result A) : Prop :=
  match r with Ok _ => True | Raise e => e = ValueError end.


(** Sample [i] is flagged as a flare candidate. *)
Definition flagged (sig_i : fl) (flux error : list fl) (N1 N2 : fl) (i : nat)
  : Prop :=
  getZ (cindx sig_i flux error N1 N2) i = 1.


(** Sixty quiet samples followed by the thirteen samples of the
    specification's scenario, at ten units of flux. *)
Definition quiet_then_scenario : list fl :=
  replicate 60 (fz 0) ++ map (fun x => fz (10 * x)) scenario.

Definition no_error (n : nat) : list fl := replicate n (fz 0).

(** * Properties *)

(** ** Facts about the numpy helpers *)

Lemma where_from_elem (pos : nat) (mask : list bool) (i : nat) :
  i ∈ where_from pos mask ↔
  ∃ j : nat, i = (pos + j)%nat ∧ mask !! j = Some true.
Proof.
  revert pos. induction mask as [|b r IH]; intros pos; simpl.
  - split; [intros H; inversion H | intros (j & _ & H); discriminate].
  - destruct b.
    + rewrite elem_of_cons, IH. split.
      * intros [-> | (j & -> & Hj)].
        -- exists 0%nat. split; [lia | done].
        -- exists (S j). split; [lia | done].
      * intros (j & -> & Hj). destruct j as [|j].
        -- left. lia.
        -- right. exists j. split; [lia | done].
    + rewrite IH. split.
      * intros (j & -> & Hj). exists (S j). split; [lia | done].
      * intros (j & -> & Hj). destruct j as [|j]; [discriminate |].
        exists j. split; [lia | done].
Qed.

Lemma np_where_elem (mask : list bool) (i : nat) :
  i ∈ np_where mask ↔ mask !! i = Some true.
Proof.
  unfold np_where. rewrite where_from_elem. split.
  - intros (j & -> & Hj). done.
  - intros H. exists i. done.
Qed.

Lemma where_from_sorted (pos : nat) (mask : list bool) :
  StronglySorted Nat.lt (where_from pos mask).
Proof.
  revert pos. induction mask as [|b r IH]; intros pos; simpl.
  - constructor.
  - destruct b; [| apply IH].
    constructor; [apply IH |].
    apply Forall_forall. intros i Hi.
    apply where_from_elem in Hi as (j & -> & _). unfold Nat.lt. lia.
Qed.

Lemma np_where_sorted (mask : list bool) :
  StronglySorted Nat.lt (np_where mask).
Proof. apply where_from_sorted. Qed.

Lemma StronglySorted_map_rel {A B : Type} (R : A → A → Prop)
  (R' : B → B → Prop) (P : A → Prop) (g : A → B) (l : list A) :
  (∀ x y, P x → P y → R x y → R' (g x) (g y)) →
  Forall P l → StronglySorted R l → StronglySorted R' (map g l).
Proof.
  intros Hg HP HS. induction HS as [|x l HS IH Hx]; simpl.
  - constructor.
  - inversion HP as [|? ? Px Pl]; subst.
    constructor; [by apply IH |].
    apply Forall_forall. intros b Hb.
    apply list_elem_of_fmap in Hb as (y & -> & Hy).
    apply Hg; [done | | ].
    + by eapply Forall_forall in Pl.
    + by eapply Forall_forall in Hx.
Qed.

Lemma zip_map_same {A B C : Type} (f : A → B) (g : A → C) (l : list A) :
  zip (map f l) (map g l) = map (fun a => (f a, g a)) l.
Proof. induction l as [|a l IH]; simpl; [done | by rewrite IH]. Qed.

(** ** The reverse cumulative count [ConM] *)

Lemma getZ_insert (l : list Z) (i j : nat) (v : Z) :
  getZ (<[i := v]> l) j =
  if decide (i = j ∧ (i < length l)%nat) then v else getZ l j.
Proof.
  unfold getZ. case_decide as H.
  - destruct H as [-> H]. by rewrite list_lookup_insert_eq.
  - destruct (decide (i = j)) as [-> | Hne].
    + rewrite list_insert_ge; [done | lia].
    + by rewrite list_lookup_insert_ne.
Qed.

Lemma getZ_zeros {A : Type} (a : list A) (j : nat) : getZ (zeros_like a) j = 0.
Proof.
  unfold getZ, zeros_like.
  destruct (replicate (length a) 0 !! j) as [x|] eqn:E; [| done].
  apply lookup_replicate in E as [-> _]. done.
Qed.

Lemma getZ_ge (l : list Z) (j : nat) : (length l ≤ j)%nat → getZ l j = 0.
Proof. intros H. unfold getZ. by rewrite lookup_ge_None_2. Qed.

Lemma ConM_loop_inv (c : list Z) (m : nat) :
  (m + 2 ≤ length c ∨ m = 0)%nat →
  ConM_inv c m (foldl (ConM_step c) (zeros_like c) (seq 2 m)).
Proof.
  induction m as [|m IH]; intros Hm.
  - simpl. repeat split.
    + unfold zeros_like. by rewrite length_replicate.
    + intros j _. apply getZ_zeros.
    + intros j H1 H2. lia.
  - destruct IH as (Hlen & Hz & Hr); [lia |].
    rewrite seq_S, foldl_app. simpl.
    set (s := foldl (ConM_step c) (zeros_like c) (seq 2 m)) in *.
    unfold ConM_step.
    assert (Hp : ∃ p : nat, (p + m + 2 = length c)%nat)
      by (exists (length c - m - 2)%nat; lia).
    destruct Hp as [p Hp].
    replace (length c - S (S m))%nat with p by lia.
    replace (length c - (S (S m) - 1))%nat with (p + 1)%nat by lia.
    repeat split.
    + by rewrite length_insert.
    + intros j Hj. rewrite getZ_insert. case_decide as Hd.
      * lia.
      * apply Hz. lia.
    + intros j H1 H2. rewrite !getZ_insert.
      repeat case_decide; try lia.
      * match goal with H : _ ∧ _ |- _ => destruct H as [<- _] end. done.
      * apply Hr; lia.
Qed.

Lemma ConM_of_length (c : list Z) : length (ConM_of c) = length c.
Proof.
  unfold ConM_of.
  destruct (ConM_loop_inv c (length c - 2)) as (H & _); [lia | done].
Qed.

(** Neither position [0] nor the last position is ever written. *)
Lemma ConM_of_ends (c : list Z) (j : nat) :
  (j = 0 ∨ length c ≤ j + 1)%nat → getZ (ConM_of c) j = 0.
Proof.
  intros Hj. unfold ConM_of.
  destruct (ConM_loop_inv c (length c - 2)) as (_ & Hz & _); [lia |].
  apply Hz. lia.
Qed.

Lemma ConM_of_inner (c : list Z) (j : nat) :
  (1 ≤ j)%nat → (j + 2 ≤ length c)%nat →
  getZ (ConM_of c) j = getZ c j * (getZ (ConM_of c) (j + 1) + getZ c j).
Proof.
  intros H1 H2. unfold ConM_of.
  destruct (ConM_loop_inv c (length c - 2)) as (_ & _ & Hr); [lia |].
  apply Hr; lia.
Qed.

Lemma binary_getZ (c : list Z) (j : nat) :
  binary c → getZ c j = 0 ∨ getZ c j = 1.
Proof.
  intros Hc. unfold getZ. destruct (c !! j) as [x|] eqn:E; [| by left].
  eapply Forall_lookup_1 in Hc; [| exact E]. done.
Qed.

(** Inside the scanned window a flagged sample continues the run that
    starts after it, and an unflagged sample has count [0]. *)
Lemma ConM_of_cases (c : list Z) (j : nat) :
  binary c →
  (getZ (ConM_of c) j = 0) ∨
  ((1 ≤ j)%nat ∧ (j + 2 ≤ length c)%nat ∧ getZ c j = 1 ∧
   getZ (ConM_of c) j = getZ (ConM_of c) (j + 1) + 1).
Proof.
  intros Hc.
  destruct (decide ((1 ≤ j)%nat ∧ (j + 2 ≤ length c)%nat)) as [[H1 H2] | Hn].
  - rewrite (ConM_of_inner c j H1 H2).
    destruct (binary_getZ c j Hc) as [-> | E].
    + left. lia.
    + right. rewrite E. repeat split; try done. lia.
  - left. apply ConM_of_ends. lia.
Qed.

Lemma ConM_of_bounds (c : list Z) (j : nat) :
  binary c →
  0 ≤ getZ (ConM_of c) j ∧
  (getZ (ConM_of c) j = 0 ∨ Z.of_nat j + getZ (ConM_of c) j + 1 ≤ Z.of_nat (length c)).
Proof.
  intros Hc.
  remember (length c - j)%nat as d eqn:Hd.
  revert j Hd. induction d as [|d IH]; intros j Hd.
  - rewrite ConM_of_ends by lia. lia.
  - destruct (ConM_of_cases c j Hc) as [-> | (H1 & H2 & _ & ->)]; [lia |].
    destruct (IH (j + 1)%nat) as [Hp Hb]; [lia |]. split; [lia |].
    right. destruct Hb as [-> | Hb]; lia.
Qed.

(** Along a run the count goes down by one per sample. *)
Lemma ConM_of_descent (c : list Z) (j i : nat) :
  binary c → Z.of_nat i < getZ (ConM_of c) j →
  getZ (ConM_of c) (j + i) = getZ (ConM_of c) j - Z.of_nat i ∧
  getZ c (j + i) = 1.
Proof.
  intros Hc. induction i as [|i IH]; intros Hi.
  - rewrite Nat.add_0_r. split; [lia |].
    destruct (ConM_of_cases c j Hc) as [E | (_ & _ & E & _)]; [lia | done].
  - destruct IH as [E _]; [lia |].
    destruct (ConM_of_cases c (j + i) Hc) as [E0 | (_ & _ & _ & E1)]; [lia |].
    replace (j + S i)%nat with (j + i + 1)%nat by lia.
    assert (E2 : getZ (ConM_of c) (j + i + 1) = getZ (ConM_of c) j - Z.of_nat (S i))
      by lia.
    split; [done |].
    destruct (ConM_of_cases c (j + i + 1) Hc) as [E3 | (_ & _ & E3 & _)];
      [lia | done].
Qed.

(** ** Starts and stops of the detected runs *)

Lemma start_mask_lookup (ConM : list Z) (N3 : Z) (j : nat) :
  start_mask ConM N3 !! j = Some true ↔
  (S j < length ConM)%nat ∧
  N3 ≤ getZ ConM (S j) ∧ getZ ConM j < getZ ConM (S j).
Proof.
  unfold start_mask.
  rewrite !lookup_zip_with, list_lookup_fmap, lookup_drop.
  replace (1 + j)%nat with (S j) by lia.
  destruct (decide (S j < length ConM)%nat) as [Hlt | Hge].
  - destruct (lookup_lt_is_Some_2 ConM (S j) Hlt) as [y Ey].
    destruct (lookup_lt_is_Some_2 ConM j ltac:(lia)) as [x Ex].
    rewrite lookup_take_lt by lia.
    unfold getZ. rewrite Ex, Ey. simpl.
    split.
    + intros Hj. injection Hj as Hj. apply andb_true_iff in Hj as [H1 H2].
      apply Z.leb_le in H1. apply Z.ltb_lt in H2. repeat split; lia.
    + intros (_ & H3 & H4). f_equal. apply andb_true_iff. split.
      * apply Z.leb_le. lia.
      * apply Z.ltb_lt. lia.
  - rewrite (lookup_ge_None_2 ConM (S j)) by lia. simpl.
    split; [discriminate | intros (H & _); lia].
Qed.

Lemma istart_of_elem (ConM : list Z) (N3 : Z) (s : nat) :
  s ∈ istart_of ConM N3 ↔
  (1 ≤ s)%nat ∧ (s < length ConM)%nat ∧
  N3 ≤ getZ ConM s ∧ getZ ConM (s - 1) < getZ ConM s.
Proof.
  unfold istart_of. fold (start_mask ConM N3). rewrite list_elem_of_fmap.
  split.
  - intros (j & -> & Hj). apply np_where_elem, start_mask_lookup in Hj.
    replace (S j - 1)%nat with j by lia. destruct Hj as (? & ? & ?).
    repeat split; try done. lia.
  - intros (H1 & H2 & H3 & H4).
    destruct s as [|j]; [lia |]. exists j. split; [done |].
    replace (S j - 1)%nat with j in H4 by lia.
    apply np_where_elem, start_mask_lookup. done.
Qed.

Lemma istart_of_sorted (ConM : list Z) (N3 : Z) :
  StronglySorted Nat.lt (istart_of ConM N3).
Proof.
  unfold istart_of.
  eapply (StronglySorted_map_rel Nat.lt Nat.lt (fun _ => True)).
  - intros x y _ _ H. unfold Nat.lt in *. lia.
  - apply Forall_forall. done.
  - apply np_where_sorted.
Qed.

Lemma pairs_detect_runs (c : list Z) (N3 : Z) :
  pairs (detect_runs c N3) =
  map (run_of (ConM_of c)) (istart_of (ConM_of c) N3).
Proof. unfold pairs, detect_runs, istop_of. simpl. apply zip_map_same. Qed.

(** A detected start is preceded by a sample whose count is [0]. *)
Lemma istart_pred_zero (c : list Z) (N3 : Z) (s : nat) :
  binary c → s ∈ istart_of (ConM_of c) N3 → getZ (ConM_of c) (s - 1) = 0.
Proof.
  intros Hc Hs. apply istart_of_elem in Hs as (H1 & H2 & H3 & H4).
  destruct (ConM_of_cases c (s - 1) Hc) as [E | (_ & _ & _ & E)]; [done |].
  replace (s - 1 + 1)%nat with s in E by lia. lia.
Qed.

Lemma detect_runs_bounds (c : list Z) (N3 : Z) (s e : Z) :
  binary c → (s, e) ∈ pairs (detect_runs c N3) →
  1 ≤ s ∧ s ≤ e ∧ e ≤ Z.of_nat (length c) - 2.
Proof.
  intros Hc Hp. rewrite pairs_detect_runs in Hp.
  apply list_elem_of_fmap in Hp as (i & Hi & Hs).
  unfold run_of in Hi. injection Hi as -> ->.
  pose proof (istart_pred_zero c N3 i Hc Hs) as Hz.
  apply istart_of_elem in Hs as (H1 & H2 & H3 & H4).
  destruct (ConM_of_bounds c i Hc) as [_ Hb]. lia.
Qed.

(** Two detected runs have at least one sample between them. *)
Lemma detect_runs_separated (c : list Z) (N3 : Z) :
  binary c →
  StronglySorted (fun p q : Z * Z => p.2 + 1 < q.1) (pairs (detect_runs c N3)).
Proof.
  intros Hc. rewrite pairs_detect_runs.
  eapply (StronglySorted_map_rel Nat.lt _
            (fun s => s ∈ istart_of (ConM_of c) N3)).
  - intros x y Hx Hy Hlt. unfold Nat.lt in Hlt. unfold run_of. simpl.
    pose proof (istart_pred_zero c N3 y Hc Hy) as Hz.
    apply istart_of_elem in Hy as (Hy1 & Hy2 & Hy3 & Hy4).
    destruct (Z_lt_le_dec (Z.of_nat x + (getZ (ConM_of c) x - 1) + 1) (Z.of_nat y))
      as [Hok | Hbad]; [done | exfalso].
    destruct (ConM_of_descent c x (y - 1 - x) Hc) as [E _]; [lia |].
    replace (x + (y - 1 - x))%nat with (y - 1)%nat in E by lia. lia.
  - apply Forall_forall. done.
  - apply istart_of_sorted.
Qed.

(** Every sample of a detected run is flagged. *)
Lemma detect_runs_flagged (c : list Z) (N3 : Z) (s e : Z) (i : nat) :
  binary c → (s, e) ∈ pairs (detect_runs c N3) →
  s ≤ Z.of_nat i ≤ e → getZ c i = 1.
Proof.
  intros Hc Hp Hi. rewrite pairs_detect_runs in Hp.
  apply list_elem_of_fmap in Hp as (j & Hj & Hs).
  unfold run_of in Hj. injection Hj as -> ->.
  destruct (ConM_of_descent c j (i - j) Hc) as [_ E]; [lia |].
  by replace (j + (i - j))%nat with i in E by lia.
Qed.

(** ** The run detection against the maximal runs *)

Lemma start_mask_cons (a b : Z) (r : list Z) (N3 : Z) :
  start_mask (a :: b :: r) N3 =
  ((N3 <=? b) && (a - b <? 0)) :: start_mask (b :: r) N3.
Proof.
  unfold start_mask. simpl. rewrite ?Nat.sub_0_r. done.
Qed.

Lemma where_from_map_S (pos : nat) (mask : list bool) :
  map S (where_from pos mask) = where_from (S pos) mask.
Proof.
  revert pos. induction mask as [|b r IH]; intros pos; simpl; [done |].
  destruct b; simpl; by rewrite IH.
Qed.

Lemma getZ_app_length (pre : list Z) (x : Z) (r : list Z) :
  getZ (pre ++ x :: r) (length pre) = x.
Proof. unfold getZ. by rewrite list_lookup_middle. Qed.

Lemma runs_of_counts_where (pre L : list Z) (N3 : Z) :
  map (run_of (pre ++ L)) (where_from (S (length pre)) (start_mask L N3)) =
  runs_of_counts (length pre) N3 L.
Proof.
  revert pre. induction L as [|a L IH]; intros pre.
  - done.
  - destruct L as [|b r].
    + done.
    + rewrite start_mask_cons. cbn [where_from runs_of_counts].
      specialize (IH (pre ++ [a])).
      rewrite <- app_assoc, length_app in IH. cbn [app length] in IH.
      replace (length pre + 1)%nat with (S (length pre)) in IH by lia.
      destruct ((N3 <=? b) && (a - b <? 0)).
      * cbn [map app]. rewrite IH. f_equal. unfold run_of. f_equal.
        replace (pre ++ a :: b :: r) with ((pre ++ [a]) ++ b :: r)
          by (by rewrite <- app_assoc).
        replace (S (length pre)) with (length (pre ++ [a]))
          by (rewrite length_app; simpl; lia).
        by rewrite getZ_app_length.
      * cbn [app]. exact IH.
Qed.

Lemma pairs_detect_runs_counts (c : list Z) (N3 : Z) :
  pairs (detect_runs c N3) = runs_of_counts 0 N3 (ConM_of c).
Proof.
  rewrite pairs_detect_runs. unfold istart_of, np_where.
  fold (start_mask (ConM_of c) N3). rewrite where_from_map_S.
  apply (runs_of_counts_where [] (ConM_of c) N3).
Qed.

Lemma interior_length (c : list Z) : length (interior c) = (length c - 2)%nat.
Proof. unfold interior. rewrite length_take, length_drop. lia. Qed.

Lemma interior_lookup (c : list Z) (j : nat) :
  (j + 2 < length c)%nat → interior c !! j = c !! S j.
Proof.
  intros H. unfold interior. rewrite lookup_take_lt by lia.
  by rewrite lookup_drop.
Qed.

Lemma interior_binary (c : list Z) : binary c → binary (interior c).
Proof. intros H. unfold interior. by apply Forall_take, Forall_drop. Qed.

(** Inside the window the count is the length of the run that starts at
    the sample. *)
Lemma ConM_of_run_length (c : list Z) (j : nat) :
  binary c →
  getZ (ConM_of c) (S j) = Z.of_nat (run_length (drop j (interior c))).
Proof.
  intros Hc. remember (length c - j)%nat as d eqn:Hd.
  revert j Hd. induction d as [|d IH]; intros j Hd.
  - rewrite ConM_of_ends by lia.
    rewrite drop_ge by (rewrite interior_length; lia). done.
  - destruct (decide (j + 2 < length c)%nat) as [Hin | Hout].
    + rewrite ConM_of_inner by lia.
      replace (S j + 1)%nat with (S (S j)) by lia.
      rewrite (IH (S j)) by lia.
      destruct (lookup_lt_is_Some_2 c (S j) ltac:(lia)) as [x Hx].
      rewrite (drop_S (interior c) x j)
        by (by rewrite interior_lookup).
      unfold getZ. rewrite Hx. cbn [default run_length].
      destruct (Forall_lookup_1 _ _ _ _ Hc Hx) as [-> | ->]; simpl; lia.
    + rewrite ConM_of_ends by lia.
      rewrite drop_ge by (rewrite interior_length; lia). done.
Qed.

Lemma suffix_rl_length (c : list Z) : length (suffix_rl c) = S (length c).
Proof. induction c as [|x c IH]; simpl; [done | by rewrite IH]. Qed.

Lemma suffix_rl_lookup (c : list Z) (j : nat) :
  (j ≤ length c)%nat →
  suffix_rl c !! j = Some (Z.of_nat (run_length (drop j c))).
Proof.
  revert j. induction c as [|x c IH]; intros j Hj.
  - destruct j; [done | simpl in Hj; lia].
  - destruct j as [|j]; [done |]. simpl in Hj.
    change (suffix_rl (x :: c) !! S j) with (suffix_rl c !! j).
    rewrite IH by lia. done.
Qed.

Lemma ConM_of_suffix_rl (c : list Z) :
  binary c → (2 ≤ length c)%nat → ConM_of c = 0 :: suffix_rl (interior c).
Proof.
  intros Hc Hne. apply list_eq. intros i.
  destruct i as [|j].
  - pose proof (ConM_of_ends c 0 ltac:(by left)) as H0.
    unfold getZ in H0.
    destruct (lookup_lt_is_Some_2 (ConM_of c) 0) as [x Hx].
    { rewrite ConM_of_length. lia. }
    rewrite Hx in *. simpl in *. by subst.
  - change ((0 :: suffix_rl (interior c)) !! S j)
      with (suffix_rl (interior c) !! j).
    destruct (decide (S j < length c)%nat) as [Hlt | Hge].
    + rewrite suffix_rl_lookup by (rewrite interior_length; lia).
      rewrite <- (ConM_of_run_length c j Hc).
      destruct (lookup_lt_is_Some_2 (ConM_of c) (S j)) as [x Hx].
      { by rewrite ConM_of_length. }
      unfold getZ. by rewrite Hx.
    + rewrite !lookup_ge_None_2; [done | |].
      * rewrite suffix_rl_length, interior_length. lia.
      * rewrite ConM_of_length. lia.
Qed.

Lemma runs_of_counts_cons (pos : nat) (N3 a b : Z) (r : list Z) :
  runs_of_counts pos N3 (a :: b :: r) =
  (if (N3 <=? b) && (a - b <? 0)
   then [(Z.of_nat (S pos), Z.of_nat (S pos) + (b - 1))] else []) ++
  runs_of_counts (S pos) N3 (b :: r).
Proof. reflexivity. Qed.

Lemma runs_of_counts_maximal (c : list Z) (pos : nat) (prev : bool)
  (a N3 : Z) :
  (prev = false → a = 0) →
  (prev = true → a = Z.of_nat (run_length c) + 1) →
  runs_of_counts pos N3 (a :: suffix_rl c) =
  map shift1 (maximal_runs_from pos prev c N3).
Proof.
  revert pos prev a. induction c as [|x c IH]; intros pos prev a H0 H1.
  - cbn [suffix_rl runs_of_counts run_length maximal_runs_from map].
    destruct prev.
    + rewrite H1 by done. simpl.
      by rewrite andb_false_r.
    + rewrite H0 by done. simpl. by rewrite andb_false_r.
  - cbn [suffix_rl]. rewrite runs_of_counts_cons. cbn [maximal_runs_from].
    rewrite map_app.
    rewrite (IH (S pos) (x =? 1) (Z.of_nat (run_length (x :: c)))).
    + f_equal. cbn [run_length].
      destruct (Z.eqb_spec x 1) as [-> | Hx].
      * destruct prev; cbn [andb negb].
        -- rewrite H1 by done. cbn [run_length Z.eqb Pos.eqb].
           replace (Z.of_nat (S (run_length c)) + 1 -
                    Z.of_nat (S (run_length c)) <? 0) with false
             by (symmetry; apply Z.ltb_ge; lia).
           by rewrite andb_false_r.
        -- rewrite H0 by done.
           replace (0 - Z.of_nat (S (run_length c)) <? 0) with true
             by (symmetry; apply Z.ltb_lt; lia).
           rewrite andb_true_r.
           destruct (N3 <=? Z.of_nat (S (run_length c))); [| done].
           cbn [map]. unfold shift1. cbn [fst snd]. do 2 f_equal; lia.
      * cbn [andb].
        replace (a - Z.of_nat 0 <? 0) with false; [by rewrite andb_false_r |].
        symmetry. apply Z.ltb_ge.
        destruct prev; [rewrite H1 by done | rewrite H0 by done]; lia.
    + intros E. cbn [run_length]. by rewrite E.
    + intros E. cbn [run_length]. rewrite E. lia.
Qed.

(** What the run detection computes: the maximal runs of length at least
    [N3] of the samples without the first and the last one. *)
Lemma detect_runs_interior (c : list Z) (N3 : Z) :
  binary c →
  pairs (detect_runs c N3) = map shift1 (maximal_runs (interior c) N3).
Proof.
  intros Hc. rewrite pairs_detect_runs_counts.
  destruct c as [|x [|y c]].
  - done.
  - done.
  - rewrite ConM_of_suffix_rl by (done || (simpl; lia)).
    apply runs_of_counts_maximal; [done | discriminate].
Qed.

(** ** The flags fed to the run detection *)

Lemma set_at_length (idx : list nat) (v : Z) (a : list Z) :
  length (set_at idx v a) = length a.
Proof.
  unfold set_at. revert a. induction idx as [|i idx IH]; intros a; simpl.
  - done.
  - by rewrite IH, length_insert.
Qed.

Lemma set_at_binary (idx : list nat) (a : list Z) :
  binary a → binary (set_at idx 1 a).
Proof.
  unfold set_at. revert a. induction idx as [|i idx IH]; intros a Ha; simpl.
  - done.
  - apply IH. apply Forall_insert; [done | by right].
Qed.


Lemma zeros_binary {A : Type} (a : list A) : binary (zeros_like a).
Proof. apply Forall_forall. intros x Hx. apply elem_of_replicate in Hx. by left; destruct Hx. Qed.

Lemma cindx_binary sig_i flux error N1 N2 : binary (cindx sig_i flux error N1 N2).
Proof. apply set_at_binary, zeros_binary. Qed.

Lemma cindx_length sig_i flux error N1 N2 :
  length (cindx sig_i flux error N1 N2) = length flux.
Proof. unfold cindx, zeros_like. by rewrite set_at_length, length_replicate. Qed.




(** ** Claims about FINDflare *)

(** X1.  What [FINDflare] returns for any input: the maximal runs of
    length at least [N3] among the flags of the samples [1 .. n-2]. *)
Corollary FINDflare_interior (sig_i : fl) (flux error : list fl) (N1 N2 : fl)
  (N3 : Z) :
  pairs (FINDflare sig_i flux error N1 N2 N3) =
  map shift1 (maximal_runs (interior (cindx sig_i flux error N1 N2)) N3).
Proof. apply detect_runs_interior, cindx_binary. Qed.

(** C1 (the code departs from the claim).  The claim: the detector
    returns exactly the maximal runs of flagged samples of length at least
    [N3].  On the specification's own flag sequence
    [0,1,1,1,0,1,1,0,0,1,1,1,1] with [N3 = 3] the run detection returns
    [1,3] and [9,11], where the maximal runs are [1,3] and [9,12]: the last
    sample is never counted.  The same happens on a flux array that
    [FINDflare] can receive, sixty quiet samples followed by that pattern,
    whose standard deviation is 240/73. *)
Theorem FINDflare_drops_last_sample :
  pairs (detect_runs scenario 3) = [(1, 3); (9, 11)] ∧
  maximal_runs scenario 3 = [(1, 3); (9, 12)] ∧
  is_nanstd quiet_then_scenario (Fin (240 # 73)) ∧
  cindx (Fin (240 # 73)) quiet_then_scenario (no_error 73) (fz 3) (fz 1) =
    replicate 60 0 ++ scenario ∧
  pairs (FINDflare (Fin (240 # 73)) quiet_then_scenario (no_error 73)
           (fz 3) (fz 1) 3) = [(61, 63); (69, 71)] ∧
  maximal_runs (replicate 60 0 ++ scenario) 3 = [(61, 63); (69, 72)].
Proof.
  repeat split; try (vm_compute; reflexivity).
  vm_compute. discriminate.
Qed.

(** C10.  For a flux array of length [n >= 2] the reverse scan leaves
    [ConM[0]] and [ConM[n-1]] at zero, and every (start, stop) pair that
    [FINDflare] returns has [start >= 1] and [stop <= n - 2]. *)
Theorem FINDflare_skips_both_ends (sig_i : fl) (flux error : list fl)
  (N1 N2 : fl) (N3 : Z) :
  (2 ≤ length flux)%nat →
  getZ (ConM_of (cindx sig_i flux error N1 N2)) 0 = 0 ∧
  getZ (ConM_of (cindx sig_i flux error N1 N2)) (length flux - 1) = 0 ∧
  ∀ s e : Z,
    (s, e) ∈ pairs (FINDflare sig_i flux error N1 N2 N3) →
    1 ≤ s ∧ e ≤ Z.of_nat (length flux) - 2.
Proof.
  intros Hn. split; [| split].
  - apply ConM_of_ends. by left.
  - apply ConM_of_ends. right. rewrite cindx_length. lia.
  - intros s e H. unfold FINDflare in H.
    apply detect_runs_bounds in H; [| apply cindx_binary].
    rewrite cindx_length in H. lia.
Qed.

Lemma FINDflare_skips_both_ends_witness :
  (2 ≤ length quiet_then_scenario)%nat ∧
  (1 ≤ 69 ∧ 71 ≤ Z.of_nat (length quiet_then_scenario) - 2).
Proof.
  split; [vm_compute; lia |].
  apply (FINDflare_skips_both_ends (Fin (240 # 73)) quiet_then_scenario
           (no_error 73) (fz 3) (fz 1) 3); [vm_compute; lia |].
  apply list_elem_of_In. vm_compute. right. left. reflexivity.
Defined.




(** ** Facts about index arrays *)

Lemma np_take_ok {A : Type} (d : A) (a : list A) (idx : list nat) (xs : list A) :
  np_take a idx = Ok xs →
  xs = map (fun i => default d (a !! i)) idx ∧
  Forall (fun i => (i < length a)%nat) idx.
Proof.
  revert xs. induction idx as [|i idx IH]; intros xs H; simpl in H.
  - injection H as <-. split; [done | constructor].
  - destruct (a !! i) as [x|] eqn:E; [| discriminate].
    destruct (np_take a idx) as [ys|] eqn:E2; simpl in H; [| discriminate].
    injection H as <-. destruct (IH ys eq_refl) as [-> HF].
    split.
    + simpl. by rewrite E.
    + constructor; [by eapply lookup_lt_Some | done].
Qed.

Lemma delete_from_sublist {A : Type} (pos : nat) (idx : list nat) (a : list A) :
  delete_from pos idx a `sublist_of` a.
Proof.
  revert pos. induction a as [|x a IH]; intros pos; simpl.
  - constructor.
  - case_bool_decide.
    + apply sublist_cons. apply IH.
    + apply sublist_skip. apply IH.
Qed.

Lemma np_delete_sublist {A : Type} (a b : list A) (idx : list nat) :
  np_delete a idx = Ok b → b `sublist_of` a.
Proof.
  unfold np_delete. destruct (forallb _ idx); [| discriminate].
  intros [= <-]. apply delete_from_sublist.
Qed.

Lemma sublist_StronglySorted {A : Type} (R : A → A → Prop) (l1 l2 : list A) :
  l1 `sublist_of` l2 → StronglySorted R l2 → StronglySorted R l1.
Proof.
  induction 1 as [|x l1 l2 Hsub IH|x l1 l2 Hsub IH]; intros HS.
  - constructor.
  - inversion HS as [|? ? HS' HF]; subst.
    constructor; [by apply IH |].
    apply Forall_forall. intros y Hy.
    eapply Forall_forall in HF; [exact HF |]. by eapply elem_of_sublist.
  - inversion HS; subst. by apply IH.
Qed.

Lemma sorted_lookup {A : Type} (R : A → A → Prop) (l : list A) (i j : nat)
  (x y : A) :
  StronglySorted R l → l !! i = Some x → l !! j = Some y →
  (i < j)%nat → R x y.
Proof.
  intros HS. revert i j. induction HS as [|a l HS IH HF]; intros i j Hi Hj Hlt.
  - discriminate.
  - destruct j as [|j]; [lia |]. destruct i as [|i]; simpl in *.
    + injection Hi as <-. eapply Forall_forall in HF; [exact HF |].
      by eapply list_elem_of_lookup_2.
    + eapply IH; [exact Hi | exact Hj | lia].
Qed.

Lemma sorted_lookup_lt (l : list nat) (i j x y : nat) :
  StronglySorted Nat.lt l → l !! i = Some x → l !! j = Some y →
  (i < j)%nat → (x < y)%nat.
Proof. apply (sorted_lookup Nat.lt). Qed.

Lemma sorted_lookup_le (l : list nat) (i j x y : nat) :
  StronglySorted Nat.lt l → l !! i = Some x → l !! j = Some y →
  (i ≤ j)%nat → (x ≤ y)%nat.
Proof.
  intros HS Hi Hj Hle. destruct (decide (i = j)) as [-> | Hne].
  - rewrite Hi in Hj. injection Hj as ->. lia.
  - pose proof (sorted_lookup_lt l i j x y HS Hi Hj ltac:(lia)). lia.
Qed.

Lemma zip_map_pair {A B C D : Type} (f : A → C) (g : B → D)
  (l : list A) (k : list B) :
  zip (map f l) (map g k) = map (fun p => (f p.1, g p.2)) (zip l k).
Proof.
  revert k. induction l as [|a l IH]; intros [|b k]; simpl; try done.
  by rewrite IH.
Qed.

Lemma StronglySorted_weaken {A : Type} (R R' : A → A → Prop) (l : list A) :
  (∀ x y, R x y → R' x y) → StronglySorted R l → StronglySorted R' l.
Proof.
  intros HR HS. induction HS as [|x l HS IH HF]; constructor; [done |].
  eapply Forall_impl; [exact HF | apply HR].
Qed.

(** The position pairs [(0, b1), (b1+1, b2), ..., (bk+1, last)] cut out by
    the break positions. *)
Lemma chain_positions (B : list nat) (lo hi : nat) :
  StronglySorted Nat.lt B →
  Forall (fun b => (lo ≤ b)%nat ∧ (b < hi)%nat) B →
  (lo ≤ hi)%nat →
  Forall (fun p : nat * nat => (lo ≤ p.1)%nat ∧ (p.1 ≤ p.2)%nat ∧ (p.2 ≤ hi)%nat)
         (zip (lo :: map S B) (B ++ [hi])) ∧
  StronglySorted (fun p q : nat * nat => (p.2 < q.1)%nat ∧ p.2 ∈ B)
         (zip (lo :: map S B) (B ++ [hi])).
Proof.
  intros HS. revert lo. induction HS as [|b B HS IH HF]; intros lo HB Hle.
  - simpl. split.
    + constructor; [simpl; lia | constructor].
    + constructor; [constructor | constructor].
  - inversion HB as [|? ? [Hb1 Hb2] HB']; subst.
    destruct (IH (S b)) as [IH1 IH2].
    + apply Forall_forall. intros x Hx.
      eapply Forall_forall in HF as HF1; [| exact Hx].
      eapply Forall_forall in HB' as HB1; [| exact Hx].
      unfold Nat.lt in HF1. lia.
    + lia.
    + simpl. split.
      * constructor; [simpl; lia |].
        eapply Forall_impl; [exact IH1 |]. simpl. intros p ?. lia.
      * constructor.
        -- eapply StronglySorted_weaken; [| exact IH2].
           simpl. intros x y [? ?]. split; [done | by right].
        -- eapply Forall_impl; [exact IH1 |]. simpl. intros p ?.
           split; [lia | by left].
Qed.

(** ** Grouping of candidate samples *)

Lemma breaks_elem (cand1 : list nat) (minsep : Z) (b : nat) :
  b ∈ breaks cand1 minsep ↔
  (S b < length cand1)%nat ∧
  minsep < Z.of_nat (getN cand1 (S b)) - Z.of_nat (getN cand1 b).
Proof.
  unfold breaks. rewrite np_where_elem, lookup_zip_with, lookup_drop.
  replace (1 + b)%nat with (S b) by lia. unfold getN.
  destruct (decide (S b < length cand1)%nat) as [Hlt | Hge].
  - destruct (lookup_lt_is_Some_2 cand1 (S b) Hlt) as [y Ey].
    destruct (lookup_lt_is_Some_2 cand1 b ltac:(lia)) as [x Ex].
    rewrite lookup_take_lt by lia. rewrite Ex, Ey. simpl. split.
    + intros [= H]. apply Z.ltb_lt in H. done.
    + intros [_ H]. f_equal. by apply Z.ltb_lt.
  - rewrite (lookup_ge_None_2 cand1 (S b)) by lia. simpl.
    split; [discriminate | intros [? _]; lia].
Qed.

Lemma getN_elem (l : list nat) (i : nat) :
  (i < length l)%nat → getN l i ∈ l.
Proof.
  intros H. destruct (lookup_lt_is_Some_2 l i H) as [x E].
  unfold getN. rewrite E. simpl. by eapply list_elem_of_lookup_2.
Qed.

Lemma getN_mono (l : list nat) (i j : nat) :
  StronglySorted Nat.lt l → (i ≤ j)%nat → (j < length l)%nat →
  (getN l i ≤ getN l j)%nat.
Proof.
  intros HS Hij Hj.
  destruct (lookup_lt_is_Some_2 l j Hj) as [y Ey].
  destruct (lookup_lt_is_Some_2 l i ltac:(lia)) as [x Ex].
  unfold getN. rewrite Ex, Ey. simpl. by eapply sorted_lookup_le.
Qed.

Lemma MultiFind_group_spec (cand1 : list nat) (minsep : Z)
  (istart istop : list Z) :
  StronglySorted Nat.lt cand1 →
  MultiFind_group cand1 minsep = Ok (istart, istop) →
  Forall (fun p : Z * Z =>
            p.1 ≤ p.2 ∧
            ∃ i j : nat, i ∈ cand1 ∧ j ∈ cand1 ∧
                         p.1 = Z.of_nat i ∧ p.2 = Z.of_nat j)
         (zip istart istop) ∧
  StronglySorted (fun p q : Z * Z => p.2 + minsep < q.1) (zip istart istop).
Proof.
  intros HS. unfold MultiFind_group.
  destruct (length cand1 <? 1)%nat eqn:Hlen.
  - intros [= <- <-]. simpl. split; constructor.
  - apply Nat.ltb_ge in Hlen.
    destruct (np_take cand1 (0%nat :: map S (breaks cand1 minsep)))
      as [s0|] eqn:E1; [| discriminate].
    destruct (np_take cand1 (breaks cand1 minsep ++ [(length cand1 - 1)%nat]))
      as [e0|] eqn:E2; [| discriminate].
    intros [= <- <-].
    apply (np_take_ok 0%nat) in E1 as [-> _].
    apply (np_take_ok 0%nat) in E2 as [-> _].
    fold (getN cand1).
    rewrite !map_map, zip_map_pair.
    destruct (chain_positions (breaks cand1 minsep) 0 (length cand1 - 1))
      as [HF HC].
    + apply np_where_sorted.
    + apply Forall_forall. intros b Hb. apply breaks_elem in Hb. lia.
    + lia.
    + split.
      * apply Forall_forall. intros p Hp.
        apply list_elem_of_fmap in Hp as (q & -> & Hq).
        eapply Forall_forall in HF; [| exact Hq]. simpl in *.
        destruct HF as (_ & H1 & H2). split.
        -- apply inj_le. apply getN_mono; [done | done | lia].
        -- exists (getN cand1 q.1), (getN cand1 q.2).
           repeat split; apply getN_elem; lia.
      * eapply (StronglySorted_map_rel _ _
                  (fun p : nat * nat => (p.1 ≤ p.2)%nat ∧
                                        (p.2 ≤ length cand1 - 1)%nat));
          [| | exact HC].
        -- simpl. intros x y Hx Hy [Hlt Hb].
           apply breaks_elem in Hb as [Hb1 Hb2].
           pose proof (getN_mono cand1 (S x.2) y.1 HS ltac:(lia) ltac:(lia)).
           lia.
        -- eapply Forall_impl; [exact HF |]. simpl. intros q ?. lia.
Qed.

Lemma zip_bump (istart istop : list Z) :
  zip istart (bump istart istop) = map bump_event (zip istart istop).
Proof.
  unfold bump. revert istop.
  induction istart as [|s l IH]; intros [|e k]; simpl; try done.
  by rewrite IH.
Qed.

(** ** Quality flags *)

Lemma FlagCuts_bad_lookup (flags : list Z) (i : nat) (f : Z) :
  flags !! i = Some f →
  getZ (FlagCuts_bad flags bad_flags_default) i =
  Z.land f 16 + Z.land f 128 + Z.land f 2048.
Proof.
  intros Hf. unfold FlagCuts_bad, bad_flags_default, getZ. simpl.
  rewrite !lookup_zip_with, !list_lookup_fmap, Hf.
  unfold zeros_like. rewrite lookup_replicate_2 by (by eapply lookup_lt_Some).
  simpl. lia.
Qed.

Lemma FlagCuts_bad_good (flags : list Z) (i : nat) (f : Z) :
  flags !! i = Some f →
  (getZ (FlagCuts_bad flags bad_flags_default) i < 1 ↔ good_quality f).
Proof.
  intros Hf. rewrite (FlagCuts_bad_lookup flags i f Hf). unfold good_quality.
  assert (H16 : 0 ≤ Z.land f 16) by (apply Z.land_nonneg; right; lia).
  assert (H128 : 0 ≤ Z.land f 128) by (apply Z.land_nonneg; right; lia).
  assert (H2048 : 0 ≤ Z.land f 2048) by (apply Z.land_nonneg; right; lia).
  lia.
Qed.



(** ** The candidate samples of MultiFind *)

Lemma getZ_set_slice (lo hi : Z) (a : list Z) (i : nat) :
  getZ (set_slice lo hi a) i =
  if (lo <=? Z.of_nat i) && (Z.of_nat i <? hi) && (i <? length a)%nat
  then 1 else getZ a i.
Proof.
  unfold getZ, set_slice. rewrite list_lookup_imap.
  destruct (a !! i) as [x|] eqn:E; simpl.
  - apply lookup_lt_Some in E. apply Nat.ltb_lt in E. rewrite E.
    rewrite andb_true_r. by destruct (_ && _).
  - apply lookup_ge_None in E. apply Nat.ltb_ge in E. rewrite E.
    by rewrite andb_false_r.
Qed.

Lemma getZ_paint (P : list (Z * Z)) (a : list Z) (i : nat) :
  0 < getZ (foldl (fun bin_out '(s, e) => set_slice s (e + 1) bin_out) a P) i →
  0 < getZ a i ∨ ∃ p : Z * Z, p ∈ P ∧ p.1 ≤ Z.of_nat i ≤ p.2.
Proof.
  revert a. induction P as [|[s e] P IH]; intros a H; simpl in H.
  - by left.
  - apply IH in H as [H | (p & Hp & Hi)].
    + rewrite getZ_set_slice in H.
      destruct (_ && _) eqn:E; [| by left].
      right. exists (s, e). split; [by left |].
      apply andb_true_iff in E as [E _].
      apply andb_true_iff in E as [E1 E2].
      apply Z.leb_le in E1. apply Z.ltb_lt in E2. simpl. lia.
    + right. exists p. split; [by right | done].
Qed.

(** The binary output marks only samples of a detected run, and those are
    samples that passed the three criteria. *)
Lemma FINDflare_binary_flagged sig_i flux error N1 N2 N3 (i : nat) :
  0 < getZ (FINDflare_binary sig_i flux error N1 N2 N3) i →
  flagged sig_i flux error N1 N2 i ∧
  ∃ p : Z * Z, p ∈ pairs (FINDflare sig_i flux error N1 N2 N3) ∧
               p.1 ≤ Z.of_nat i ≤ p.2.
Proof.
  unfold FINDflare_binary.
  destruct (FINDflare sig_i flux error N1 N2 N3) as [s e] eqn:E.
  intros H. apply getZ_paint in H as [H | (p & Hp & Hi)].
  - rewrite getZ_zeros in H. lia.
  - assert (Hp' : p ∈ pairs (FINDflare sig_i flux error N1 N2 N3))
      by (by rewrite E).
    split; [| by exists p].
    destruct p as [ps pe]. unfold FINDflare in Hp'.
    eapply detect_runs_flagged; [apply cindx_binary | exact Hp' | done].
Qed.

Lemma MultiFind_cand_spec (isflare : list Z) (time : list fl) (flags : list Z)
  (gapwindow : fl) (cand1 : list nat) :
  MultiFind_cand isflare time flags gapwindow = Ok cand1 →
  StronglySorted Nat.lt cand1 ∧
  ∀ c : nat, c ∈ cand1 →
    0 < getZ isflare c ∧ ∃ f : Z, flags !! c = Some f ∧ good_quality f.
Proof.
  unfold MultiFind_cand.
  set (mask := zip_with andb _ _).
  destruct (np_take time (np_where mask)) as [tc|]; simpl; [| discriminate].
  destruct (last_of time) as [tlast|]; simpl; [| discriminate].
  destruct (first_of time) as [tfirst|]; simpl; [| discriminate].
  destruct (np_delete (np_where mask) (near tc tlast gapwindow))
    as [c1|] eqn:E1; simpl; [| discriminate].
  intros E2.
  apply np_delete_sublist in E1. apply np_delete_sublist in E2.
  assert (Hsub : cand1 `sublist_of` np_where mask) by (by etrans).
  split.
  - eapply sublist_StronglySorted; [exact Hsub | apply np_where_sorted].
  - intros c Hc. eapply elem_of_sublist in Hc; [| exact Hsub].
    apply np_where_elem in Hc. unfold mask in Hc.
    rewrite lookup_zip_with, !list_lookup_fmap in Hc.
    destruct (FlagCuts_bad flags bad_flags_default !! c) as [b|] eqn:Eb;
      simpl in Hc; [| discriminate].
    destruct (isflare !! c) as [v|] eqn:Ev; simpl in Hc; [| discriminate].
    injection Hc as Hc. apply andb_true_iff in Hc as [Hb Hv].
    apply Z.ltb_lt in Hb. apply Z.ltb_lt in Hv.
    split; [unfold getZ; by rewrite Ev |].
    destruct (flags !! c) as [f|] eqn:Ef.
    + exists f. split; [done |].
      apply (FlagCuts_bad_good flags c f Ef). unfold getZ. by rewrite Eb.
    + exfalso. unfold FlagCuts_bad, bad_flags_default in Eb. simpl in Eb.
      rewrite !lookup_zip_with, !list_lookup_fmap, Ef in Eb.
      simpl in Eb. destruct (zeros_like flags !! c); discriminate.
Qed.

(** What [MultiFind] returns: the groups of candidate samples, each with
    the last step applied. *)
Lemma MultiFind_spec (sig_i : fl) (time flux_diff error : list fl)
  (flags : list Z) (gapwindow : fl) (minsep : Z) (r : list Z * list Z) :
  MultiFind sig_i time flux_diff error flags gapwindow minsep = Ok r →
  ∃ (cand1 : list nat) (P : list (Z * Z)),
    MultiFind_cand (FINDflare_binary sig_i flux_diff error (fz 3) (fz 1) 3)
      time flags gapwindow = Ok cand1 ∧
    pairs r = map bump_event P ∧
    Forall (fun p : Z * Z =>
              p.1 ≤ p.2 ∧
              ∃ i j : nat, i ∈ cand1 ∧ j ∈ cand1 ∧
                           p.1 = Z.of_nat i ∧ p.2 = Z.of_nat j) P ∧
    StronglySorted (fun p q : Z * Z => p.2 + minsep < q.1) P.
Proof.
  unfold MultiFind.
  destruct (MultiFind_cand _ time flags gapwindow) as [cand1|] eqn:Ec;
    simpl; [| discriminate].
  destruct (MultiFind_group cand1 minsep) as [[istart istop]|] eqn:Eg;
    simpl; [| discriminate].
  intros [= <-].
  destruct (MultiFind_cand_spec _ _ _ _ _ Ec) as [HS _].
  destruct (MultiFind_group_spec cand1 minsep istart istop HS Eg) as [HF HC].
  exists cand1, (zip istart istop). repeat split; try done.
  unfold pairs. simpl. apply zip_bump.
Qed.

(** ** Claims about the candidate lists *)

Lemma sigma_of_spikes_a :
  is_sigma true 7 (spikes 40 [3; 4; 5; 9; 10; 11]%nat) (fz 1).
Proof.
  vm_compute. exists (Fin 1), (Fin 1). vm_compute.
  repeat split; try discriminate. by left.
Qed.

Lemma sigma_of_spikes_b :
  is_sigma true 7 (spikes 40 [10; 11; 12]%nat) (fz 1).
Proof.
  vm_compute. exists (Fin 1), (Fin 1). vm_compute.
  repeat split; try discriminate. by left.
Qed.

(** C8 (counterexample).  Forty samples, flux raised at samples 3-5 and
    9-11, of which 3, 4, 10 and 11 have a rejected quality bit, default
    [minsep = 3].  The candidate samples are 5 and 9, four apart, hence two
    events; each has [start = stop] and gets its stop moved by one.  The
    events [5,6] and [9,10] are 3 samples apart, which is not more than
    [minsep]. *)
Lemma candidates_well_separated_fails : ¬ candidates_well_separated.
Proof.
  intros H.
  specialize (H (fz 1) (tline 40) (spikes 40 [3; 4; 5; 9; 10; 11]%nat)
                (errs 40) (masked 40 [3; 4; 10; 11]%nat)
                (Fin (1 # 10)) 3 ([5; 9], [6; 10])
                sigma_of_spikes_a).
  destruct H as [_ [_ H]]; [vm_compute; reflexivity |].
  unfold pairs in H. simpl in H.
  inversion H as [|? ? _ HF]; subst.
  inversion HF as [|? ? (_ & _ & Hsep) _]; subst.
  simpl in Hsep. lia.
Qed.

(** The ranges of [FINDflare] itself know no [minsep]: two runs with a
    single unflagged sample between them are two ranges. *)
Example FINDflare_ranges_two_apart :
  pairs (detect_runs [0; 1; 1; 1; 0; 1; 1; 1; 0] 3) = [(1, 3); (5, 7)].
Proof. vm_compute. reflexivity. Qed.

(** C8 (amended).  Every candidate has [start <= stop], and candidates
    are ordered by start and do not overlap.  Two ranges of [FINDflare]
    have at least one sample between them.  Two events of [MultiFind], for
    [minsep >= 1], are at least [minsep] apart, and more than [minsep]
    apart unless the stop of the earlier one is its start plus one. *)
Theorem candidates_ordered_disjoint
  (sig_f : fl) (flux error_f : list fl) (N1 N2 : fl) (N3 : Z)
  (sig_i : fl) (time flux_diff error : list fl) (flags : list Z)
  (gapwindow : fl) (minsep : Z) (r : list Z * list Z) :
  1 ≤ minsep →
  MultiFind sig_i time flux_diff error flags gapwindow minsep = Ok r →
  (Forall (fun p : Z * Z => p.1 ≤ p.2)
          (pairs (FINDflare sig_f flux error_f N1 N2 N3)) ∧
   StronglySorted (fun p q : Z * Z => p.1 < q.1 ∧ p.2 + 1 < q.1)
          (pairs (FINDflare sig_f flux error_f N1 N2 N3))) ∧
  (Forall (fun p : Z * Z => p.1 ≤ p.2) (pairs r) ∧
   StronglySorted
     (fun p q : Z * Z =>
        p.1 < q.1 ∧ p.2 < q.1 ∧ minsep ≤ q.1 - p.2 ∧
        (p.2 ≠ p.1 + 1 → minsep < q.1 - p.2))
     (pairs r)).
Proof.
  intros Hm HM. split.
  - pose proof (cindx_binary sig_f flux error_f N1 N2) as Hc.
    unfold FINDflare. split.
    + apply Forall_forall. intros [s e] Hp.
      apply detect_runs_bounds in Hp; [simpl; lia | done].
    + pose proof (detect_runs_separated _ N3 Hc) as HS.
      assert (HF : Forall (fun p : Z * Z => p.1 ≤ p.2)
                     (pairs (detect_runs (cindx sig_f flux error_f N1 N2) N3))).
      { apply Forall_forall. intros [s e] Hp.
        apply detect_runs_bounds in Hp; [simpl; lia | done]. }
      rewrite <- (map_id (pairs _)).
      eapply (StronglySorted_map_rel _ _ (fun p : Z * Z => p.1 ≤ p.2));
        [| exact HF | exact HS].
      simpl. intros x y Hx Hy Hxy. lia.
  - apply MultiFind_spec in HM as (cand1 & P & _ & -> & HF & HS). split.
    + apply Forall_forall. intros p Hp.
      apply list_elem_of_fmap in Hp as (q & -> & Hq).
      eapply Forall_forall in HF; [| exact Hq]. destruct HF as [Hle _].
      destruct q as [qs qe]. unfold bump_event. simpl in *.
      destruct (Z.eqb_spec (qs - qe) 0); lia.
    + eapply (StronglySorted_map_rel _ _ (fun p : Z * Z => p.1 ≤ p.2));
        [| | exact HS].
      * intros [xs xe] [ys ye] Hx Hy Hxy. unfold bump_event. simpl in *.
        destruct (Z.eqb_spec (xs - xe) 0); repeat split; lia.
      * eapply Forall_impl; [exact HF |]. simpl. by intros p [? _].
Qed.

Lemma candidates_ordered_disjoint_witness :
  1 ≤ 3 ∧
  MultiFind (fz 1) (tline 40) (spikes 40 [3; 4; 5; 9; 10; 11]%nat)
    (errs 40) (masked 40 [3; 4; 10; 11]%nat) (Fin (1 # 10)) 3 =
    Ok ([5; 9], [6; 10]) ∧
  StronglySorted
    (fun p q : Z * Z =>
       p.1 < q.1 ∧ p.2 < q.1 ∧ 3 ≤ q.1 - p.2 ∧ (p.2 ≠ p.1 + 1 → 3 < q.1 - p.2))
    (pairs ([5; 9], [6; 10])).
Proof.
  assert (HM : MultiFind (fz 1) (tline 40) (spikes 40 [3; 4; 5; 9; 10; 11]%nat)
                 (errs 40) (masked 40 [3; 4; 10; 11]%nat) (Fin (1 # 10)) 3 =
               Ok ([5; 9], [6; 10])) by (vm_compute; reflexivity).
  split; [lia |]. split; [exact HM |].
  exact (proj2 (proj2
    (candidates_ordered_disjoint (fz 1)
       (spikes 40 [3; 4; 5; 9; 10; 11]%nat) (errs 40) (fz 3) (fz 1) 3
       (fz 1) (tline 40) (spikes 40 [3; 4; 5; 9; 10; 11]%nat)
       (errs 40) (masked 40 [3; 4; 10; 11]%nat) (Fin (1 # 10)) 3
       ([5; 9], [6; 10]) ltac:(lia) HM))).
Defined.

(** C5 (counterexample).  Forty samples, flux raised at samples 10, 11 and
    12, of which 11 has the rejected quality bit 16.  [FINDflare] runs on
    all samples and finds the run 10-12 of length [N3 = 3]; the quality cut
    then leaves the candidate samples 10 and 12, and the reported event
    [10,12] contains the bad sample 11.  On the series without sample 11
    there are only two consecutive raised samples and nothing is found. *)
Lemma quality_cut_before_runs_fails :
  ¬ quality_cut_before_runs ∧
  is_sigma true 7 (without 11 (spikes 40 [10; 11; 12]%nat)) (fz 1) ∧
  MultiFind (fz 1) (without 11 (tline 40))
    (without 11 (spikes 40 [10; 11; 12]%nat)) (errs 39)
    (without 11 (masked 40 [11]%nat)) (Fin (1 # 10)) 3 = Ok ([], []).
Proof.
  split; [| split].
  - intros H.
    specialize (H (fz 1) (tline 40) (spikes 40 [10; 11; 12]%nat)
                  (errs 40) (masked 40 [11]%nat) (Fin (1 # 10)) 3
                  ([10], [12]) sigma_of_spikes_b).
    assert (HM : MultiFind (fz 1) (tline 40) (spikes 40 [10; 11; 12]%nat)
                   (errs 40) (masked 40 [11]%nat) (Fin (1 # 10)) 3 =
                 Ok ([10], [12])) by (vm_compute; reflexivity).
    specialize (H HM (10, 12) 11%nat 16).
    destruct H as [H _].
    + by left.
    + simpl. lia.
    + vm_compute. reflexivity.
    + vm_compute in H. discriminate.
  - vm_compute. split; [discriminate | reflexivity].
  - vm_compute. reflexivity.
Qed.

(** C5 (amended).  The quality cut of [MultiFind] acts on the samples that
    [FINDflare] has flagged, after its run detection: the start of every
    event is a sample that passed the three criteria and whose quality
    mask has none of the bits 16, 128 and 2048 set, and so is the stop
    unless it is the start plus one. *)
Theorem MultiFind_quality_cut (sig_i : fl) (time flux_diff error : list fl)
  (flags : list Z) (gapwindow : fl) (minsep : Z) (r : list Z * list Z)
  (p : Z * Z) :
  MultiFind sig_i time flux_diff error flags gapwindow minsep = Ok r →
  p ∈ pairs r →
  (∃ (i : nat) (f : Z),
      p.1 = Z.of_nat i ∧ flags !! i = Some f ∧ good_quality f ∧
      flagged sig_i flux_diff error (fz 3) (fz 1) i) ∧
  ((∃ (j : nat) (f : Z),
      p.2 = Z.of_nat j ∧ flags !! j = Some f ∧ good_quality f ∧
      flagged sig_i flux_diff error (fz 3) (fz 1) j) ∨
   p.2 = p.1 + 1).
Proof.
  intros HM Hp.
  apply MultiFind_spec in HM as (cand1 & P & Hc & Hr & HF & _).
  rewrite Hr in Hp.
  apply list_elem_of_fmap in Hp as ([qs qe] & -> & Hq).
  eapply Forall_forall in HF; [| exact Hq].
  destruct HF as (Hle & i & j & Hi & Hj & Ei & Ej). simpl in *.
  destruct (MultiFind_cand_spec _ _ _ _ _ Hc) as [_ Hgood].
  destruct (Hgood i Hi) as (Hfi & fi & Hfi1 & Hfi2).
  destruct (Hgood j Hj) as (Hfj & fj & Hfj1 & Hfj2).
  apply FINDflare_binary_flagged in Hfi as [Hfi _].
  apply FINDflare_binary_flagged in Hfj as [Hfj _].
  split.
  - exists i, fi. done.
  - destruct (Z.eqb_spec (qs - qe) 0).
    + right. lia.
    + left. exists j, fj. done.
Qed.

Lemma MultiFind_quality_cut_witness :
  MultiFind (fz 1) (tline 40) (spikes 40 [10; 11; 12]%nat) (errs 40)
    (masked 40 [11]%nat) (Fin (1 # 10)) 3 = Ok ([10], [12]) ∧
  ∃ (i : nat) (f : Z),
    10 = Z.of_nat i ∧ masked 40 [11]%nat !! i = Some f ∧ good_quality f ∧
    flagged (fz 1) (spikes 40 [10; 11; 12]%nat) (errs 40) (fz 3) (fz 1) i.
Proof.
  assert (HM : MultiFind (fz 1) (tline 40) (spikes 40 [10; 11; 12]%nat)
                 (errs 40) (masked 40 [11]%nat) (Fin (1 # 10)) 3 =
               Ok ([10], [12])) by (vm_compute; reflexivity).
  split; [exact HM |].
  refine (proj1 (MultiFind_quality_cut _ _ _ _ _ _ _ _ (10, 12) HM _)).
  by left.
Defined.

(** ** Claims about FlareStats *)

Lemma py_index_nat {A : Type} (a : list A) (i : nat) (x : A) :
  a !! i = Some x → py_index a (Z.of_nat i) = Ok x.
Proof.
  intros H. unfold py_index.
  pose proof (lookup_lt_Some _ _ _ H) as Hlt.
  destruct (Z.ltb_spec (Z.of_nat i) 0); [lia |].
  destruct (Z.leb_spec 0 (Z.of_nat i)); [| lia].
  destruct (Z.ltb_spec (Z.of_nat i) (Z.of_nat (length a))); [| lia].
  simpl. by rewrite Nat2Z.id, H.
Qed.

Lemma py_take_nat {A : Type} (a : list A) (idx : list nat) :
  Forall (fun i => (i < length a)%nat) idx →
  ∃ xs : list A, py_take a (map Z.of_nat idx) = Ok xs.
Proof.
  induction 1 as [|i idx Hi _ IH]; simpl.
  - by exists [].
  - destruct (lookup_lt_is_Some_2 a i Hi) as [x Hx].
    destruct IH as [xs Hxs].
    rewrite (py_index_nat a i x Hx), Hxs. simpl. by exists (x :: xs).
Qed.

(** Arrays of one length accept the same indices. *)
Lemma py_index_same_length {A B : Type} (a : list A) (b : list B) (i : Z) (x : A) :
  length b = length a → py_index a i = Ok x → ∃ y : B, py_index b i = Ok y.
Proof.
  unfold py_index. intros Hlen. rewrite Hlen.
  destruct (_ && _) eqn:E; [| discriminate].
  destruct (a !! _) as [x'|] eqn:Ea; [| discriminate]. intros _.
  apply lookup_lt_Some in Ea.
  destruct (lookup_lt_is_Some_2 b (Z.to_nat (if i <? 0 then i + Z.of_nat (length a) else i)))
    as [y Hy]; [lia |].
  rewrite Hy. by exists y.
Qed.

Lemma window_lt (time : list fl) (t0 t1 : fl) (i : nat) :
  i ∈ window time t0 t1 → (i < length time)%nat.
Proof.
  unfold window. rewrite np_where_elem, list_lookup_fmap.
  destruct (time !! i) eqn:E; [| discriminate].
  intros _. by eapply lookup_lt_Some.
Qed.

Lemma FlareStats_locate_ok (time flux : list fl) (istart0 istop0 istart istop : Z)
  (tstart tstop : fl) :
  FlareStats_locate time flux istart0 istop0 = Ok (istart, istop, tstart, tstop) →
  py_index time istart = Ok tstart ∧ py_index time istop = Ok tstop.
Proof.
  unfold FlareStats_locate.
  destruct (flare_indices _ istart0 istop0) as [i j].
  destruct (py_index time i) as [t1|] eqn:E1; simpl; [| discriminate].
  destruct (py_index time j) as [t2|] eqn:E2; simpl; [| discriminate].
  intros [= <- <- <- <-]. done.
Qed.






(** C6 (the code departs from the claim).  Five samples.  A candidate of
    zero width at the last sample, [istart = istop = 4], is widened to
    [3, 5], and [time[5]] raises [IndexError].  A candidate of zero width
    at the first sample, [istart = istop = 0], is widened to [-1, 1]; the
    slice [flux[-1:2]] is empty and, unless [np.polyfit] has raised
    before, [np.max] of it raises [ValueError]. *)
Theorem FlareStats_raises_at_array_ends polyfit curve_fit ks_2samp :
  FlareStats polyfit curve_fit ks_2samp (tline 5) (spikes 5 [4]%nat)
    (replicate 5 (fz 1)) (replicate 5 (fz 1)) 4 4 2 = Raise IndexError ∧
  flare_indices 5 4 4 = (3, 5) ∧
  is_ok (FlareStats polyfit curve_fit ks_2samp (tline 5) (spikes 5 [0]%nat)
           (replicate 5 (fz 1)) (replicate 5 (fz 1)) 0 0 2) = false ∧
  flare_indices 5 0 0 = (-1, 1) ∧
  py_slice (spikes 5 [0]%nat) (-1) 2 = [].
Proof.
  split; [reflexivity |]. split; [reflexivity |]. split; [| split; reflexivity].
  unfold FlareStats, FlareStats_measure.
  change (FlareStats_locate (tline 5) (spikes 5 [0]%nat) 0 0)
    with (Ok (-1, 1, fz 4, fz 1) : result (Z * Z * fl * fl)).
  cbn [mbind result_bind].
  change (FlareStats_continuum (tline 5) (spikes 5 [0]%nat) (-1) 1 (fz 4) (fz 1) 2)
    with (Ok ([], [], [-1; 1], 1, [fz 1; fz (-1)], [fz 4; fz 1])
          : result (list nat * list nat * list Z * Z * list fl * list fl)).
  cbn [mbind result_bind].
  destruct (polyfit _ _ _) as [contfit|e]; reflexivity.
Qed.

(** ** Claims about the completeness thresholds *)

Lemma fl_ltb_leb (a b : fl) : fl_ltb a b = true → fl_leb a b = true.
Proof.
  destruct a as [x| | |], b as [y| | |]; simpl; try done.
  destruct (Qcompare x y); done.
Qed.

Lemma fl_ltb_false_leb (a b : fl) :
  fl_isfinite a = true → fl_isfinite b = true →
  fl_ltb a b = false → fl_leb b a = true.
Proof.
  destruct a as [x| | |], b as [y| | |]; simpl; try done. intros _ _.
  rewrite <- (Qcompare_antisym x y).
  destruct (Qcompare x y); simpl; done.
Qed.

Lemma fl_leb_refl (a : fl) : fl_isfinite a = true → fl_leb a a = true.
Proof.
  destruct a as [x| | |]; simpl; try done. intros _.
  by rewrite (proj1 (Qeq_alt x x) (Qeq_refl x)).
Qed.

Lemma fl_leb_trans (a b c : fl) :
  fl_leb a b = true → fl_leb b c = true → fl_leb a c = true.
Proof.
  destruct a as [x| | |], b as [y| | |], c as [z| | |]; simpl; try done.
  intros H1 H2.
  assert (Hxy : (x <= y)%Q) by (apply Qle_alt; by destruct (Qcompare x y)).
  assert (Hyz : (y <= z)%Q) by (apply Qle_alt; by destruct (Qcompare y z)).
  pose proof (proj1 (Qle_alt x z) (Qle_trans _ _ _ Hxy Hyz)) as Hxz.
  by destruct (Qcompare x z).
Qed.

Lemma fl_ltb_not_leb (a b : fl) :
  fl_ltb a b = true → fl_leb b a = true → False.
Proof.
  destruct a as [x| | |], b as [y| | |]; simpl; try done.
  rewrite <- (Qcompare_antisym x y).
  destruct (Qcompare x y); simpl; done.
Qed.

Lemma fl_eqb_Fin (x y : Q) : fl_eqb (Fin x) (Fin y) = true ↔ (x == y)%Q.
Proof.
  unfold fl_eqb, fl_leb. rewrite <- (Qcompare_antisym x y).
  destruct (Qcompare_spec x y) as [H | H | H]; simpl; split; try done.
  - intros Hxy. rewrite Hxy in H. by apply Qlt_irrefl in H.
  - intros Hxy. rewrite Hxy in H. by apply Qlt_irrefl in H.
Qed.

Lemma py_min_fold (l : list fl) (m : fl) :
  fl_isfinite m = true → Forall (fun c => fl_isfinite c = true) l →
  let v := foldl (fun m y => if fl_ltb y m then y else m) m l in
  fl_isfinite v = true ∧ (v = m ∨ v ∈ l) ∧ fl_leb v m = true ∧
  Forall (fun c => fl_leb v c = true) l.
Proof.
  revert m. induction l as [|y l IH]; intros m Hm HF; simpl.
  - repeat split; [done | by left | by apply fl_leb_refl | constructor].
  - inversion HF as [|? ? Hy HF']; subst.
    destruct (fl_ltb y m) eqn:E.
    + destruct (IH y Hy HF') as (H1 & H2 & H3 & H4).
      repeat split; [done | | |].
      * right. destruct H2 as [-> | H2]; [by left | by right].
      * eapply fl_leb_trans; [exact H3 | by apply fl_ltb_leb].
      * constructor; done.
    + destruct (IH m Hm HF') as (H1 & H2 & H3 & H4).
      repeat split; [done | | done |].
      * destruct H2 as [-> | H2]; [by left | right; by right].
      * constructor; [| done].
        eapply fl_leb_trans; [exact H3 | by apply fl_ltb_false_leb].
Qed.

Lemma py_min_spec (l : list fl) :
  l ≠ [] → Forall (fun c => fl_isfinite c = true) l →
  ∃ v : fl, py_min l = Ok v ∧ v ∈ l ∧ Forall (fun c => fl_leb v c = true) l.
Proof.
  destruct l as [|x l]; [done |]. intros _ HF.
  inversion HF as [|? ? Hx HF']; subst.
  destruct (py_min_fold l x Hx HF') as (H1 & H2 & H3 & H4).
  eexists. split; [reflexivity |]. split.
  - destruct H2 as [-> | H2]; [by left | by right].
  - constructor; done.
Qed.

Lemma np_take_total {A : Type} (d : A) (a : list A) (idx : list nat) :
  Forall (fun i => (i < length a)%nat) idx →
  np_take a idx = Ok (map (fun i => default d (a !! i)) idx).
Proof.
  induction 1 as [|i idx Hi _ IH]; simpl; [done |].
  destruct (lookup_lt_is_Some_2 a i Hi) as [x Hx].
  rewrite Hx, IH. done.
Qed.

Lemma mask_filter_length (a frac : list fl) :
  length a = length frac →
  length (map fst (List.filter snd (zip a (map fl_isfinite frac)))) =
  length (List.filter fl_isfinite frac).
Proof.
  revert frac. induction a as [|x a IH]; intros [|y frac] H; simpl in *;
    try done.
  injection H as H. destruct (fl_isfinite y); simpl; by rewrite IH.
Qed.

Lemma mask_filter_elem {A : Type} (a : list A) (mask : list bool) (x : A) :
  x ∈ map fst (List.filter snd (zip a mask)) → x ∈ a.
Proof.
  revert mask. induction a as [|y a IH]; intros [|b mask]; simpl;
    try (intros H; by inversion H).
  destruct b; simpl.
  - rewrite !elem_of_cons. intros [-> | H]; [by left | right; by eapply IH].
  - intros H. right. by eapply IH.
Qed.

Lemma reached_where (sm : list fl) (thr : fl) (i : nat) :
  i ∈ np_where (map (fun v => fl_geb v thr) sm) ↔ reached sm thr i.
Proof.
  rewrite np_where_elem, list_lookup_fmap. unfold reached.
  destruct (sm !! i) as [s|]; simpl.
  - split.
    + intros [= H]. by exists s.
    + intros (s' & [= <-] & H). by rewrite H.
  - split; [discriminate | intros (s' & H & _); discriminate].
Qed.

(** C3.  For bin centres and recovered fractions of one length, finite
    centres and a smoothing filter that keeps the length of its input, the
    threshold is computed without an error.  It is -99 when no smoothed
    fraction reaches [thr]; otherwise it is the centre of a bin that
    reaches [thr], the smallest such centre, and with increasing centres
    that bin is the first that reaches [thr].  [ed68] and [ed90] are this
    value for [thr = 0.68] and [thr = 0.90]. *)
Theorem ed_threshold_spec (wiener : list fl → nat → list fl) (thr : fl)
  (ed_fake frac_rec : list fl) :
  length ed_fake = length frac_rec →
  Forall (fun c => fl_isfinite c = true) ed_fake →
  length (wiener (List.filter fl_isfinite frac_rec) 3%nat) =
    length (List.filter fl_isfinite frac_rec) →
  ∃ (centers : list fl) (v : fl),
    mask_take ed_fake (map fl_isfinite frac_rec) = Ok centers ∧
    ed_threshold wiener thr ed_fake frac_rec = Ok v ∧
    segment_ed wiener true ed_fake frac_rec =
      (ed68_i ← ed_threshold wiener (Fin (68 # 100)) ed_fake frac_rec;
       ed90_i ← ed_threshold wiener (Fin (90 # 100)) ed_fake frac_rec;
       Ok (ed68_i, ed90_i)) ∧
    let sm := wiener (List.filter fl_isfinite frac_rec) 3%nat in
    ((∀ i : nat, ¬ reached sm thr i) → v = fz (-99)) ∧
    ((∃ i : nat, reached sm thr i) →
       ∃ i : nat,
         reached sm thr i ∧ centers !! i = Some v ∧
         (∀ (j : nat) (c : fl),
            reached sm thr j → centers !! j = Some c → fl_leb v c = true) ∧
         (StronglySorted (fun a b => fl_ltb a b = true) centers →
          ∀ j : nat, reached sm thr j → (i ≤ j)%nat)).
Proof.
  intros Hlen Hfin Hw.
  assert (Hseg : segment_ed wiener true ed_fake frac_rec =
      (ed68_i ← ed_threshold wiener (Fin (68 # 100)) ed_fake frac_rec;
       ed90_i ← ed_threshold wiener (Fin (90 # 100)) ed_fake frac_rec;
       Ok (ed68_i, ed90_i))) by reflexivity.
  revert Hseg. generalize (segment_ed wiener true ed_fake frac_rec).
  generalize (ed68_i ← ed_threshold wiener (Fin (68 # 100)) ed_fake frac_rec;
       ed90_i ← ed_threshold wiener (Fin (90 # 100)) ed_fake frac_rec;
       Ok (ed68_i, ed90_i)).
  intros rhs lhs Hseg.
  set (sm := wiener (List.filter fl_isfinite frac_rec) 3%nat) in *.
  set (centers := map fst (List.filter snd (zip ed_fake (map fl_isfinite frac_rec)))).
  assert (Hmask : mask_take ed_fake (map fl_isfinite frac_rec) = Ok centers).
  { unfold mask_take. rewrite length_map, Hlen, Nat.eqb_refl. done. }
  assert (Hclen : length centers = length sm).
  { unfold centers. rewrite mask_filter_length by done. by rewrite Hw. }
  assert (Hcfin : Forall (fun c => fl_isfinite c = true) centers).
  { apply Forall_forall. intros c Hc. apply mask_filter_elem in Hc.
    by eapply Forall_forall in Hfin. }
  unfold ed_threshold. fold sm. rewrite Hmask.
  set (x := np_where (map (fun v => fl_geb v thr) sm)).
  assert (Hx : ∀ i, i ∈ x ↔ reached sm thr i) by (intros i; apply reached_where).
  assert (Hxlt : Forall (fun i => (i < length centers)%nat) x).
  { apply Forall_forall. intros i Hi. apply Hx in Hi as (s & Hs & _).
    rewrite Hclen. by eapply lookup_lt_Some. }
  destruct x as [|i0 x'] eqn:Ex.
  - exists centers, (fz (-99)). simpl.
    split; [done |]. split; [done |]. split; [done |]. split; [done |].
    intros [i Hi]. apply Hx in Hi. inversion Hi.
  - change (0 <? length (i0 :: x'))%nat with true. cbv iota.
    cbn [mbind result_bind].
    rewrite (np_take_total NaN centers (i0 :: x') Hxlt).
    cbn [mbind result_bind].
    set (sel := map (fun i => default NaN (centers !! i)) (i0 :: x')).
    assert (Hsel : ∀ c, c ∈ sel ↔ ∃ i, i ∈ i0 :: x' ∧ centers !! i = Some c).
    { intros c. unfold sel. rewrite list_elem_of_fmap. split.
      - intros (i & -> & Hi). exists i. split; [done |].
        eapply Forall_forall in Hxlt; [| exact Hi].
        destruct (lookup_lt_is_Some_2 centers i Hxlt) as [c Hc].
        by rewrite Hc.
      - intros (i & Hi & Hc). exists i. split; [by rewrite Hc | done]. }
    destruct (py_min_spec sel) as (v & Hv & Hin & Hle).
    { done. }
    { apply Forall_forall. intros c Hc. apply Hsel in Hc as (i & _ & Hc).
      eapply Forall_forall in Hcfin; [exact Hcfin |].
      by eapply list_elem_of_lookup_2. }
    exists centers, v.
    split; [done |]. split; [done |]. split; [done |]. simpl. split.
    + intros Hno. exfalso. apply (Hno i0). apply Hx. by left.
    + intros _. apply Hsel in Hin as (i & Hi & Hc).
      exists i. split; [by apply Hx |]. split; [done |]. split.
      * intros j c Hj Hcj. eapply Forall_forall in Hle; [exact Hle |].
        apply Hsel. exists j. split; [by apply Hx | done].
      * intros Hsorted j Hj.
        destruct (le_lt_dec i j) as [Hok | Hlt]; [done | exfalso].
        assert (Hjlt : (j < length centers)%nat)
          by (apply lookup_lt_Some in Hc; lia).
        destruct (lookup_lt_is_Some_2 centers j Hjlt) as [c Hcj].
        pose proof (sorted_lookup _ centers j i c v Hsorted Hcj Hc Hlt) as Hcv.
        simpl in Hcv. eapply fl_ltb_not_leb; [exact Hcv |].
        eapply Forall_forall in Hle; [exact Hle |].
        apply Hsel. exists j. split; [by apply Hx | done].
Qed.

Lemma ed_threshold_spec_witness :
  length curve_centers = length curve_fractions ∧
  ed_threshold wiener_model (Fin (68 # 100)) curve_centers curve_fractions =
    Ok (fz 40) ∧
  ed_threshold wiener_model (Fin (90 # 100)) curve_centers curve_fractions =
    Ok (fz (-99)) ∧
  ∃ (centers : list fl) (v : fl),
    mask_take curve_centers (map fl_isfinite curve_fractions) = Ok centers ∧
    ed_threshold wiener_model (Fin (68 # 100)) curve_centers curve_fractions = Ok v.
Proof.
  split; [reflexivity |]. split; [vm_compute; reflexivity |].
  split; [vm_compute; reflexivity |].
  destruct (ed_threshold_spec wiener_model (Fin (68 # 100)) curve_centers
              curve_fractions) as (centers & v & H1 & H2 & _).
  - reflexivity.
  - repeat constructor.
  - vm_compute. reflexivity.
  - exists centers, v. exact (conj H1 H2).
Defined.


(** * Further properties of the code *)

(** ** FINDflare *)

(** X2.  Every range that [FINDflare] returns has at least [N3] samples
    and at least one, all of its samples pass the three cuts, and it cannot
    be extended inside the scanned samples: the sample before it does not
    pass unless it is sample 0, the sample after it does not pass unless it
    is the last sample. *)
Theorem FINDflare_ranges_sound (sig_i : fl) (flux error : list fl)
  (N1 N2 : fl) (N3 : Z) (s e : Z) :
  (s, e) ∈ pairs (FINDflare sig_i flux error N1 N2 N3) →
  N3 ≤ e - s + 1 ∧ 1 ≤ e - s + 1 ∧
  (∀ i : nat, s ≤ Z.of_nat i ≤ e → flagged sig_i flux error N1 N2 i) ∧
  (2 ≤ s → ¬ flagged sig_i flux error N1 N2 (Z.to_nat (s - 1))) ∧
  (e + 2 < Z.of_nat (length flux) →
   ¬ flagged sig_i flux error N1 N2 (Z.to_nat (e + 1))).
Proof.
  intros Hp. unfold flagged, FINDflare in *.
  set (c := cindx sig_i flux error N1 N2) in *.
  assert (Hc : binary c) by apply cindx_binary.
  assert (Hn : length c = length flux) by apply cindx_length.
  pose proof (detect_runs_bounds c N3 s e Hc Hp) as Hb.
  pose proof (fun i => detect_runs_flagged c N3 s e i Hc Hp) as Hfl.
  rewrite pairs_detect_runs in Hp.
  apply list_elem_of_fmap in Hp as (j & Hj & Hs).
  unfold run_of in Hj. injection Hj as -> ->.
  pose proof (istart_pred_zero c N3 j Hc Hs) as Hz.
  apply istart_of_elem in Hs as (H1 & H2 & H3 & H4).
  destruct (ConM_of_bounds c j Hc) as [Hpos Hbd].
  split; [lia |]. split; [lia |]. split; [exact Hfl |]. split.
  - intros Hs2. replace (Z.to_nat (Z.of_nat j - 1)) with (j - 1)%nat by lia.
    rewrite (ConM_of_inner c (j - 1)) in Hz by lia.
    replace (j - 1 + 1)%nat with j in Hz by lia.
    destruct (binary_getZ c (j - 1) Hc) as [E | E]; rewrite E in *; lia.
  - intros He.
    set (L := getZ (ConM_of c) j) in *.
    replace (Z.to_nat (Z.of_nat j + (L - 1) + 1)) with (j + Z.to_nat L)%nat by lia.
    destruct (ConM_of_descent c j (Z.to_nat L - 1) Hc) as [E1 _]; [lia |].
    fold L in E1.
    assert (Hin : (1 ≤ j + (Z.to_nat L - 1))%nat ∧
                  (j + (Z.to_nat L - 1) + 2 ≤ length c)%nat) by lia.
    rewrite (ConM_of_inner c _ (proj1 Hin) (proj2 Hin)) in E1.
    replace (j + (Z.to_nat L - 1) + 1)%nat with (j + Z.to_nat L)%nat in E1 by lia.
    destruct (ConM_of_bounds c (j + Z.to_nat L) Hc) as [Hpos' _].
    assert (E0 : getZ (ConM_of c) (j + Z.to_nat L) = 0).
    { destruct (binary_getZ c (j + (Z.to_nat L - 1)) Hc) as [E | E];
        rewrite E in E1; lia. }
    rewrite (ConM_of_inner c (j + Z.to_nat L)) in E0 by lia.
    destruct (ConM_of_bounds c (j + Z.to_nat L + 1) Hc) as [Hpos'' _].
    destruct (binary_getZ c (j + Z.to_nat L) Hc) as [E | E]; rewrite E in *; lia.
Qed.

Lemma FINDflare_ranges_sound_witness :
  3 ≤ 71 - 69 + 1 ∧
  flagged (Fin (240 # 73)) quiet_then_scenario (no_error 73) (fz 3) (fz 1) 70.
Proof.
  destruct (FINDflare_ranges_sound (Fin (240 # 73)) quiet_then_scenario
              (no_error 73) (fz 3) (fz 1) 3 69 71) as (H1 & _ & H3 & _).
  - apply list_elem_of_In. vm_compute. right. left. reflexivity.
  - split; [exact H1 |]. apply H3. lia.
Defined.

(** X3.  Asking for longer runs never adds a range: a range returned for
    [N3'] is returned for every [N3 <= N3']. *)
Theorem FINDflare_N3_monotone (sig_i : fl) (flux error : list fl)
  (N1 N2 : fl) (N3 N3' : Z) (p : Z * Z) :
  N3 ≤ N3' →
  p ∈ pairs (FINDflare sig_i flux error N1 N2 N3') →
  p ∈ pairs (FINDflare sig_i flux error N1 N2 N3).
Proof.
  intros Hle. unfold FINDflare. rewrite !pairs_detect_runs.
  rewrite !list_elem_of_fmap. intros (j & -> & Hj).
  exists j. split; [done |].
  apply istart_of_elem in Hj as (H1 & H2 & H3 & H4).
  apply istart_of_elem. repeat split; try done. lia.
Qed.

Lemma FINDflare_N3_monotone_witness :
  2 ≤ 3 ∧
  (69, 71) ∈ pairs (FINDflare (Fin (240 # 73)) quiet_then_scenario
                      (no_error 73) (fz 3) (fz 1) 2).
Proof.
  split; [lia |].
  apply (FINDflare_N3_monotone _ _ _ _ _ 2 3); [lia |].
  apply list_elem_of_In. vm_compute. right. left. reflexivity.
Defined.

Lemma set_slice_length (lo hi : Z) (a : list Z) :
  length (set_slice lo hi a) = length a.
Proof. unfold set_slice. apply length_imap. Qed.

Lemma paint_length (P : list (Z * Z)) (a : list Z) :
  length (foldl (fun bin_out '(s, e) => set_slice s (e + 1) bin_out) a P) =
  length a.
Proof.
  revert a. induction P as [|[s e] P IH]; intros a; simpl; [done |].
  by rewrite IH, set_slice_length.
Qed.

Lemma paint_binary (P : list (Z * Z)) (a : list Z) :
  binary a →
  binary (foldl (fun bin_out '(s, e) => set_slice s (e + 1) bin_out) a P).
Proof.
  revert a. induction P as [|[s e] P IH]; intros a Ha; simpl; [done |].
  apply IH. unfold set_slice. apply Forall_lookup_2. intros i x Hx.
  rewrite list_lookup_imap in Hx.
  destruct (a !! i) as [y|] eqn:Ey; simpl in Hx; [| discriminate].
  injection Hx as <-. destruct (_ && _); [by right |].
  by eapply Forall_lookup_1 in Ha.
Qed.

Lemma paint_covered (P : list (Z * Z)) (a : list Z) (i : nat) (p : Z * Z) :
  binary a → (i < length a)%nat → p ∈ P → p.1 ≤ Z.of_nat i ≤ p.2 →
  getZ (foldl (fun bin_out '(s, e) => set_slice s (e + 1) bin_out) a P) i = 1.
Proof.
  revert a. induction P as [|[s e] P IH]; intros a Ha Hi Hp Hc.
  - inversion Hp.
  - simpl.
    assert (Hkeep : ∀ (Q : list (Z * Z)) (b : list Z),
              getZ b i = 1 →
              getZ (foldl (fun bin_out '(s, e) => set_slice s (e + 1) bin_out) b Q) i = 1).
    { induction Q as [|[s' e'] Q IHQ]; intros b Hb; simpl; [done |].
      apply IHQ. rewrite getZ_set_slice. by destruct (_ && _). }
    apply elem_of_cons in Hp as [-> | Hp].
    + apply Hkeep. rewrite getZ_set_slice. simpl in Hc.
      destruct (Z.leb_spec s (Z.of_nat i)); [| lia].
      destruct (Z.ltb_spec (Z.of_nat i) (e + 1)); [| lia].
      destruct (Nat.ltb_spec i (length a)); [done | lia].
    + apply IH; try done.
      * unfold set_slice. apply Forall_lookup_2. intros k x Hx.
        rewrite list_lookup_imap in Hx.
        destruct (a !! k) as [y|] eqn:Ey; simpl in Hx; [| discriminate].
        injection Hx as <-. destruct (_ && _); [by right |].
        by eapply Forall_lookup_1 in Ha.
      * by rewrite set_slice_length.
Qed.

(** X4.  The binary output of [FINDflare] has one entry per sample, each 0
    or 1, and the entry of a sample is 1 exactly when the sample lies in
    one of the ranges that [FINDflare] returns. *)
Theorem FINDflare_binary_spec (sig_i : fl) (flux error : list fl)
  (N1 N2 : fl) (N3 : Z) :
  length (FINDflare_binary sig_i flux error N1 N2 N3) = length flux ∧
  binary (FINDflare_binary sig_i flux error N1 N2 N3) ∧
  ∀ i : nat,
    getZ (FINDflare_binary sig_i flux error N1 N2 N3) i = 1 ↔
    ∃ p : Z * Z, p ∈ pairs (FINDflare sig_i flux error N1 N2 N3) ∧
                 p.1 ≤ Z.of_nat i ≤ p.2.
Proof.
  split; [| split].
  - unfold FINDflare_binary. destruct (FINDflare _ _ _ _ _ _) as [s e].
    rewrite paint_length. unfold zeros_like. by rewrite length_replicate.
  - unfold FINDflare_binary. destruct (FINDflare _ _ _ _ _ _) as [s e].
    apply paint_binary, zeros_binary.
  - intros i. split.
    + intros H. apply FINDflare_binary_flagged. lia.
    + intros ([s e] & Hp & Hi).
      assert (Hb : 1 ≤ s ∧ s ≤ e ∧ e ≤ Z.of_nat (length flux) - 2).
      { unfold FINDflare in Hp.
        apply detect_runs_bounds in Hp; [| apply cindx_binary].
        by rewrite cindx_length in Hp. }
      unfold FINDflare_binary.
      destruct (FINDflare sig_i flux error N1 N2 N3) as [ss ee] eqn:E.
      apply (paint_covered _ _ i (s, e)); try done.
      * apply zeros_binary.
      * unfold zeros_like. rewrite length_replicate. simpl in Hi. lia.
Qed.

(** ** FlagCuts *)


Lemma FlagCuts_bad_length (flags : list Z) (ks : list Z) :
  length (FlagCuts_bad flags ks) = length flags.
Proof.
  unfold FlagCuts_bad.
  assert (H : ∀ acc : list Z, length acc = length flags →
            length (foldl (fun bad k => zip_with Z.add bad
                             (map (fun f => Z.land f k) flags)) acc ks) =
            length flags).
  { induction ks as [|k ks IH]; intros acc Hacc; simpl; [done |].
    apply IH. rewrite length_zip_with, length_map. lia. }
  apply H. unfold zeros_like. apply length_replicate.
Qed.




(** ** DetectCandidate *)

Lemma np_take_only_IndexError {A : Type} (a : list A) (idx : list nat) :
  only_IndexError (np_take a idx).
Proof.
  induction idx as [|i idx IH]; simpl; [done |].
  destruct (a !! i); [| done].
  destruct (np_take a idx); simpl; done.
Qed.

Lemma py_index_only_IndexError {A : Type} (a : list A) (i : Z) :
  only_IndexError (py_index a i).
Proof.
  unfold py_index. destruct (_ && _); [| done]. by destruct (a !! _).
Qed.

Lemma np_delete_only_IndexError {A : Type} (a : list A) (idx : list nat) :
  only_IndexError (np_delete a idx).
Proof. unfold np_delete. by destruct (forallb _ idx). Qed.

Lemma DetectCandidate_gap_spec (time : list fl) (dl dr : list Z)
  (gapwindow : fl) (c0 : list nat) (i : nat) :
  match DetectCandidate_gap time dl dr gapwindow (Ok c0) i with
  | Ok c => c `sublist_of` c0
  | Raise e => e = IndexError
  end.
Proof.
  unfold DetectCandidate_gap. cbn [mbind result_bind].
  pose proof (np_take_only_IndexError time c0) as H1.
  destruct (np_take time c0) as [tc|]; [| exact H1]. cbn [mbind result_bind].
  pose proof (py_index_only_IndexError dr (Z.of_nat i)) as H2.
  destruct (py_index dr (Z.of_nat i)) as [dri|]; [| exact H2].
  cbn [mbind result_bind].
  pose proof (py_index_only_IndexError time (dri - 1)) as H3.
  destruct (py_index time (dri - 1)) as [tr|]; [| exact H3].
  cbn [mbind result_bind].
  pose proof (py_index_only_IndexError dl (Z.of_nat i)) as H4.
  destruct (py_index dl (Z.of_nat i)) as [dli|]; [| exact H4].
  cbn [mbind result_bind].
  pose proof (py_index_only_IndexError time dli) as H5.
  destruct (py_index time dli) as [tl|]; [| exact H5].
  cbn [mbind result_bind].
  pose proof (np_delete_only_IndexError c0 (near tc tr gapwindow)) as H6.
  destruct (np_delete c0 (near tc tr gapwindow)) as [c1|] eqn:E1; [| exact H6].
  cbn [mbind result_bind].
  pose proof (np_delete_only_IndexError c1 (near tc tl gapwindow)) as H7.
  destruct (np_delete c1 (near tc tl gapwindow)) as [c2|] eqn:E2; [| exact H7].
  apply np_delete_sublist in E1. apply np_delete_sublist in E2. by etrans.
Qed.

Lemma DetectCandidate_gaps_spec (time : list fl) (dl dr : list Z)
  (gapwindow : fl) (idx : list nat) (c0 : list nat) :
  match foldl (DetectCandidate_gap time dl dr gapwindow) (Ok c0) idx with
  | Ok c => c `sublist_of` c0
  | Raise e => e = IndexError
  end.
Proof.
  revert c0. induction idx as [|i idx IH]; intros c0; cbn [foldl].
  - done.
  - pose proof (DetectCandidate_gap_spec time dl dr gapwindow c0 i) as H.
    destruct (DetectCandidate_gap time dl dr gapwindow (Ok c0) i) as [c1|e].
    + specialize (IH c1).
      destruct (foldl _ (Ok c1) idx) as [c|e]; [by etrans | done].
    + subst e. clear IH. induction idx as [|j idx IH]; [done | exact IH].
Qed.

Lemma DetectCandidate_cand_spec (flux error : list fl) (flags : list Z)
  (model : list fl) (error_cut : fl) (i : nat) :
  i ∈ DetectCandidate_cand flux error flags model error_cut ↔
  ∃ (c : fl) (f : Z),
    chi_of flux error model !! i = Some c ∧ fl_geb c error_cut = true ∧
    flags !! i = Some f ∧ good_quality f.
Proof.
  unfold DetectCandidate_cand.
  rewrite np_where_elem, lookup_zip_with, !list_lookup_fmap.
  destruct (chi_of flux error model !! i) as [c|] eqn:Ec; simpl.
  - destruct (flags !! i) as [f|] eqn:Ef.
    + pose proof (FlagCuts_bad_lookup flags i f Ef) as Hb. unfold getZ in Hb.
      destruct (FlagCuts_bad flags bad_flags_default !! i) as [b|] eqn:Eb.
      * simpl in Hb. simpl. split.
        -- intros [= H]. apply andb_true_iff in H as [H1 H2].
           exists c, f. split; [done |]. split; [done |]. split; [done |].
           apply (FlagCuts_bad_good flags i f Ef). unfold getZ. rewrite Eb.
           simpl. by apply Z.ltb_lt.
        -- intros (c' & f' & [= <-] & Hc & [= <-] & Hg). f_equal.
           apply andb_true_iff. split; [done |]. apply Z.ltb_lt.
           apply (FlagCuts_bad_good flags i f Ef) in Hg. unfold getZ in Hg.
           by rewrite Eb in Hg.
      * exfalso. apply lookup_ge_None in Eb. apply lookup_lt_Some in Ef.
        rewrite FlagCuts_bad_length in Eb. lia.
    + split.
      * destruct (FlagCuts_bad flags bad_flags_default !! i) as [b|] eqn:Eb;
          [| discriminate].
        exfalso. apply lookup_lt_Some in Eb. apply lookup_ge_None in Ef.
        rewrite FlagCuts_bad_length in Eb. lia.
      * intros (c' & f' & _ & _ & H & _). discriminate.
  - split; [discriminate | intros (c' & f' & H & _); discriminate].
Qed.



(** X7.  The events that [DetectCandidate] returns have [start <= stop],
    are ordered, and any two are more than [minsep] samples apart; every
    start and every stop is a sample with [chi >= error_cut] whose quality
    mask has none of the bits 16, 128 and 2048 set. *)
Theorem DetectCandidate_events (dl dr : list Z)
  (time flux error : list fl) (flags : list Z) (model : list fl)
  (error_cut gapwindow : fl) (minsep : Z) (r : list Z * list Z) :
  DetectCandidate dl dr time flux error flags model error_cut gapwindow minsep =
    Ok r →
  StronglySorted (fun p q : Z * Z => p.2 + minsep < q.1) (pairs r) ∧
  Forall (fun p : Z * Z =>
            p.1 ≤ p.2 ∧
            ∃ i j : nat,
              p.1 = Z.of_nat i ∧ p.2 = Z.of_nat j ∧
              (∀ k : nat, k = i ∨ k = j →
                 ∃ (c : fl) (f : Z),
                   chi_of flux error model !! k = Some c ∧
                   fl_geb c error_cut = true ∧
                   flags !! k = Some f ∧ good_quality f))
         (pairs r).
Proof.
  unfold DetectCandidate.
  set (c0 := DetectCandidate_cand flux error flags model error_cut).
  pose proof (DetectCandidate_gaps_spec time dl dr gapwindow
                (seq 0 (length dl)) c0) as Hsub.
  destruct (foldl _ (Ok c0) (seq 0 (length dl))) as [c|e]; [| discriminate].
  cbn [mbind result_bind]. intros Hr.
  assert (HS : StronglySorted Nat.lt c).
  { eapply sublist_StronglySorted; [exact Hsub | apply np_where_sorted]. }
  assert (Hg : MultiFind_group c minsep = Ok r).
  { unfold MultiFind_group. destruct c as [|x c']; [discriminate Hr |].
    change (length (x :: c') <? 1)%nat with false. cbv iota. exact Hr. }
  destruct r as [istart istop].
  destruct (MultiFind_group_spec c minsep istart istop HS Hg) as [HF HC].
  split; [exact HC |].
  eapply Forall_impl; [exact HF |]. simpl.
  intros p (Hle & i & j & Hi & Hj & Ei & Ej).
  split; [done |]. exists i, j. repeat split; try done.
  intros k [-> | ->]; apply DetectCandidate_cand_spec;
    by eapply elem_of_sublist.
Qed.

Lemma DetectCandidate_events_witness :
  DetectCandidate [0] [40] (tline 40) (spikes 40 [10; 11; 12; 20]%nat)
    (errs 40) (masked 40 [11]%nat) (replicate 40 (fz 0)) (fz 3)
    (Fin (1 # 10)) 3 = Ok ([10; 20], [12; 20]) ∧
  StronglySorted (fun p q : Z * Z => p.2 + 3 < q.1) (pairs ([10; 20], [12; 20])).
Proof.
  assert (H : DetectCandidate [0] [40] (tline 40)
                (spikes 40 [10; 11; 12; 20]%nat) (errs 40) (masked 40 [11]%nat)
                (replicate 40 (fz 0)) (fz 3) (Fin (1 # 10)) 3 =
              Ok ([10; 20], [12; 20])) by (vm_compute; reflexivity).
  split; [exact H |].
  exact (proj1 (DetectCandidate_events _ _ _ _ _ _ _ _ _ _ _ H)).
Defined.

(** ** MultiFind *)


Lemma np_where_all_false (mask : list bool) :
  Forall (fun b => b = false) mask → np_where mask = [].
Proof.
  intros H. unfold np_where. generalize 0%nat.
  induction H as [|b r -> _ IH]; intros pos; simpl; [done | apply IH].
Qed.



(** ** FlareStats *)

Lemma flare_indices_spec (n istart istop s e : Z) :
  0 ≤ istart ≤ istop → 1 ≤ istop →
  flare_indices n istart istop = (s, e) →
  0 ≤ s ∧ s ≤ istart ∧ istart - 1 ≤ s ∧
  istop ≤ e ∧ e ≤ istop + 1 ∧ 2 ≤ e - s.
Proof.
  intros H1 H2. unfold flare_indices.
  destruct (Z.ltb_spec istart 0); [lia |].
  destruct (Z.ltb_spec istop 0); [lia |].
  destruct (Z.eqb_spec istart istop).
  - destruct (Z.ltb_spec (istop + 1 - (istart - 1)) 2); intros [= <- <-]; lia.
  - destruct (Z.ltb_spec (istop - istart) 2); intros [= <- <-]; lia.
Qed.

Lemma py_index_in_range {A : Type} (a : list A) (i : Z) :
  0 ≤ i < Z.of_nat (length a) → ∃ x : A, py_index a i = Ok x.
Proof.
  intros H.
  destruct (lookup_lt_is_Some_2 a (Z.to_nat i) ltac:(lia)) as [x Hx].
  exists x. rewrite <- (Z2Nat.id i) by lia. by apply py_index_nat.
Qed.

Lemma py_index_Ok_range {A : Type} (a : list A) (i : Z) (x : A) :
  py_index a i = Ok x →
  - Z.of_nat (length a) ≤ i < Z.of_nat (length a).
Proof.
  unfold py_index. destruct (Z.ltb_spec i 0);
    destruct (_ && _) eqn:E; try discriminate; intros _;
    apply andb_true_iff in E as [E1 E2];
    apply Z.leb_le in E1; apply Z.ltb_lt in E2; lia.
Qed.

Lemma py_slice_length {A : Type} (a : list A) (lo hi : Z) :
  0 ≤ lo → lo ≤ hi → hi ≤ Z.of_nat (length a) →
  Z.of_nat (length (py_slice a lo hi)) = hi - lo.
Proof.
  intros H1 H2 H3. unfold py_slice, clip.
  destruct (Z.ltb_spec lo 0); [lia |].
  destruct (Z.ltb_spec hi 0); [lia |].
  rewrite length_take, length_drop. lia.
Qed.

Lemma FlareStats_measure_window polyfit (time flux error model : list fl)
  (istart istop cpoly : Z) (m : measured) :
  FlareStats_measure polyfit time flux error model istart istop cpoly = Ok m →
  FlareStats_locate time flux istart istop =
    Ok (m_istart m, m_istop m, m_tstart m, m_tstop m) ∧
  m_flaretime m = py_slice time (m_istart m) (m_istop m + 1) ∧
  m_flareflux m = py_slice flux (m_istart m) (m_istop m + 1) ∧
  m_modelflux m = py_slice model (m_istart m) (m_istop m + 1) ∧
  m_flareerror m = py_slice error (m_istart m) (m_istop m + 1).
Proof.
  unfold FlareStats_measure.
  destruct (FlareStats_locate time flux istart istop)
    as [[[[s e] ts] te]|]; [| discriminate].
  cbn [mbind result_bind].
  destruct (FlareStats_continuum time flux s e ts te cpoly)
    as [[[[[[c1 c2] ci] cp] cf] ct]|]; [| discriminate].
  cbn [mbind result_bind].
  destruct (polyfit ct cf cp) as [contfit|]; [| discriminate].
  cbn [mbind result_bind].
  destruct (np_max _) as [top|]; [| discriminate]. cbn [mbind result_bind].
  destruct (np_argmax _) as [ipeak|]; [| discriminate].
  cbn [mbind result_bind].
  destruct (py_index _ (Z.of_nat ipeak)) as [tpeak|]; [| discriminate].
  cbn [mbind result_bind].
  match goal with
  | |- (?f ≫= _) = _ → _ => destruct f as [fwhm|]; [| discriminate]
  end.
  cbn [mbind result_bind]. intros [= <-]. done.
Qed.

(** X10.  For a candidate with [0 <= istart <= istop] and [istop >= 1] on
    arrays of one length, whenever [FlareStats] gets as far as the template
    fit its flare window contains the candidate, starts at most one sample
    earlier, ends at most one sample later, lies inside the arrays and has
    at least three samples. *)
Theorem FlareStats_window_three polyfit (time flux error model : list fl)
  (istart istop cpoly : Z) (m : measured) :
  0 ≤ istart ≤ istop → 1 ≤ istop →
  length flux = length time →
  FlareStats_measure polyfit time flux error model istart istop cpoly = Ok m →
  0 ≤ m_istart m ∧ istart - 1 ≤ m_istart m ∧ m_istart m ≤ istart ∧
  istop ≤ m_istop m ∧ m_istop m ≤ istop + 1 ∧
  m_istop m < Z.of_nat (length time) ∧
  Z.of_nat (length (m_flaretime m)) = m_istop m - m_istart m + 1 ∧
  (3 ≤ length (m_flaretime m))%nat ∧
  length (m_flareflux m) = length (m_flaretime m).
Proof.
  intros H1 H2 Hlen Hm.
  apply FlareStats_measure_window in Hm as (Hloc & Ht & Hf & _ & _).
  pose proof (FlareStats_locate_ok _ _ _ _ _ _ _ _ Hloc) as [Hs He].
  unfold FlareStats_locate in Hloc.
  destruct (flare_indices _ istart istop) as [s e] eqn:Efi.
  destruct (py_index time s) as [ts|]; [| discriminate].
  destruct (py_index time e) as [te|]; [| discriminate].
  cbn [mbind result_bind] in Hloc. injection Hloc as Es Ee _ _.
  rewrite <- Es, <- Ee in *.
  apply flare_indices_spec in Efi; [| done | done].
  apply py_index_Ok_range in He.
  assert (Hlt : Z.of_nat (length (py_slice time s (e + 1))) = e + 1 - s)
    by (apply py_slice_length; lia).
  assert (Hlf : Z.of_nat (length (py_slice flux s (e + 1))) = e + 1 - s)
    by (apply py_slice_length; lia).
  rewrite Ht, Hf. repeat split; lia.
Qed.

Lemma FlareStats_window_three_witness :
  is_ok (FlareStats_measure polyfit_zero (tline 10) (spikes 10 [4]%nat)
           (errs 10) (replicate 10 (fz 1)) 4 4 2) = true ∧
  ∀ m : measured,
    FlareStats_measure polyfit_zero (tline 10) (spikes 10 [4]%nat)
      (errs 10) (replicate 10 (fz 1)) 4 4 2 = Ok m →
    (3 ≤ length (m_flaretime m))%nat.
Proof.
  split; [vm_compute; reflexivity |].
  intros m Hm.
  apply (FlareStats_window_three polyfit_zero (tline 10) (spikes 10 [4]%nat)
           (errs 10) (replicate 10 (fz 1)) 4 4 2 m); try lia; done.
Defined.

Lemma fl_same_refl (x : fl) : fl_eqb x x || (fl_isnan x && fl_isnan x) = true.
Proof.
  destruct x as [q| | |]; try done.
  apply orb_true_iff. left. apply fl_eqb_Fin. reflexivity.
Qed.

Lemma foldl_max2_elem (x : fl) (r : list fl) : foldl fl_max2 x r ∈ x :: r.
Proof.
  revert x. induction r as [|y r IH]; intros x; simpl.
  - rewrite elem_of_cons. by left.
  - specialize (IH (fl_max2 x y)). rewrite !elem_of_cons in *.
    destruct IH as [-> | IH]; [| by right; right].
    unfold fl_max2.
    destruct (fl_isnan x); [by left |].
    destruct (fl_isnan y); [by right; left |].
    destruct (fl_ltb x y); [by right; left | by left].
Qed.

Lemma first_same_elem (m : fl) (pos : nat) (a : list fl) :
  m ∈ a → (pos ≤ first_same m pos a < pos + length a)%nat.
Proof.
  revert pos. induction a as [|x r IH]; intros pos H; [by inversion H |].
  simpl. destruct (fl_eqb x m || fl_isnan x && fl_isnan m) eqn:E; [lia |].
  apply elem_of_cons in H as [-> | H].
  - by rewrite fl_same_refl in E.
  - specialize (IH (S pos) H). lia.
Qed.

(** [np.argmax] of an array that is not empty is a position of it. *)
Lemma np_argmax_lt (a : list fl) :
  a ≠ [] → ∃ i : nat, np_argmax a = Ok i ∧ (i < length a)%nat.
Proof.
  destruct a as [|x r]; [done |]. intros _. unfold np_argmax, np_max.
  cbn [mbind result_bind]. eexists. split; [reflexivity |].
  apply (first_same_elem _ 0). apply foldl_max2_elem.
Qed.

Lemma FlareStats_continuum_ok (time flux : list fl) (istart istop cpoly : Z)
  (tstart tstop : fl) :
  length flux = length time →
  py_index time istart = Ok tstart → py_index time istop = Ok tstop →
  ∃ c, FlareStats_continuum time flux istart istop tstart tstop cpoly = Ok c.
Proof.
  intros Hlen Hs He.
  unfold FlareStats_continuum, continuum.
  set (c1 := window time _ _). set (c2 := window time _ _).
  rewrite length_map.
  destruct (c1 ++ c2) as [|i l] eqn:Ec.
  - simpl.
    destruct (py_index_same_length time flux istart tstart Hlen Hs) as [fs Hfs].
    destruct (py_index_same_length time flux istop tstop Hlen He) as [fe Hfe].
    rewrite Hfs, Hfe, Hs, He. simpl. by eexists.
  - assert (HF : Forall (fun j => (j < length time)%nat) (i :: l)).
    { rewrite <- Ec. apply Forall_app. split; apply Forall_forall;
        intros j Hj; by eapply window_lt. }
    destruct (py_take_nat time (i :: l) HF) as [ts Hts].
    rewrite <- Hlen in HF.
    destruct (py_take_nat flux (i :: l) HF) as [fs Hfs].
    change (length (i :: l) =? 0)%nat with false. cbv iota.
    rewrite Hfs, Hts. simpl. by eexists.
Qed.

(** X11.  A candidate that stays clear of both array ends,
    [1 <= istart <= istop <= n - 2], on arrays of one length, always gets
    its event: if [np.polyfit] returns and [curve_fit] raises nothing but
    [ValueError] and [RuntimeError], [FlareStats] raises nothing. *)
Theorem FlareStats_interior_returns polyfit curve_fit ks_2samp
  (time flux error model : list fl) (istart istop cpoly : Z) :
  (∀ x y d, ∃ p, polyfit x y d = Ok p) →
  (∀ x y p0 e, curve_fit x y p0 = Raise e → e = ValueError ∨ e = RuntimeError) →
  length flux = length time →
  length error = length time →
  length model = length time →
  1 ≤ istart ≤ istop → istop + 1 < Z.of_nat (length time) →
  ∃ ev : FlareEvent,
    FlareStats polyfit curve_fit ks_2samp time flux error model
      istart istop cpoly = Ok ev.
Proof.
  intros Hpoly Hfit Hlen _ _ H1 H2.
  assert (Hm : ∃ m, FlareStats_measure polyfit time flux error model
                      istart istop cpoly = Ok m).
  { unfold FlareStats_measure, FlareStats_locate.
    destruct (flare_indices _ istart istop) as [s e] eqn:Efi.
    apply flare_indices_spec in Efi; [| lia | lia].
    destruct (py_index_in_range time s ltac:(lia)) as [ts Hts].
    destruct (py_index_in_range time e ltac:(lia)) as [te Hte].
    rewrite Hts, Hte. cbn [mbind result_bind].
    destruct (FlareStats_continuum_ok time flux s e cpoly ts te Hlen Hts Hte)
      as [[[[[[c1 c2] ci] cp] cf] ct] Hc].
    rewrite Hc. cbn [mbind result_bind].
    destruct (Hpoly ct cf cp) as [contfit ->]. cbn [mbind result_bind].
    set (flaretime := py_slice time s (e + 1)).
    set (flareflux := py_slice flux s (e + 1)).
    set (excess := zip_with fl_sub flareflux (map (polyval contfit) flaretime)).
    assert (Hlt : Z.of_nat (length flaretime) = e + 1 - s)
      by (apply py_slice_length; lia).
    assert (Hlf : Z.of_nat (length flareflux) = e + 1 - s)
      by (apply py_slice_length; lia).
    assert (Hle : length excess = length flaretime).
    { unfold excess. rewrite length_zip_with, length_map. lia. }
    assert (Hne : excess ≠ []).
    { intros E. rewrite E in Hle. simpl in Hle. lia. }
    destruct (np_argmax_lt excess Hne) as (ipeak & Hip & Hlt').
    destruct excess as [|x0 r0] eqn:Eex; [done |].
    cbn [np_max mbind result_bind]. rewrite <- Eex in *.
    rewrite Hip. cbn [mbind result_bind].
    destruct (py_index_in_range flaretime (Z.of_nat ipeak) ltac:(lia))
      as [tpeak ->].
    cbn [mbind result_bind].
    match goal with
    | |- ∃ m, ((if (length ?p =? 0)%nat then _ else _) ≫= _) = _ =>
        set (p05 := p)
    end.
    destruct (length p05 =? 0)%nat eqn:Ep; [by eexists |].
    apply Nat.eqb_neq in Ep.
    assert (HF : Forall (fun i => (i < length flaretime)%nat) p05).
    { apply Forall_forall. intros i Hi. unfold p05 in Hi.
      apply np_where_elem in Hi. apply lookup_lt_Some in Hi.
      rewrite length_map in Hi. lia. }
    rewrite (np_take_total NaN flaretime p05 HF). cbn [mbind result_bind].
    destruct p05 as [|i0 l0]; [done |]. simpl map.
    cbn [np_max np_min mbind result_bind]. by eexists. }
  destruct Hm as [m Hm]. unfold FlareStats. rewrite Hm.
  cbn [mbind result_bind]. unfold FlareStats_fit.
  destruct (curve_fit _ _ _) as [popt|ex] eqn:Ecf.
  - simpl. by eexists.
  - destruct (Hfit _ _ _ _ Ecf) as [-> | ->]; simpl; by eexists.
Qed.

Lemma FlareStats_interior_returns_witness :
  ∃ ev : FlareEvent,
    FlareStats polyfit_zero curve_fit_diverges ks_same (tline 10)
      (spikes 10 [4]%nat) (errs 10) (replicate 10 (fz 1)) 4 4 2 = Ok ev.
Proof.
  apply (FlareStats_interior_returns polyfit_zero curve_fit_diverges ks_same
           (tline 10) (spikes 10 [4]%nat) (errs 10) (replicate 10 (fz 1)) 4 4 2).
  - intros x y d. by eexists.
  - intros x y p0 e. unfold curve_fit_diverges. intros [= <-]. by right.
  - reflexivity.
  - reflexivity.
  - reflexivity.
  - lia.
  - simpl. lia.
Defined.

(** ** chisq and EquivDur *)

Lemma fl_is_Fin (q : Q) : fl_is (Fin q) q.
Proof. exists q. split; [done | reflexivity]. Qed.

Lemma fl_add_is (a b : fl) (x y : Q) :
  fl_is a x → fl_is b y → fl_is (fl_add a b) (x + y).
Proof.
  intros (p & -> & Hp) (r & -> & Hr). simpl. eexists. split; [done |].
  rewrite Qred_correct, Hp, Hr. reflexivity.
Qed.

Lemma fl_sub_is (a b : fl) (x y : Q) :
  fl_is a x → fl_is b y → fl_is (fl_sub a b) (x - y).
Proof.
  intros (p & -> & Hp) (r & -> & Hr). simpl. eexists. split; [done |].
  rewrite Qred_correct, Hp, Hr. reflexivity.
Qed.

Lemma fl_mul_is (a b : fl) (x y : Q) :
  fl_is a x → fl_is b y → fl_is (fl_mul a b) (x * y).
Proof.
  intros (p & -> & Hp) (r & -> & Hr). simpl. eexists. split; [done |].
  rewrite Qred_correct, Hp, Hr. reflexivity.
Qed.

Lemma fl_div_is (a b : fl) (x y : Q) :
  fl_is a x → fl_is b y → ¬ (y == 0)%Q → fl_is (fl_div a b) (x / y).
Proof.
  intros (p & -> & Hp) (r & -> & Hr) Hy. simpl. unfold Qsgn.
  assert (Hr0 : ¬ (r == 0)%Q) by (by rewrite Hr).
  destruct (Qcompare_spec r 0) as [E | E | E]; [done | |];
    (eexists; split; [done |]); rewrite Qred_correct, Hp, Hr; reflexivity.
Qed.


















(** ** The comparison with FBEYE *)

Lemma fl_leb_total (a b : fl) :
  fl_isnan a = false → fl_isnan b = false →
  fl_leb a b = true ∨ fl_leb b a = true.
Proof.
  destruct a as [x| | |], b as [y| | |]; simpl; try done; auto.
  intros _ _. rewrite <- (Qcompare_antisym x y).
  destruct (Qcompare x y); simpl; auto.
Qed.

Lemma fl_leb_nonnan (a b : fl) :
  fl_leb a b = true → fl_isnan a = false ∧ fl_isnan b = false.
Proof. destruct a, b; simpl; done. Qed.

Lemma overlaps_intersect (a f : fl * fl) :
  interval a → interval f →
  overlaps a.1 a.2 f.1 f.2 = true ↔ intersect a f.
Proof.
  destruct a as [a0 a1], f as [f0 f1]. unfold interval, intersect. simpl.
  intros Ha Hf. unfold overlaps, fl_geb.
  destruct (fl_leb_nonnan _ _ Ha) as [Na0 Na1].
  destruct (fl_leb_nonnan _ _ Hf) as [Nf0 Nf1].
  pose proof (fl_leb_total a0 f0 Na0 Nf0) as T0.
  pose proof (fl_leb_total a1 f1 Na1 Nf1) as T1.
  pose proof (fun H => fl_leb_trans a0 f0 f1 H Hf) as P1.
  pose proof (fl_leb_trans f0 f1 a1 Hf) as P2.
  pose proof (fun H => fl_leb_trans f0 a0 a1 H Ha) as P3.
  pose proof (fl_leb_trans a0 a1 f1 Ha) as P6.
  destruct (fl_leb a0 f0), (fl_leb f1 a1), (fl_leb f0 a0), (fl_leb a0 f1),
    (fl_leb f0 a1), (fl_leb a1 f1); simpl; intuition discriminate.
Qed.

(** X15.  For events and a flare whose start is not after their stop
    (which excludes NaN), the three-case test of [benchmark] and
    [fbeye_compare] is the test that two closed intervals share a point:
    [n4_i] is 1 for an FBEYE flare that some event intersects and 0 for
    one that no event intersects. *)
Theorem n4_i_spec (apdata fbdata : list (fl * fl)) (i : nat) (f : fl * fl) :
  Forall interval apdata → interval f →
  fbdata !! i = Some f →
  ((∃ (k : nat) (a : fl * fl), apdata !! k = Some a ∧ intersect a f) →
     n4_i apdata fbdata !! i = Some 1) ∧
  (¬ (∃ (k : nat) (a : fl * fl), apdata !! k = Some a ∧ intersect a f) →
     n4_i apdata fbdata !! i = Some 0).
Proof.
  intros Hap Hf Hi. unfold n4_i. rewrite list_lookup_fmap, Hi.
  cbn [fmap option_fmap option_map].
  assert (Hx : ∀ k, k ∈ x_any apdata f ↔
                ∃ a, apdata !! k = Some a ∧ intersect a f).
  { intros k. unfold x_any. rewrite np_where_elem, list_lookup_fmap.
    destruct (apdata !! k) as [a|] eqn:Ek; simpl.
    - pose proof (proj1 (Forall_lookup _ _) Hap k a Ek) as Ha.
      split.
      + intros [= H]. exists a. split; [done |]. by apply overlaps_intersect.
      + intros (a' & [= <-] & H). f_equal. by apply overlaps_intersect.
    - split; [done | intros (a & H & _); done]. }
  set (X := x_any apdata f) in *. clearbody X. split.
  - intros (k & a & Hk & Ha).
    assert (Hin : k ∈ X) by (apply Hx; eauto).
    destruct X; [by inversion Hin | reflexivity].
  - intros Hno. destruct X as [|k l]; [reflexivity |].
    exfalso. apply Hno. exists k.
    apply Hx. rewrite elem_of_cons. by left.
Qed.

Lemma n4_i_spec_witness :
  n4_i [(fz 1, fz 3); (fz 7, fz 9)] [(fz 2, fz 8)] !! 0%nat = Some 1.
Proof.
  apply (n4_i_spec [(fz 1, fz 3); (fz 7, fz 9)] [(fz 2, fz 8)] 0 (fz 2, fz 8)).
  - repeat constructor.
  - reflexivity.
  - reflexivity.
  - exists 0%nat, (fz 1, fz 3). repeat split.
Defined.

(** ** FakeFlares *)

Lemma fl_sum_zero_one (ws : list fl) (acc : fl) (a : Q) :
  fl_is acc a → Forall zero_one ws →
  ∃ q : Q, foldl fl_add acc ws = Fin q ∧
    (a <= q)%Q ∧ (q <= a + inject_Z (Z.of_nat (length ws)))%Q.
Proof.
  intros Ha H. revert acc a Ha.
  induction H as [|w ws Hw _ IH]; intros acc a Ha.
  - destruct Ha as (p & -> & Hp). exists p. split; [done |].
    change (inject_Z (Z.of_nat (length (@nil fl)))) with 0%Q. lra.
  - cbn [foldl].
    assert (Hw' : ∃ b : Q, fl_is w b ∧ (0 <= b)%Q ∧ (b <= 1)%Q).
    { destruct Hw as [-> | ->]; [exists 0%Q | exists 1%Q];
        (split; [apply fl_is_Fin | lra]). }
    destruct Hw' as (b & Hb & Hb0 & Hb1).
    destruct (IH _ _ (fl_add_is _ _ _ _ Ha Hb)) as (q & Hq & H1 & H2).
    exists q. split; [done |].
    rewrite length_cons, Nat2Z.inj_succ, <- Z.add_1_r, inject_Z_plus.
    change (inject_Z 1) with 1%Q. lra.
Qed.

Lemma filter_zip_fst {A B : Type} (f : A → bool) (a : list A) (b : list B) :
  length b = length a →
  length (List.filter (fun p => f p.1) (zip a b)) = length (List.filter f a).
Proof.
  revert b. induction a as [|x a IH]; intros [|y b] H; try done.
  simpl. destruct (f x); simpl; rewrite IH; auto.
Qed.

Lemma filter_zip_snd_Forall {A B : Type} (f : A * B → bool) (P : B → Prop)
  (a : list A) (b : list B) :
  Forall P b → Forall P (map snd (List.filter f (zip a b))).
Proof.
  intros H. revert a. induction H as [|y b Hy _ IH]; intros [|x a]; simpl;
    try constructor.
  destruct (f (x, y)); simpl; [constructor; [done |] |]; apply IH.
Qed.

(** One entry of [rec_bin_N / rec_bin_D]. *)
Lemma fraction_of_bin (ws : list fl) :
  Forall zero_one ws →
  (ws = [] → fl_div (fl_sum ws) (fz (Z.of_nat (length ws))) = NaN) ∧
  (ws ≠ [] → ∃ q : Q, fl_div (fl_sum ws) (fz (Z.of_nat (length ws))) = Fin q ∧
                (0 <= q)%Q ∧ (q <= 1)%Q).
Proof.
  intros H. split; [by intros -> |]. intros Hne.
  destruct (fl_sum_zero_one ws (Fin 0) 0 (fl_is_Fin 0) H) as (s & Hs & H0 & H1).
  unfold fl_sum. rewrite Hs.
  set (n := inject_Z (Z.of_nat (length ws))) in *.
  assert (Hn : (0 < n)%Q).
  { unfold n. destruct ws; [done |]. change 0%Q with (inject_Z 0).
    rewrite <- Zlt_Qlt. simpl. lia. }
  destruct (fl_div_is (Fin s) (fz (Z.of_nat (length ws))) s n
              (fl_is_Fin s) (fl_is_Fin n)) as (q & Hq & Hval); [lra |].
  exists q. split; [done |]. rewrite Hval. split.
  - apply Qle_shift_div_l; [done | lra].
  - apply Qle_shift_div_r; [done | lra].
Qed.

Lemma fl_min2_cases (a b : fl) : fl_min2 a b = a ∨ fl_min2 a b = b.
Proof. unfold fl_min2. destruct (fl_isnan a), (fl_isnan b), (fl_ltb b a); auto. Qed.

Lemma fl_max2_cases (a b : fl) : fl_max2 a b = a ∨ fl_max2 a b = b.
Proof. unfold fl_max2. destruct (fl_isnan a), (fl_isnan b), (fl_ltb a b); auto. Qed.

Lemma foldl_pick_Forall (f : fl → fl → fl) (P : fl → Prop) (x : fl) (r : list fl) :
  (∀ a b, f a b = a ∨ f a b = b) → P x → Forall P r → P (foldl f x r).
Proof.
  intros Hf Hx H. revert x Hx. induction H as [|y r Hy _ IH]; intros x Hx; [done |].
  simpl. apply IH. by destruct (Hf x y) as [-> | ->].
Qed.

Lemma fl_ltb_Fin (x y : Q) : fl_ltb (Fin x) (Fin y) = true ↔ (x < y)%Q.
Proof.
  simpl. destruct (Qcompare_spec x y) as [H | H | H]; split; try done.
  - intros Hlt. rewrite H in Hlt. by apply Qlt_irrefl in Hlt.
  - intros Hlt. exfalso. apply (Qlt_irrefl x). exact (Qlt_trans _ _ _ Hlt H).
Qed.

Lemma foldl_min2_spec (x : Q) (r : list Q) :
  ∃ lo : Q, foldl fl_min2 (Fin x) (map Fin r) = Fin lo ∧
    (lo <= x)%Q ∧ Forall (Qle lo) r.
Proof.
  revert x. induction r as [|y r IH]; intros x.
  - exists x. split; [done |]. split; [lra | constructor].
  - cbn [map foldl]. unfold fl_min2 at 2. cbn [fl_isnan].
    destruct (fl_ltb (Fin y) (Fin x)) eqn:E.
    + apply fl_ltb_Fin in E. destruct (IH y) as (lo & -> & H1 & H2).
      exists lo. split; [done |]. split; [lra |]. by constructor.
    + assert (Hxy : (x <= y)%Q).
      { apply Qnot_lt_le. intros H. apply fl_ltb_Fin in H. congruence. }
      destruct (IH x) as (lo & -> & H1 & H2).
      exists lo. split; [done |]. split; [done |]. constructor; [lra | done].
Qed.

Lemma foldl_max2_spec (x : Q) (r : list Q) :
  ∃ hi : Q, foldl fl_max2 (Fin x) (map Fin r) = Fin hi ∧
    (x <= hi)%Q ∧ Forall (fun y => (y <= hi)%Q) r.
Proof.
  revert x. induction r as [|y r IH]; intros x.
  - exists x. split; [done |]. split; [lra | constructor].
  - cbn [map foldl]. unfold fl_max2 at 2. cbn [fl_isnan].
    destruct (fl_ltb (Fin x) (Fin y)) eqn:E.
    + apply fl_ltb_Fin in E. destruct (IH y) as (hi & -> & H1 & H2).
      exists hi. split; [done |]. split; [lra |]. by constructor.
    + assert (Hxy : (y <= x)%Q).
      { apply Qnot_lt_le. intros H. apply fl_ltb_Fin in H. congruence. }
      destruct (IH x) as (hi & -> & H1 & H2).
      exists hi. split; [done |]. split; [done |]. constructor; [lra | done].
Qed.

(** The range of the histogram of finite values. *)
Lemma hist_edges_finite (eds : list Q) :
  ∃ lo hi : Q, hist_edges (map Fin eds) = Ok (Fin lo, Fin hi) ∧ (lo < hi)%Q ∧
    Forall (fun x => (lo <= x)%Q ∧ (x <= hi)%Q) eds.
Proof.
  destruct eds as [|x r]; [exists 0%Q, 1%Q; split; [done | split; [lra | constructor]] |].
  unfold hist_edges. cbn [map np_min np_max mbind result_bind].
  destruct (foldl_min2_spec x r) as (lo & -> & Hlo & Hlos).
  destruct (foldl_max2_spec x r) as (hi & -> & Hhi & His).
  cbn [fl_isfinite andb negb].
  assert (Hall : Forall (fun y => (lo <= y)%Q ∧ (y <= hi)%Q) (x :: r)).
  { constructor; [done |]. apply Forall_forall. intros y Hy.
    rewrite Forall_forall in Hlos, His. split; [by apply Hlos | by apply His]. }
  destruct (fl_eqb (Fin lo) (Fin hi)) eqn:E.
  - apply fl_eqb_Fin in E. cbn [fl_sub fl_add fl_neg].
    eexists _, _. split; [done |]. rewrite !Qred_correct. split; [lra |].
    eapply Forall_impl; [exact Hall |]. intros y [H1 H2].
    cbv beta. rewrite !Qred_correct. lra.
  - exists lo, hi. split; [done |]. split; [| done].
    apply Qnot_le_lt. intros H.
    assert (Heq : (lo == hi)%Q) by lra.
    apply fl_eqb_Fin in Heq. congruence.
Qed.

Lemma filter_map_length {A B : Type} (f : B → bool) (g : A → B) (l : list A) :
  length (List.filter f (map g l)) = length (List.filter (fun x => f (g x)) l).
Proof.
  induction l as [|x l IH]; [done |]. simpl. destruct (f (g x)); simpl; auto.
Qed.

(** X16.  For finite equivalent durations and one weight of 0 or 1 per
    fake flare, the completeness curve is returned with twenty bin centres
    and twenty recovered fractions.  The fraction of a bin that holds no
    fake flare is NaN; the fraction of any other bin is a number from 0
    to 1. *)
Theorem FakeFlares_curve_fractions (eds : list Q) (rec_fake : list fl) :
  length rec_fake = length eds →
  Forall zero_one rec_fake →
  ∃ (first last : fl) (centers frac : list fl),
    hist_edges (map Fin eds) = Ok (first, last) ∧
    FakeFlares_curve (map Fin eds) rec_fake = Ok (centers, frac) ∧
    length centers = 20%nat ∧ length frac = 20%nat ∧
    ∀ j : nat, (j < 20)%nat →
      (in_bin first last j eds = 0%nat → frac !! j = Some NaN) ∧
      (in_bin first last j eds ≠ 0%nat →
         ∃ q : Q, frac !! j = Some (Fin q) ∧ (0 <= q)%Q ∧ (q <= 1)%Q).
Proof.
  intros Hlen Hw.
  destruct (hist_edges_finite eds) as (lo & hi & He & _ & _).
  unfold FakeFlares_curve. rewrite length_map, Hlen, Nat.eqb_refl, He.
  cbn [negb mbind result_bind].
  eexists _, _, _, _. split; [reflexivity |]. split; [reflexivity |].
  split; [| split].
  - rewrite length_zip_with, length_drop, length_take. unfold linspace.
    rewrite length_insert, length_map, length_seq. done.
  - rewrite length_zip_with, length_map. unfold bincount_w, bincount.
    rewrite !length_map, length_seq. done.
  - intros j Hj.
    set (idx := map (bin_of (Fin lo) (Fin hi) 20) (map Fin eds)).
    set (ws := map snd (List.filter (fun p => p.1 =? Z.of_nat j) (zip idx rec_fake))).
    assert (Hfrac : zip_with fl_div (bincount_w idx rec_fake 20)
                      (map fz (bincount idx 20)) !! j =
                    Some (fl_div (fl_sum ws) (fz (Z.of_nat (length ws))))).
    { rewrite lookup_zip_with. unfold bincount_w, bincount.
      rewrite !list_lookup_fmap, lookup_seq_lt by done. simpl.
      do 3 f_equal. unfold ws. rewrite length_map.
      symmetry. f_equal.
      apply (filter_zip_fst (fun i => i =? Z.of_nat j)).
      unfold idx. by rewrite !length_map. }
    assert (Hn : in_bin (Fin lo) (Fin hi) j eds = length ws).
    { unfold in_bin, ws. rewrite length_map.
      rewrite (filter_zip_fst (fun i => i =? Z.of_nat j))
        by (unfold idx; by rewrite !length_map).
      unfold idx. rewrite !filter_map_length. done. }
    rewrite Hfrac, Hn.
    destruct (fraction_of_bin ws) as [H0 H1].
    { unfold ws. by apply filter_zip_snd_Forall. }
    split.
    + intros E. rewrite H0; [done |]. by destruct ws.
    + intros E. destruct H1 as (q & -> & Hq); [by intros -> |]. by exists q.
Qed.

Lemma FakeFlares_curve_fractions_witness :
  ∃ (first last : fl) (centers frac : list fl),
    hist_edges (map Fin [10; 30; 50]%Q) = Ok (first, last) ∧
    FakeFlares_curve (map Fin [10; 30; 50]%Q) [fz 0; fz 1; fz 1] =
      Ok (centers, frac) ∧
    length centers = 20%nat ∧ length frac = 20%nat ∧
    ∀ j : nat, (j < 20)%nat →
      (in_bin first last j [10; 30; 50]%Q = 0%nat → frac !! j = Some NaN) ∧
      (in_bin first last j [10; 30; 50]%Q ≠ 0%nat →
         ∃ q : Q, frac !! j = Some (Fin q) ∧ (0 <= q)%Q ∧ (q <= 1)%Q).
Proof.
  apply (FakeFlares_curve_fractions [10; 30; 50]%Q [fz 0; fz 1; fz 1]).
  - reflexivity.
  - repeat constructor; by (left + right).
Defined.

Lemma fl_trunc_floor (p : Q) : (0 <= p)%Q → fl_trunc (Fin p) = Qfloor p.
Proof.
  destruct p as [n d]. unfold Qle. simpl. intros H.
  apply Z.quot_div_nonneg; lia.
Qed.

(** A value of the range of the histogram has one of the twenty bins,
    and lies between the edges of its bin. *)
Lemma bin_of_range (lo hi x : Q) :
  (lo < hi)%Q → (lo <= x)%Q → (x <= hi)%Q →
  let j := bin_of (Fin lo) (Fin hi) 20 (Fin x) in
  0 ≤ j ≤ 19 ∧
  (lo + inject_Z j * ((hi - lo) / 20) <= x)%Q ∧
  (x <= lo + inject_Z (j + 1) * ((hi - lo) / 20))%Q.
Proof.
  intros Hlh Hlo Hhi. unfold bin_of.
  destruct (fl_mul_is _ (fz 20) _ 20
              (fl_div_is _ _ _ _
                 (fl_sub_is _ _ _ _ (fl_is_Fin x) (fl_is_Fin lo))
                 (fl_sub_is _ _ _ _ (fl_is_Fin hi) (fl_is_Fin lo))
                 ltac:(lra))
              (fl_is_Fin 20)) as (p & -> & Hp).
  assert (H0 : (0 <= (x - lo) / (hi - lo))%Q)
    by (apply Qle_shift_div_l; lra).
  assert (H1 : ((x - lo) / (hi - lo) <= 1)%Q)
    by (apply Qle_shift_div_r; lra).
  assert (Hp0 : (0 <= p)%Q) by (rewrite Hp; lra).
  assert (Hp1 : (p <= 20)%Q) by (rewrite Hp; lra).
  rewrite (fl_trunc_floor p Hp0).
  pose proof (Qfloor_resp_le _ _ Hp0) as F0.
  pose proof (Qfloor_resp_le _ _ Hp1) as F1.
  change 0%Q with (inject_Z 0) in F0. change 20%Q with (inject_Z 20) in F1.
  rewrite Qfloor_Z in F0, F1.
  pose proof (Qfloor_le p) as L0. pose proof (Qlt_floor p) as L1.
  set (w := ((hi - lo) / 20)%Q).
  assert (Hw : (0 < w)%Q) by (unfold w; apply Qlt_shift_div_l; lra).
  assert (Hx : (x == lo + p * w)%Q) by (unfold w; rewrite Hp; field; lra).
  cbv zeta.
  destruct (Z.eqb_spec (Qfloor p) 20) as [E | E].
  - split; [lia |]. rewrite E in *. change (20 - 1) with 19.
    change (19 + 1) with 20. change (inject_Z 20) with 20%Q in *.
    change (inject_Z 19) with 19%Q.
    assert (Hp20 : (p == 20)%Q) by lra.
    rewrite Hx, Hp20. split; lra.
  - split; [lia |]. rewrite Hx. split.
    + assert (inject_Z (Qfloor p) * w <= p * w)%Q
        by (apply Qmult_le_compat_r; lra).
      lra.
    + assert (p * w <= inject_Z (Qfloor p + 1) * w)%Q
        by (apply Qmult_le_compat_r; lra).
      lra.
Qed.

Lemma sum_map_add (f g : nat → Z) (l : list nat) :
  foldr Z.add 0 (map (fun j => f j + g j) l) =
  foldr Z.add 0 (map f l) + foldr Z.add 0 (map g l).
Proof. induction l as [|j l IH]; simpl; lia. Qed.

Lemma sum_indicator (i : Z) (s n : nat) :
  foldr Z.add 0 (map (fun j => if i =? Z.of_nat j then 1 else 0) (seq s n)) =
  if (Z.of_nat s <=? i) && (i <? Z.of_nat (s + n)) then 1 else 0.
Proof.
  revert s. induction n as [|n IH]; intros s.
  - simpl. destruct (Z.leb_spec (Z.of_nat s) i), (Z.ltb_spec i (Z.of_nat (s + 0)));
      simpl; lia.
  - cbn [seq map foldr]. rewrite IH.
    destruct (Z.eqb_spec i (Z.of_nat s)),
      (Z.leb_spec (Z.of_nat (S s)) i), (Z.ltb_spec i (Z.of_nat (S s + n))),
      (Z.leb_spec (Z.of_nat s) i), (Z.ltb_spec i (Z.of_nat (s + S n)));
      simpl; lia.
Qed.

(** Every index below [n] is counted in one entry of [np.bincount]. *)
Lemma bincount_total (idx : list Z) (n : nat) :
  Forall (fun i => 0 ≤ i < Z.of_nat n) idx →
  foldr Z.add 0 (bincount idx n) = Z.of_nat (length idx).
Proof.
  unfold bincount. induction 1 as [|i idx Hi _ IH].
  - simpl. induction (seq 0 n); simpl; lia.
  - rewrite length_cons, Nat2Z.inj_succ, <- IH.
    transitivity
      (foldr Z.add 0
         (map (fun j => (if i =? Z.of_nat j then 1 else 0) +
                        Z.of_nat (length (List.filter (fun i0 => i0 =? Z.of_nat j) idx)))
              (seq 0 n))).
    + f_equal. apply map_ext. intros j. simpl.
      destruct (i =? Z.of_nat j); simpl; lia.
    + rewrite sum_map_add, sum_indicator.
      destruct (Z.leb_spec (Z.of_nat 0) i), (Z.ltb_spec i (Z.of_nat (0 + n)));
        simpl; lia.
Qed.

(** X17.  Finite equivalent durations always get a range for the
    histogram.  Each of them falls in one of the bins 0 to 19, between the
    two edges of that bin, and the counts of the twenty bins add up to the
    number of fake flares. *)
Theorem FakeFlares_every_event_binned (eds : list Q) :
  ∃ lo hi : Q,
    hist_edges (map Fin eds) = Ok (Fin lo, Fin hi) ∧
    Forall (fun x =>
              let j := bin_of (Fin lo) (Fin hi) 20 (Fin x) in
              0 ≤ j ≤ 19 ∧
              (lo + inject_Z j * ((hi - lo) / 20) <= x)%Q ∧
              (x <= lo + inject_Z (j + 1) * ((hi - lo) / 20))%Q) eds ∧
    foldr Z.add 0
      (bincount (map (bin_of (Fin lo) (Fin hi) 20) (map Fin eds)) 20) =
    Z.of_nat (length eds).
Proof.
  destruct (hist_edges_finite eds) as (lo & hi & He & Hlh & Hall).
  exists lo, hi. split; [done |].
  assert (Hbins : Forall (fun x =>
              let j := bin_of (Fin lo) (Fin hi) 20 (Fin x) in
              0 ≤ j ≤ 19 ∧
              (lo + inject_Z j * ((hi - lo) / 20) <= x)%Q ∧
              (x <= lo + inject_Z (j + 1) * ((hi - lo) / 20))%Q) eds).
  { eapply Forall_impl; [exact Hall |]. intros x [H1 H2]. by apply bin_of_range. }
  split; [done |].
  rewrite bincount_total; [by rewrite !length_map |].
  rewrite !Forall_fmap. eapply Forall_impl; [exact Hbins |].
  intros x Hx. unfold compose. change (Z.of_nat 20) with 20.
  cbv beta zeta in Hx. lia.
Qed.

Lemma fl_max2_not_finite (x : fl) (r : list fl) :
  Exists (fun v => v = NaN ∨ v = PInf) (x :: r) →
  fl_isfinite (foldl fl_max2 x r) = false.
Proof.
  revert x. induction r as [|y r IH]; intros x H.
  - apply Exists_cons in H as [[-> | ->] | H]; [done | done | by inversion H].
  - cbn [foldl]. apply IH.
    apply Exists_cons in H as [Hx | H].
    + apply Exists_cons. left. destruct Hx as [-> | ->]; [by left |].
      destruct y; simpl; auto.
    + apply Exists_cons in H as [Hy | H]; [| by apply Exists_cons; right].
      apply Exists_cons. left. destruct Hy as [-> | ->]; destruct x; simpl; auto.
Qed.

Lemma fl_min2_not_finite (x : fl) (r : list fl) :
  Exists (fun v => v = NaN ∨ v = NInf) (x :: r) →
  fl_isfinite (foldl fl_min2 x r) = false.
Proof.
  revert x. induction r as [|y r IH]; intros x H.
  - apply Exists_cons in H as [[-> | ->] | H]; [done | done | by inversion H].
  - cbn [foldl]. apply IH.
    apply Exists_cons in H as [Hx | H].
    + apply Exists_cons. left. destruct Hx as [-> | ->]; [by left |].
      destruct y; simpl; auto.
    + apply Exists_cons in H as [Hy | H]; [| by apply Exists_cons; right].
      apply Exists_cons. left. destruct Hy as [-> | ->]; destruct x; simpl; auto.
Qed.

(** X18.  If the equivalent duration of a fake flare is NaN or infinite,
    the histogram raises [ValueError], whatever the weights are. *)
Theorem FakeFlares_curve_not_finite (ed_fake rec_fake : list fl) :
  Exists (fun v => fl_isfinite v = false) ed_fake →
  FakeFlares_curve ed_fake rec_fake = Raise ValueError.
Proof.
  intros H. unfold FakeFlares_curve.
  destruct (negb _); [done |].
  assert (He : hist_edges ed_fake = Raise ValueError).
  { destruct ed_fake as [|x r]; [by inversion H |].
    unfold hist_edges. cbn [np_min np_max mbind result_bind].
    assert (Hc : Exists (fun v => v = NaN ∨ v = PInf) (x :: r) ∨
                 Exists (fun v => v = NaN ∨ v = NInf) (x :: r)).
    { apply Exists_exists in H as (v & Hin & Hv).
      destruct v; try done; [left | right | left];
        apply Exists_exists; eexists; (split; [exact Hin | auto]). }
    destruct Hc as [Hc | Hc].
    - rewrite (fl_max2_not_finite x r Hc), andb_false_r. done.
    - rewrite (fl_min2_not_finite x r Hc). done. }
  rewrite He. done.
Qed.

Lemma FakeFlares_curve_not_finite_witness :
  FakeFlares_curve [fz 1; NaN; fz 3] [fz 0; fz 1; fz 1] = Raise ValueError.
Proof.
  apply (FakeFlares_curve_not_finite [fz 1; NaN; fz 3] [fz 0; fz 1; fz 1]).
  apply Exists_cons. right. apply Exists_cons. left. reflexivity.
Defined.





Lemma inside_spec (tstart tstop : list fl) (t0 : fl) :
  length tstop = length tstart →
  ∃ x : list nat, inside tstart tstop t0 = Ok x ∧
    (x ≠ [] ↔ in_some tstart tstop t0).
Proof.
  intros Hlen. unfold inside, broadcast_and.
  rewrite !length_map, Hlen, Nat.eqb_refl. cbn [mbind result_bind].
  eexists. split; [reflexivity |].
  assert (Hx : ∀ j, j ∈ np_where (zip_with andb (map (fun s => fl_geb t0 s) tstart)
                           (map (fun e => fl_leb t0 e) tstop)) ↔
               ∃ s e, tstart !! j = Some s ∧ tstop !! j = Some e ∧
                 fl_leb s t0 = true ∧ fl_leb t0 e = true).
  { intros j. rewrite np_where_elem, lookup_zip_with, !list_lookup_fmap.
    unfold fl_geb.
    destruct (tstart !! j) as [s|], (tstop !! j) as [e|]; simpl.
    - split.
      + intros [= H]. apply andb_true_iff in H. by exists s, e.
      + intros (s' & e' & [= <-] & [= <-] & H1 & H2). by rewrite H1, H2.
    - split; [done | by intros (? & ? & _ & ? & _)].
    - split; [done | by intros (? & ? & ? & _)].
    - split; [done | by intros (? & ? & ? & _)]. }
  set (x := np_where _) in *. clearbody x. unfold in_some. split.
  - intros Hne. destruct x as [|j x]; [done |].
    exists j. apply Hx. rewrite elem_of_cons. by left.
  - intros (j & H) ->. apply Hx in H. by inversion H.
Qed.

(** X20.  The peak time of a fake flare is the first draw that lies in no
    known flare, from its start time to its stop time inclusive: draws
    inside a known flare are passed over, and as long as every draw is
    inside one the loop goes on. *)
Theorem FakeFlares_t0_spec (tstart tstop : list fl) (pre post : list fl) (t0 : fl) :
  length tstop = length tstart →
  Forall (in_some tstart tstop) pre →
  (¬ in_some tstart tstop t0 →
     FakeFlares_t0 tstart tstop (pre ++ t0 :: post) = Some (Ok t0)) ∧
  FakeFlares_t0 tstart tstop pre = None.
Proof.
  intros Hlen Hpre.
  assert (Hstep : ∀ d rest, in_some tstart tstop d →
            FakeFlares_t0 tstart tstop (d :: rest) =
            FakeFlares_t0 tstart tstop rest).
  { intros d rest Hd. cbn [FakeFlares_t0].
    destruct (0 <? length tstart)%nat eqn:E.
    - destruct (inside_spec tstart tstop d Hlen) as (x & -> & Hx).
      destruct x as [|j x]; [| done]. exfalso. by apply Hx in Hd.
    - destruct Hd as (j & s & _ & Hs & _).
      apply lookup_lt_Some in Hs. apply Nat.ltb_ge in E. lia. }
  split.
  - intros Hout. induction Hpre as [|d pre Hd _ IH].
    + cbn [app FakeFlares_t0].
      destruct (0 <? length tstart)%nat; [| done].
      destruct (inside_spec tstart tstop t0 Hlen) as (x & -> & Hx).
      destruct x as [|j x]; [done |].
      exfalso. apply Hout, Hx. done.
    + cbn [app]. by rewrite Hstep.
  - induction Hpre as [|d pre Hd _ IH]; [done |]. by rewrite Hstep.
Qed.

Lemma FakeFlares_t0_spec_witness :
  FakeFlares_t0 [fz 2; fz 6] [fz 3; fz 8] [fz 7; fz 2; fz 5; fz 1] =
    Some (Ok (fz 5)) ∧
  FakeFlares_t0 [fz 2; fz 6] [fz 3; fz 8] [fz 7; fz 2] = None.
Proof.
  assert (Hpre : Forall (in_some [fz 2; fz 6] [fz 3; fz 8]) [fz 7; fz 2]).
  { constructor; [| constructor; [| constructor]].
    - exists 1%nat, (fz 6), (fz 8). repeat split.
    - exists 0%nat, (fz 2), (fz 3). repeat split. }
  destruct (FakeFlares_t0_spec [fz 2; fz 6] [fz 3; fz 8] [fz 7; fz 2] [fz 1]
              (fz 5) eq_refl Hpre) as [H1 H2].
  split; [apply H1 | exact H2].
  intros (j & s & e & Hs & He & H3 & H4).
  destruct j as [|[|j]]; simpl in Hs, He; try discriminate;
    injection Hs as <-; injection He as <-; vm_compute in H3, H4; discriminate.
Defined.

Lemma py_take_in_range {A : Type} (a : list A) (idx : list Z) :
  Forall (fun i => 0 ≤ i < Z.of_nat (length a)) idx →
  ∃ xs : list A, py_take a idx = Ok xs ∧ length xs = length idx.
Proof.
  induction 1 as [|i idx Hi _ IH]; [by exists [] |].
  destruct (py_index_in_range a i Hi) as [x Hx].
  destruct IH as (xs & Hxs & Hl).
  exists (x :: xs). cbn [py_take]. rewrite Hx, Hxs. simpl. by rewrite Hl.
Qed.

(** X21.  For as many stop as start indices, all inside the time array,
    [rec_fake] is computed without an error: it has one entry per fake
    flare, 1 if the peak time lies in a recovered event, from the time at
    its start index to the time at its stop index inclusive, and 0 if it
    lies in none. *)
Theorem FakeFlares_rec_spec (time : list fl) (istart istop : list Z)
  (t0_fake : list fl) :
  length istop = length istart →
  Forall (fun i => 0 ≤ i < Z.of_nat (length time)) istart →
  Forall (fun i => 0 ≤ i < Z.of_nat (length time)) istop →
  ∃ (ts te rec_fake : list fl),
    py_take time istart = Ok ts ∧ py_take time istop = Ok te ∧
    FakeFlares_rec time istart istop t0_fake = Ok rec_fake ∧
    length rec_fake = length t0_fake ∧
    Forall zero_one rec_fake ∧
    ∀ (k : nat) (t0 : fl), t0_fake !! k = Some t0 →
      (in_some ts te t0 → rec_fake !! k = Some (fz 1)) ∧
      (¬ in_some ts te t0 → rec_fake !! k = Some (fz 0)).
Proof.
  intros Hlen Hs He.
  destruct (py_take_in_range time istart Hs) as (ts & Hts & Hlts).
  destruct (py_take_in_range time istop He) as (te & Hte & Hlte).
  exists ts, te. unfold FakeFlares_rec.
  destruct (0 <? length istart)%nat eqn:E.
  - assert (Hk : ∀ t0, ∃ r, FakeFlares_rec_k time istart istop t0 = Ok r ∧
               zero_one r ∧ (in_some ts te t0 → r = fz 1) ∧
               (¬ in_some ts te t0 → r = fz 0)).
    { intros t0. unfold FakeFlares_rec_k. rewrite Hts, Hte.
      cbn [mbind result_bind].
      destruct (inside_spec ts te t0 ltac:(lia)) as (x & -> & Hx).
      cbn [mbind result_bind]. eexists. split; [reflexivity |].
      destruct x as [|j x]; simpl.
      - split; [by left |]. split; [| done].
        intros H. by apply Hx in H.
      - split; [by right |]. split; [done |].
        intros H. exfalso. apply H, Hx. done. }
    induction t0_fake as [|t0 rest IH].
    + exists []. repeat split; done.
    + destruct IH as (rs & _ & _ & Hrs & Hl & Hz & Hspec).
      destruct (Hk t0) as (r & Hr & Hzr & Hin & Hout).
      exists (r :: rs). split; [done |]. split; [done |].
      cbn [FakeFlares_rec_loop]. rewrite Hr, Hrs. cbn [mbind result_bind].
      split; [done |]. split; [simpl; by rewrite Hl |].
      split; [by constructor |].
      intros [|k] t Ht; simpl in Ht |- *.
      * injection Ht as <-. split; intros H; f_equal; auto.
      * by apply Hspec.
  - exists (map (fun _ => fz 0) t0_fake).
    split; [done |]. split; [done |]. split; [done |].
    split; [by rewrite length_map |].
    split; [apply Forall_fmap, Forall_forall; intros; by left |].
    intros k t0 Hk.
    assert (Hnone : ¬ in_some ts te t0).
    { intros (j & s & _ & Hj & _). apply lookup_lt_Some in Hj.
      apply Nat.ltb_ge in E. lia. }
    split; [done |]. intros _. by rewrite list_lookup_fmap, Hk.
Qed.

Lemma FakeFlares_rec_spec_witness :
  ∃ (ts te rec_fake : list fl),
    py_take (tline 10) [2; 6] = Ok ts ∧ py_take (tline 10) [3; 8] = Ok te ∧
    FakeFlares_rec (tline 10) [2; 6] [3; 8] [fz 7; fz 5] = Ok rec_fake ∧
    length rec_fake = length [fz 7; fz 5] ∧
    Forall zero_one rec_fake ∧
    ∀ (k : nat) (t0 : fl), [fz 7; fz 5] !! k = Some t0 →
      (in_some ts te t0 → rec_fake !! k = Some (fz 1)) ∧
      (¬ in_some ts te t0 → rec_fake !! k = Some (fz 0)).
Proof.
  apply (FakeFlares_rec_spec (tline 10) [2; 6] [3; 8] [fz 7; fz 5]).
  - reflexivity.
  - repeat constructor; simpl; lia.
  - repeat constructor; simpl; lia.
Defined.

Lemma ed_threshold_returns (wiener : list fl → nat → list fl) (thr : fl)
  (ed_fake frac_rec : list fl) :
  length ed_fake = length frac_rec →
  length (wiener (List.filter fl_isfinite frac_rec) 3%nat) =
    length (List.filter fl_isfinite frac_rec) →
  ∃ v : fl, ed_threshold wiener thr ed_fake frac_rec = Ok v ∧
    (v = fz (-99) ∨ v ∈ ed_fake).
Proof.
  intros Hlen Hw. unfold ed_threshold.
  set (sm := wiener (List.filter fl_isfinite frac_rec) 3%nat) in *.
  set (x := np_where (map (fun v => fl_geb v thr) sm)).
  destruct (0 <? length x)%nat eqn:E; [| exists (fz (-99)); auto].
  set (centers := map fst (List.filter snd (zip ed_fake (map fl_isfinite frac_rec)))).
  assert (Hmask : mask_take ed_fake (map fl_isfinite frac_rec) = Ok centers).
  { unfold mask_take. rewrite length_map, Hlen, Nat.eqb_refl. done. }
  assert (Hclen : length centers = length sm).
  { unfold centers. rewrite mask_filter_length by done. by rewrite Hw. }
  assert (Hxlt : Forall (fun i => (i < length centers)%nat) x).
  { apply Forall_forall. intros i Hi. apply np_where_elem in Hi.
    apply lookup_lt_Some in Hi. rewrite length_map in Hi. lia. }
  rewrite Hmask. cbn [mbind result_bind].
  rewrite (np_take_total NaN centers x Hxlt). cbn [mbind result_bind].
  destruct x as [|i0 x'] eqn:Ex; [done |].
  cbn [map py_min]. eexists. split; [reflexivity |]. right.
  set (sel := map (fun i => default NaN (centers !! i)) x').
  assert (Hsel : Forall (fun c => c ∈ ed_fake) (default NaN (centers !! i0) :: sel)).
  { change (Forall (fun c => c ∈ ed_fake)
              (map (fun i => default NaN (centers !! i)) (i0 :: x'))).
    apply Forall_fmap. eapply Forall_impl; [exact Hxlt |].
    intros i Hi. unfold compose.
    destruct (lookup_lt_is_Some_2 centers i Hi) as [c Hc]. rewrite Hc. simpl.
    apply list_elem_of_lookup_2 in Hc. by apply mask_filter_elem in Hc. }
  inversion Hsel as [|? ? H0 Hrest]; subst.
  set (f := fun m y => if fl_ltb y m then y else m).
  assert (Hfold : ∀ l m, m ∈ ed_fake → Forall (fun c => c ∈ ed_fake) l →
            foldl f m l ∈ ed_fake).
  { induction l as [|y l IH]; intros m Hm Hl; [done |].
    inversion Hl; subst. simpl. apply IH; [| done].
    unfold f. by destruct (fl_ltb y m). }
  by apply Hfold.
Qed.

(** X22.  The curve that [FakeFlares] returns is one that [RunLC] can
    threshold: with a smoothing filter that keeps the length of its input,
    [ed68_i] and [ed90_i] are computed without an error, and each is -99
    or one of the twenty bin centres. *)
Theorem FakeFlares_curve_thresholds (wiener : list fl → nat → list fl)
  (ed_fake rec_fake centers frac : list fl) :
  (∀ a : list fl, length (wiener a 3%nat) = length a) →
  FakeFlares_curve ed_fake rec_fake = Ok (centers, frac) →
  length centers = 20%nat ∧ length frac = 20%nat ∧
  ∃ ed68 ed90 : fl,
    segment_ed wiener true centers frac = Ok (ed68, ed90) ∧
    (ed68 = fz (-99) ∨ ed68 ∈ centers) ∧
    (ed90 = fz (-99) ∨ ed90 ∈ centers).
Proof.
  intros Hw Hc. unfold FakeFlares_curve in Hc.
  destruct (negb _); [discriminate |].
  destruct (hist_edges ed_fake) as [[first last]|]; [| discriminate].
  cbn [mbind result_bind] in Hc.
  pose proof (f_equal (fun r : result (list fl * list fl) =>
                match r with Ok p => length p.1 | Raise _ => 0%nat end) Hc) as Ec.
  pose proof (f_equal (fun r : result (list fl * list fl) =>
                match r with Ok p => length p.2 | Raise _ => 0%nat end) Hc) as Ef.
  cbn [fst snd] in Ec, Ef.
  assert (H1 : length centers = 20%nat).
  { rewrite <- Ec, length_zip_with, length_drop, length_take. unfold linspace.
    rewrite length_insert, length_map, length_seq. done. }
  assert (H2 : length frac = 20%nat).
  { rewrite <- Ef, length_zip_with, length_map. unfold bincount_w, bincount.
    rewrite !length_map, length_seq. done. }
  clear Ec Ef. split; [done |]. split; [done |]. unfold segment_ed.
  destruct (ed_threshold_returns wiener (Fin (68 # 100)) centers frac
              ltac:(lia) (Hw _)) as (v68 & -> & H68).
  destruct (ed_threshold_returns wiener (Fin (90 # 100)) centers frac
              ltac:(lia) (Hw _)) as (v90 & -> & H90).
  by exists v68, v90.
Qed.

Lemma FakeFlares_curve_thresholds_witness :
  ∃ (centers frac : list fl) (ed68 ed90 : fl),
    FakeFlares_curve (map fz [10; 30; 50]) [fz 0; fz 1; fz 1] =
      Ok (centers, frac) ∧
    segment_ed wiener_model true centers frac = Ok (ed68, ed90) ∧
    (ed68 = fz (-99) ∨ ed68 ∈ centers).
Proof.
  destruct (FakeFlares_curve (map fz [10; 30; 50]) [fz 0; fz 1; fz 1])
    as [[centers frac]|] eqn:E; [| vm_compute in E; discriminate].
  destruct (FakeFlares_curve_thresholds wiener_model
              (map fz [10; 30; 50]) [fz 0; fz 1; fz 1] centers frac)
    as (_ & _ & ed68 & ed90 & H1 & H2 & _).
  - intros a. unfold wiener_model.
    rewrite !length_zip_with, !length_map, length_seq. lia.
  - exact E.
  - exists centers, frac, ed68, ed90. done.
Defined.

(** ** OneCadence *)

Lemma fl_insert_elem (x a : fl) (l : list fl) :
  x ∈ fl_insert a l ↔ x = a ∨ x ∈ l.
Proof.
  induction l as [|y l IH]; simpl.
  - rewrite elem_of_cons. done.
  - destruct (fl_leb a y); rewrite !elem_of_cons; [done |].
    rewrite IH. tauto.
Qed.

Lemma fl_sort_elem (x : fl) (l : list fl) : x ∈ fl_sort l ↔ x ∈ l.
Proof.
  induction l as [|a l IH]; [done |]. unfold fl_sort in *. cbn [foldr].
  rewrite fl_insert_elem, elem_of_cons, IH. done.
Qed.

Lemma np_sort_elem (x : fl) (l : list fl) : x ∈ np_sort l ↔ x ∈ l.
Proof.
  unfold np_sort, nonnan. rewrite elem_of_app, fl_sort_elem.
  rewrite !list_elem_of_In, !filter_In, <- !list_elem_of_In.
  destruct (fl_isnan x); simpl; intuition discriminate.
Qed.

Lemma fl_eqb_trans (a b c : fl) :
  fl_eqb a b = true → fl_eqb b c = true → fl_eqb a c = true.
Proof.
  unfold fl_eqb. rewrite !andb_true_iff. intros [H1 H2] [H3 H4].
  split; eapply fl_leb_trans; eauto.
Qed.

Lemma fl_eqb_sym (a b : fl) : fl_eqb a b = fl_eqb b a.
Proof. unfold fl_eqb. apply andb_comm. Qed.

Lemma same_entry_trans (a b c : fl) :
  same_entry a b = true → same_entry b c = true → same_entry a c = true.
Proof.
  unfold same_entry. rewrite !orb_true_iff, !andb_true_iff.
  intros [H1 | [H1 H1']] [H2 | [H2 H2']].
  - left. by eapply fl_eqb_trans.
  - destruct b; try done. by destruct a.
  - destruct b; done.
  - right. done.
Qed.

Lemma same_entry_refl (x : fl) : same_entry x x = true.
Proof. apply fl_same_refl. Qed.

Lemma uniq_adj_elem (prev x : fl) (l : list fl) :
  x ∈ uniq_adj prev l → x ∈ l.
Proof.
  revert prev. induction l as [|y r IH]; intros prev; simpl; [done |].
  destruct (same_entry y prev); rewrite ?elem_of_cons; intros H.
  - right. by eapply IH.
  - destruct H as [-> | H]; [by left | right; by eapply IH].
Qed.

Lemma uniq_adj_covers (prev x : fl) (l : list fl) :
  x ∈ l →
  (∃ y : fl, y ∈ uniq_adj prev l ∧ same_entry x y = true) ∨ same_entry x prev = true.
Proof.
  revert prev. induction l as [|y r IH]; intros prev H; [by inversion H |].
  apply elem_of_cons in H as [-> | H]; simpl.
  - destruct (same_entry y prev) eqn:E; [by right |].
    left. exists y. rewrite elem_of_cons. split; [by left | apply same_entry_refl].
  - destruct (IH y H) as [(z & Hz & Hs) | Hs].
    + left. exists z. split; [| done].
      destruct (same_entry y prev); [done | rewrite elem_of_cons; by right].
    + destruct (same_entry y prev) eqn:E.
      * right. by eapply same_entry_trans.
      * left. exists y. rewrite elem_of_cons. split; [by left | done].
Qed.

Lemma np_unique_elem (x : fl) (l : list fl) : x ∈ np_unique l → x ∈ l.
Proof.
  unfold np_unique. intros H. apply np_sort_elem.
  destruct (np_sort l) as [|y r]; [done |].
  rewrite elem_of_cons in *. destruct H as [-> | H]; [by left |].
  right. by eapply uniq_adj_elem.
Qed.

Lemma np_unique_covers (x : fl) (l : list fl) :
  x ∈ l → ∃ y : fl, y ∈ np_unique l ∧ same_entry x y = true.
Proof.
  intros H. apply np_sort_elem in H. unfold np_unique.
  destruct (np_sort l) as [|y r]; [by inversion H |].
  apply elem_of_cons in H as [-> | H].
  - exists y. rewrite elem_of_cons. split; [by left | apply same_entry_refl].
  - destruct (uniq_adj_covers y x r H) as [(z & Hz & Hs) | Hs].
    + exists z. rewrite elem_of_cons. split; [by right | done].
    + exists y. rewrite elem_of_cons. split; [by left | done].
Qed.

Lemma same_entry_finite (a b : fl) :
  fl_isfinite a = true → same_entry a b = true → fl_eqb a b = true.
Proof. destruct a; try done. unfold same_entry. simpl. by rewrite orb_false_r. Qed.

Lemma same_quarter_eqb (q v : fl) :
  fl_isfinite q = true → fl_isfinite v = true →
  fl_eqb v q = true → same_quarter q v = true.
Proof.
  destruct q as [a| | |], v as [b| | |]; try done. intros _ _ H.
  apply fl_eqb_Fin in H. unfold same_quarter. cbn [fl_sub fl_neg fl_add fl_abs].
  apply fl_ltb_Fin. rewrite Qred_correct.
  assert (E : (b + - a == 0)%Q) by lra.
  rewrite E. reflexivity.
Qed.

Lemma np_take_elem {A : Type} (a : list A) (idx : list nat) (xs : list A) (v : A) :
  np_take a idx = Ok xs →
  v ∈ xs ↔ ∃ p : nat, p ∈ idx ∧ a !! p = Some v.
Proof.
  revert xs. induction idx as [|i idx IH]; intros xs H; simpl in H.
  - injection H as <-. split; [by inversion 1 | intros (p & Hp & _); by inversion Hp].
  - destruct (a !! i) as [x|] eqn:E; [| discriminate].
    destruct (np_take a idx) as [ys|]; simpl in H; [| discriminate].
    injection H as <-. rewrite elem_of_cons, (IH ys eq_refl). split.
    + intros [-> | (p & Hp & Hv)].
      * exists i. rewrite elem_of_cons. split; [by left | done].
      * exists p. rewrite elem_of_cons. split; [by right | done].
    + intros (p & Hp & Hv). apply elem_of_cons in Hp as [-> | Hp].
      * left. congruence.
      * right. by exists p.
Qed.

(** One quarter: the rows of the quarter with the smallest cadence. *)
Lemma OneCadence_quarter_spec (qtr cadence : list fl) (q : fl) :
  length cadence = length qtr →
  Forall (fun v => fl_isfinite v = true) qtr →
  Forall (fun v => fl_isfinite v = true) cadence →
  q ∈ qtr →
  ∃ xs : list nat, OneCadence_quarter qtr cadence q = Ok xs ∧
    ∀ i : nat, i ∈ xs ↔
      ∃ qi ci : fl, qtr !! i = Some qi ∧ cadence !! i = Some ci ∧
        same_quarter q qi = true ∧
        ∀ (j : nat) (qj cj : fl),
          qtr !! j = Some qj → cadence !! j = Some cj →
          same_quarter q qj = true → fl_leb ci cj = true.
Proof.
  intros Hlen Hq Hc Hin. unfold OneCadence_quarter.
  set (x := np_where (map (same_quarter q) qtr)).
  assert (Hx : ∀ i, i ∈ x ↔ ∃ qi, qtr !! i = Some qi ∧ same_quarter q qi = true).
  { intros i. unfold x. rewrite np_where_elem, list_lookup_fmap.
    destruct (qtr !! i) as [qi|]; simpl.
    - split; [intros [= H]; by exists qi | intros (? & [= <-] & H); by rewrite H].
    - split; [done | by intros (? & ? & _)]. }
  assert (Hxlt : Forall (fun i => (i < length cadence)%nat) x).
  { apply Forall_forall. intros i Hi. apply Hx in Hi as (qi & Hi & _).
    apply lookup_lt_Some in Hi. lia. }
  rewrite (np_take_total NaN cadence x Hxlt). cbn [mbind result_bind].
  set (cx := map (fun i => default NaN (cadence !! i)) x).
  assert (Hcx : ∀ c, c ∈ cx ↔ ∃ i, i ∈ x ∧ cadence !! i = Some c).
  { intros c. unfold cx. rewrite list_elem_of_fmap. split.
    - intros (i & -> & Hi). exists i. split; [done |].
      eapply Forall_forall in Hxlt; [| exact Hi].
      destruct (lookup_lt_is_Some_2 cadence i Hxlt) as [c Hc']. by rewrite Hc'.
    - intros (i & Hi & Hc'). exists i. by rewrite Hc'. }
  assert (Hcfin : ∀ c, c ∈ cx → fl_isfinite c = true).
  { intros c Hc'. apply Hcx in Hc' as (i & _ & Hi).
    apply list_elem_of_lookup_2 in Hi. by eapply Forall_forall in Hc. }
  assert (Hne : np_unique cx ≠ []).
  { apply list_elem_of_lookup_1 in Hin as [k Hk].
    assert (Hkx : k ∈ x).
    { apply Hx. exists q. split; [done |].
      assert (Hqf : fl_isfinite q = true)
        by (eapply Forall_forall in Hq; [exact Hq | by eapply list_elem_of_lookup_2]).
      apply same_quarter_eqb; try done.
      destruct q; try done. apply fl_eqb_Fin. reflexivity. }
    destruct (lookup_lt_is_Some_2 cadence k) as [c Hck];
      [apply lookup_lt_Some in Hk; lia |].
    destruct (np_unique_covers c cx) as (u & Hu & _);
      [apply Hcx; by exists k |].
    intros E. rewrite E in Hu. by inversion Hu. }
  destruct (py_min_spec (np_unique cx) Hne) as (m & -> & Hm & Hle).
  { apply Forall_forall. intros u Hu. apply Hcfin. by apply np_unique_elem. }
  cbn [mbind result_bind].
  assert (Hmle : ∀ c, c ∈ cx → fl_leb m c = true).
  { intros c Hc'. destruct (np_unique_covers c cx Hc') as (u & Hu & Hs).
    apply same_entry_finite in Hs; [| by apply Hcfin].
    eapply Forall_forall in Hle; [| exact Hu].
    eapply fl_leb_trans; [exact Hle |].
    unfold fl_eqb in Hs. apply andb_true_iff in Hs. tauto. }
  apply np_unique_elem in Hm.
  set (y := np_where (map (fun c => fl_eqb c m) cx)).
  assert (Hy : ∀ p, p ∈ y ↔ ∃ c, cx !! p = Some c ∧ fl_eqb c m = true).
  { intros p. unfold y. rewrite np_where_elem, list_lookup_fmap.
    destruct (cx !! p) as [c|]; simpl.
    - split; [intros [= H]; by exists c | intros (? & [= <-] & H); by rewrite H].
    - split; [done | by intros (? & ? & _)]. }
  assert (Hylt : Forall (fun p => (p < length x)%nat) y).
  { apply Forall_forall. intros p Hp. apply Hy in Hp as (c & Hp & _).
    apply lookup_lt_Some in Hp. unfold cx in Hp. by rewrite length_map in Hp. }
  rewrite (np_take_total 0%nat x y Hylt).
  eexists. split; [reflexivity |].
  intros i. rewrite list_elem_of_fmap. split.
  - intros (p & -> & Hp). apply Hy in Hp as (c & Hp & Hcm).
    unfold cx in Hp. rewrite list_lookup_fmap in Hp.
    destruct (x !! p) as [i|] eqn:Exp; [| discriminate]. simpl in Hp |- *.
    injection Hp as Hp.
    assert (Hix : i ∈ x) by (by eapply list_elem_of_lookup_2).
    pose proof Hix as Hix'. apply Hx in Hix' as (qi & Hqi & Hnear).
    eapply Forall_forall in Hxlt; [| exact Hix].
    destruct (lookup_lt_is_Some_2 cadence i Hxlt) as [ci Hci].
    rewrite Hci in Hp. simpl in Hp. subst c.
    exists qi, ci. split; [done |]. split; [done |]. split; [done |].
    intros j qj cj Hqj Hcj Hnj.
    eapply fl_leb_trans; [| apply Hmle, Hcx; exists j; split; [apply Hx; eauto | done]].
    unfold fl_eqb in Hcm. apply andb_true_iff in Hcm. tauto.
  - intros (qi & ci & Hqi & Hci & Hnear & Hmin).
    assert (Hix : i ∈ x) by (apply Hx; eauto).
    apply list_elem_of_lookup_1 in Hix as [p Hp].
    exists p. split; [by rewrite Hp |].
    apply Hy. exists ci. split.
    + unfold cx. by rewrite list_lookup_fmap, Hp; simpl; rewrite Hci.
    + unfold fl_eqb. apply andb_true_iff. split.
      * apply Hcx in Hm as (k & Hk & Hck).
        apply Hx in Hk as (qk & Hqk & Hnk).
        exact (Hmin k qk m Hqk Hck Hnk).
      * apply Hmle, Hcx. exists i. split; [| done].
        apply Hx. eauto.
Qed.

Lemma OneCadence_fold (qtr cadence : list fl) (P : fl → nat → Prop)
  (us : list fl) (acc : list nat) :
  (∀ q : fl, q ∈ us →
     ∃ xs : list nat, OneCadence_quarter qtr cadence q = Ok xs ∧
       ∀ i : nat, i ∈ xs ↔ P q i) →
  ∃ indx : list nat,
    foldl (fun acc q =>
             indx ← acc;
             xs ← OneCadence_quarter qtr cadence q;
             Ok (indx ++ xs)) (Ok acc) us = Ok indx ∧
    ∀ i : nat, i ∈ indx ↔ i ∈ acc ∨ ∃ q : fl, q ∈ us ∧ P q i.
Proof.
  revert acc. induction us as [|q us IH]; intros acc H.
  - exists acc. split; [done |]. intros i. split; [by left |].
    intros [Hi | (q & Hq & _)]; [done | by inversion Hq].
  - destruct (H q) as (xs & Hxs & Hspec); [rewrite elem_of_cons; by left |].
    cbn [foldl mbind result_bind]. rewrite Hxs. cbn [mbind result_bind].
    destruct (IH (acc ++ xs)) as (indx & -> & Hindx).
    { intros q' Hq'. apply H. rewrite elem_of_cons. by right. }
    exists indx. split; [done |]. intros i.
    rewrite Hindx, elem_of_app, Hspec. split.
    + intros [[Hi | Hi] | (q' & Hq' & Hi)]; [by left | |].
      * right. exists q. rewrite elem_of_cons. split; [by left | done].
      * right. exists q'. rewrite elem_of_cons. split; [by right | done].
    + intros [Hi | (q' & Hq' & Hi)]; [by left; left |].
      apply elem_of_cons in Hq' as [-> | Hq']; [by left; right |].
      right. by exists q'.
Qed.

Lemma OneCadence_indx_spec (qtr cadence : list fl) :
  length cadence = length qtr →
  Forall (fun v => fl_isfinite v = true) qtr →
  Forall (fun v => fl_isfinite v = true) cadence →
  quarters_apart qtr →
  ∃ indx : list nat,
    OneCadence_indx qtr cadence = Ok indx ∧
    ∀ i : nat, i ∈ indx ↔ fastest qtr cadence i.
Proof.
  intros Hlen Hq Hc Hap. unfold OneCadence_indx.
  destruct (OneCadence_fold qtr cadence _ (np_unique qtr) []
              (fun q Hq' => OneCadence_quarter_spec qtr cadence q Hlen Hq Hc
                              (np_unique_elem q qtr Hq')))
    as (indx & -> & Hindx).
  exists indx. split; [done |]. intros i. rewrite Hindx.
  assert (Hfin : ∀ k v, qtr !! k = Some v → fl_isfinite v = true).
  { intros k v Hk. eapply Forall_forall in Hq; [exact Hq |].
    by eapply list_elem_of_lookup_2. }
  split.
  - intros [Hi | (q & Hu & qi & ci & Hqi & Hci & Hnear & Hmin)]; [by inversion Hi |].
    apply np_unique_elem in Hu.
    assert (Hqf : fl_isfinite q = true)
      by (eapply Forall_forall in Hq; [exact Hq | done]).
    assert (Heq : fl_eqb qi q = true).
    { apply Hap; [done | by eapply list_elem_of_lookup_2 | done]. }
    exists qi, ci. split; [done |]. split; [done |].
    intros j qj cj Hqj Hcj Hji. apply (Hmin j qj cj Hqj Hcj).
    apply same_quarter_eqb; [done | by eapply Hfin |].
    by eapply fl_eqb_trans.
  - intros (qi & ci & Hqi & Hci & Hmin). right.
    destruct (np_unique_covers qi qtr) as (q & Hu & Hs);
      [by eapply list_elem_of_lookup_2 |].
    apply same_entry_finite in Hs; [| by eapply Hfin].
    exists q. split; [done |]. exists qi, ci.
    pose proof (np_unique_elem q qtr Hu) as Hqin.
    assert (Hqf : fl_isfinite q = true)
      by (eapply Forall_forall in Hq; [exact Hq | done]).
    split; [done |]. split; [done |].
    split; [apply same_quarter_eqb; [done | by eapply Hfin | done] |].
    intros j qj cj Hqj Hcj Hnj. apply (Hmin j qj cj Hqj Hcj).
    assert (Hjq : fl_eqb qj q = true).
    { apply Hap; [done | by eapply list_elem_of_lookup_2 | done]. }
    eapply fl_eqb_trans; [exact Hjq |]. by rewrite fl_eqb_sym.
Qed.

(** X23.  For finite quarters and cadences, with quarters that are equal
    or at least 0.1 apart, [OneCadence] returns, and a row is kept exactly
    when its cadence is the smallest among the rows of its quarter. *)
Theorem OneCadence_keeps_fastest {row : Type} (qtr_of cadence_of : row → fl)
  (data : list row) :
  Forall (fun r => fl_isfinite (qtr_of r) = true) data →
  Forall (fun r => fl_isfinite (cadence_of r) = true) data →
  quarters_apart (map qtr_of data) →
  ∃ (indx : list nat) (out : list row),
    OneCadence_indx (map qtr_of data) (map cadence_of data) = Ok indx ∧
    OneCadence qtr_of cadence_of data = Ok out ∧
    (∀ i : nat, i ∈ indx ↔ fastest (map qtr_of data) (map cadence_of data) i) ∧
    (∀ r : row, r ∈ out ↔
       ∃ i : nat, data !! i = Some r ∧
         fastest (map qtr_of data) (map cadence_of data) i).
Proof.
  intros Hq Hc Hap.
  destruct (OneCadence_indx_spec (map qtr_of data) (map cadence_of data))
    as (indx & Hindx & Hspec); try done.
  - by rewrite !length_map.
  - by apply Forall_fmap.
  - by apply Forall_fmap.
  - exists indx. unfold OneCadence. rewrite Hindx. cbn [mbind result_bind].
    assert (Hlt : Forall (fun i => (i < length data)%nat) indx).
    { apply Forall_forall. intros i Hi. apply Hspec in Hi as (qi & _ & Hi & _).
      apply lookup_lt_Some in Hi. by rewrite length_map in Hi. }
    destruct data as [|r0 data'] eqn:Ed.
    + destruct indx as [|i indx']; [| by inversion Hlt; simpl in *; lia].
      exists []. split; [done |]. split; [done |]. split; [done |].
      intros r. split; [by inversion 1 | by intros (i & Hi & _)].
    + rewrite <- Ed in *. clear Ed.
      pose proof (np_take_total r0 data indx Hlt) as Ht.
      eexists. split; [done |]. split; [exact Ht |]. split; [done |].
      intros r. rewrite (np_take_elem _ _ _ r Ht). split.
      * intros (p & Hp & Hr). exists p. split; [done | by apply Hspec].
      * intros (i & Hi & Hf). exists i. split; [by apply Hspec | done].
Qed.

Lemma quarters_apart_check (qtr : list fl) :
  forallb (fun a => forallb (fun b => implb (same_quarter a b) (fl_eqb b a)) qtr)
          qtr = true →
  quarters_apart qtr.
Proof.
  intros H a b Ha Hb Hab. rewrite forallb_forall in H.
  apply list_elem_of_In in Ha, Hb. specialize (H a Ha).
  rewrite forallb_forall in H. specialize (H b Hb).
  rewrite Hab in H. exact H.
Qed.

Lemma OneCadence_keeps_fastest_witness :
  ∃ (indx : list nat) (out : list (fl * fl)),
    OneCadence_indx
      (map fst [(fz 1, fz 30); (fz 1, fz 1); (fz 2, fz 30); (fz 1, fz 1)])
      (map snd [(fz 1, fz 30); (fz 1, fz 1); (fz 2, fz 30); (fz 1, fz 1)]) =
      Ok indx ∧
    OneCadence fst snd
      [(fz 1, fz 30); (fz 1, fz 1); (fz 2, fz 30); (fz 1, fz 1)] = Ok out ∧
    (∀ i : nat, i ∈ indx ↔
       fastest
         (map fst [(fz 1, fz 30); (fz 1, fz 1); (fz 2, fz 30); (fz 1, fz 1)])
         (map snd [(fz 1, fz 30); (fz 1, fz 1); (fz 2, fz 30); (fz 1, fz 1)]) i) ∧
    (∀ r : fl * fl, r ∈ out ↔
       ∃ i : nat,
         [(fz 1, fz 30); (fz 1, fz 1); (fz 2, fz 30); (fz 1, fz 1)] !! i = Some r ∧
         fastest
           (map fst [(fz 1, fz 30); (fz 1, fz 1); (fz 2, fz 30); (fz 1, fz 1)])
           (map snd [(fz 1, fz 30); (fz 1, fz 1); (fz 2, fz 30); (fz 1, fz 1)]) i).
Proof.
  apply (OneCadence_keeps_fastest fst snd
           [(fz 1, fz 30); (fz 1, fz 1); (fz 2, fz 30); (fz 1, fz 1)]).
  - repeat constructor.
  - repeat constructor.
  - apply quarters_apart_check. vm_compute. reflexivity.
Defined.

Lemma OneCadence_quarter_raises (qtr cadence : list fl) (q : fl) :
  length cadence = length qtr →
  only_ValueError (OneCadence_quarter qtr cadence q).
Proof.
  intros Hlen. unfold OneCadence_quarter.
  set (x := np_where (map (same_quarter q) qtr)).
  assert (Hxlt : Forall (fun i => (i < length cadence)%nat) x).
  { apply Forall_forall. intros i Hi. apply np_where_elem in Hi.
    apply lookup_lt_Some in Hi. rewrite length_map in Hi. lia. }
  rewrite (np_take_total NaN cadence x Hxlt). cbn [mbind result_bind].
  set (cx := map (fun i => default NaN (cadence !! i)) x).
  destruct (np_unique cx) as [|u us]; [done |].
  cbn [py_min mbind result_bind].
  set (m := foldl _ u us).
  set (y := np_where (map (fun c => fl_eqb c m) cx)).
  assert (Hylt : Forall (fun p => (p < length x)%nat) y).
  { apply Forall_forall. intros p Hp. apply np_where_elem in Hp.
    apply lookup_lt_Some in Hp. unfold cx in Hp. by rewrite !length_map in Hp. }
  by rewrite (np_take_total 0%nat x y Hylt).
Qed.

Lemma OneCadence_fold_raises (qtr cadence : list fl) (us : list fl)
  (acc : result (list nat)) (q : fl) :
  length cadence = length qtr →
  only_ValueError acc →
  q ∈ us → OneCadence_quarter qtr cadence q = Raise ValueError →
  foldl (fun acc q =>
           indx ← acc;
           xs ← OneCadence_quarter qtr cadence q;
           Ok (indx ++ xs)) acc us = Raise ValueError.
Proof.
  intros Hlen Hacc Hq Hr. revert acc Hacc.
  assert (Hstay : ∀ us',
    foldl (fun acc q =>
             indx ← acc;
             xs ← OneCadence_quarter qtr cadence q;
             Ok (indx ++ xs)) (Raise ValueError) us' = Raise ValueError).
  { induction us' as [|u us' IH]; [done | exact IH]. }
  induction us as [|u us IH]; intros acc Hacc; [by inversion Hq |].
  cbn [foldl]. destruct acc as [indx|e]; [| simpl in Hacc; subst e; apply Hstay].
  cbn [mbind result_bind].
  apply elem_of_cons in Hq as [<- | Hq].
  - rewrite Hr. apply Hstay.
  - apply IH; [done |].
    pose proof (OneCadence_quarter_raises qtr cadence u Hlen) as Hu.
    by destruct (OneCadence_quarter qtr cadence u).
Qed.

(** X24.  A row whose quarter is NaN makes [OneCadence] raise
    [ValueError]: no row is within 0.1 of NaN, and [min] of the empty set
    of cadences raises. *)
Theorem OneCadence_NaN_quarter {row : Type} (qtr_of cadence_of : row → fl)
  (data : list row) :
  Exists (fun r => fl_isnan (qtr_of r) = true) data →
  OneCadence qtr_of cadence_of data = Raise ValueError.
Proof.
  intros H. unfold OneCadence, OneCadence_indx.
  assert (Hin : NaN ∈ map qtr_of data).
  { apply Exists_exists in H as (r & Hr & Hn). apply list_elem_of_fmap.
    exists r. split; [| done]. by destruct (qtr_of r). }
  destruct (np_unique_covers NaN _ Hin) as (u & Hu & Hs).
  assert (u = NaN) as -> by (by destruct u).
  rewrite (OneCadence_fold_raises (map qtr_of data) (map cadence_of data)
             (np_unique (map qtr_of data)) (Ok []) NaN); try done.
  - by rewrite !length_map.
  - unfold OneCadence_quarter.
    assert (Hx : np_where (map (same_quarter NaN) (map qtr_of data)) = []).
    { apply np_where_all_false. apply Forall_fmap, Forall_fmap, Forall_forall.
      intros r _. unfold compose, same_quarter. by destruct (qtr_of r). }
    rewrite Hx. done.
Qed.

Lemma OneCadence_NaN_quarter_witness :
  OneCadence fst snd [(fz 1, fz 30); (NaN, fz 1); (fz 2, fz 30)] =
    Raise ValueError.
Proof.
  apply (OneCadence_NaN_quarter fst snd [(fz 1, fz 30); (NaN, fz 1); (fz 2, fz 30)]).
  apply Exists_cons. right. apply Exists_cons. left. reflexivity.
Defined.

Lemma fl_leb_Fin (x y : Q) : fl_leb (Fin x) (Fin y) = true ↔ (x <= y)%Q.
Proof.
  simpl. destruct (Qcompare_spec x y) as [H | H | H]; split; try done.
  - intros _. rewrite H. apply Qle_refl.
  - intros _. by apply Qlt_le_weak.
  - intros Hle. exfalso. apply (Qlt_irrefl x). exact (Qle_lt_trans _ _ _ Hle H).
Qed.

Lemma fl_insert_sorted (a : fl) (l : list fl) :
  fl_isfinite a = true → Forall (fun v => fl_isfinite v = true) l →
  StronglySorted (fun u v => fl_leb u v = true) l →
  StronglySorted (fun u v => fl_leb u v = true) (fl_insert a l).
Proof.
  intros Ha HF HS. induction HS as [|y r HS IH Hy]; simpl.
  - repeat constructor.
  - inversion HF as [|? ? Fy Fr]; subst.
    destruct (fl_leb a y) eqn:E.
    + constructor; [by constructor |]. constructor; [done |].
      eapply Forall_impl; [exact Hy |]. intros z Hz. simpl in *.
      by eapply fl_leb_trans.
    + constructor; [by apply IH |].
      apply Forall_forall. intros z Hz. apply fl_insert_elem in Hz as [-> | Hz].
      * destruct (fl_leb_total a y) as [H | H]; try done;
          [by destruct a | by destruct y | congruence].
      * by eapply Forall_forall in Hy.
Qed.

Lemma fl_sort_sorted (l : list fl) :
  Forall (fun v => fl_isfinite v = true) l →
  StronglySorted (fun u v => fl_leb u v = true) (fl_sort l).
Proof.
  induction 1 as [|a l Ha HF IH]; [constructor |].
  unfold fl_sort in *. cbn [foldr]. apply fl_insert_sorted; [done | | done].
  apply Forall_forall. intros z Hz. apply (fl_sort_elem z l) in Hz.
  rewrite Forall_forall in HF. by apply HF.
Qed.

Lemma np_sort_finite (l : list fl) :
  Forall (fun v => fl_isfinite v = true) l → np_sort l = fl_sort l.
Proof.
  intros H. unfold np_sort, nonnan.
  assert (E : List.filter (fun x => negb (fl_isnan x)) l = l ∧
              List.filter fl_isnan l = []).
  { induction H as [|a l Ha _ [IH1 IH2]]; [done |]. cbn [List.filter].
    destruct a; try done. cbn [fl_isnan negb]. by rewrite IH1, IH2. }
  destruct E as [-> ->]. apply app_nil_r.
Qed.

Lemma uniq_adj_sorted (prev : fl) (l : list fl) :
  Forall (fun v => fl_isfinite v = true) (prev :: l) →
  StronglySorted (fun u v => fl_leb u v = true) (prev :: l) →
  StronglySorted (fun u v => fl_ltb u v = true) (prev :: uniq_adj prev l).
Proof.
  revert prev. induction l as [|y r IH]; intros prev HF HS.
  - repeat constructor.
  - inversion HF as [|? ? Fp HF']; subst. inversion HS as [|? ? HS' Hp]; subst.
    inversion Hp as [|? ? Hpy Hpr]; subst.
    specialize (IH y HF' HS'). inversion IH as [|? ? IHS IHF]; subst.
    inversion HF' as [|? ? Fy _]; subst.
    destruct prev as [p| | |], y as [q| | |]; try done.
    apply fl_leb_Fin in Hpy.
    assert (Hrest : same_entry (Fin q) (Fin p) = true →
              Forall (fun v => fl_ltb (Fin p) v = true) (uniq_adj (Fin q) r)).
    { intros Hs. apply same_entry_finite in Hs; [| done]. apply fl_eqb_Fin in Hs.
      eapply Forall_impl; [exact IHF |]. intros z Hz. simpl in Hz.
      destruct z as [c| | |]; try done.
      apply fl_ltb_Fin. apply fl_ltb_Fin in Hz. lra. }
    cbn [uniq_adj]. destruct (same_entry (Fin q) (Fin p)) eqn:E.
    + constructor; [done | by apply Hrest].
    + assert (Hlt : (p < q)%Q).
      { apply Qnot_le_lt. intros Hle.
        assert (Heq : fl_eqb (Fin q) (Fin p) = true) by (apply fl_eqb_Fin; lra).
        unfold same_entry in E. by rewrite Heq in E. }
      constructor; [done |]. constructor; [by apply fl_ltb_Fin |].
      eapply Forall_impl; [exact IHF |]. intros z Hz. simpl in Hz.
      destruct z as [c| | |]; try done.
      apply fl_ltb_Fin. apply fl_ltb_Fin in Hz. lra.
Qed.

(** [np.unique] of finite values increases strictly. *)
Lemma np_unique_sorted (l : list fl) :
  Forall (fun v => fl_isfinite v = true) l →
  StronglySorted (fun u v => fl_ltb u v = true) (np_unique l).
Proof.
  intros H. unfold np_unique. rewrite (np_sort_finite l H).
  pose proof (fl_sort_sorted l H) as HS.
  assert (HF : Forall (fun v => fl_isfinite v = true) (fl_sort l)).
  { apply Forall_forall. intros z Hz. apply (fl_sort_elem z l) in Hz.
    rewrite Forall_forall in H. by apply H. }
  destruct (fl_sort l) as [|x r]; [constructor |].
  by apply uniq_adj_sorted.
Qed.

Lemma StronglySorted_lt_NoDup (l : list nat) :
  StronglySorted Nat.lt l → NoDup l.
Proof.
  induction 1 as [|x l _ IH Hx]; constructor; [| done].
  intros Hin. eapply Forall_forall in Hx; [| exact Hin].
  unfold Nat.lt in Hx. lia.
Qed.

(** The rows kept for one quarter are rows of the quarter, in the order
    of the array. *)
Lemma OneCadence_quarter_sorted (qtr cadence : list fl) (q : fl) (xs : list nat) :
  OneCadence_quarter qtr cadence q = Ok xs →
  StronglySorted Nat.lt xs ∧
  ∀ i : nat, i ∈ xs →
    ∃ qi : fl, qtr !! i = Some qi ∧ same_quarter q qi = true.
Proof.
  unfold OneCadence_quarter.
  set (x := np_where (map (same_quarter q) qtr)).
  destruct (np_take cadence x) as [cx|]; [| discriminate].
  cbn [mbind result_bind].
  destruct (py_min (np_unique cx)) as [m|]; [| discriminate].
  cbn [mbind result_bind].
  set (y := np_where (map (fun c => fl_eqb c m) cx)). intros Ht.
  destruct (np_take_ok 0%nat x y xs Ht) as [-> Hlt].
  assert (Hx : StronglySorted Nat.lt x) by apply np_where_sorted.
  split.
  - apply (StronglySorted_map_rel Nat.lt Nat.lt (fun p => (p < length x)%nat));
      [| done | apply np_where_sorted].
    intros p p' Hp Hp' Hpp'.
    destruct (lookup_lt_is_Some_2 x p Hp) as [a Ha].
    destruct (lookup_lt_is_Some_2 x p' Hp') as [b Hb].
    rewrite Ha, Hb. simpl. by eapply sorted_lookup_lt.
  - intros i Hi. apply list_elem_of_fmap in Hi as (p & -> & Hp).
    eapply Forall_forall in Hlt; [| exact Hp].
    destruct (lookup_lt_is_Some_2 x p Hlt) as [a Ha]. rewrite Ha. simpl.
    apply list_elem_of_lookup_2 in Ha. unfold x in Ha.
    apply np_where_elem in Ha. rewrite list_lookup_fmap in Ha.
    destruct (qtr !! a) as [qa|]; [| discriminate].
    injection Ha as Ha. by exists qa.
Qed.

Lemma OneCadence_fold_NoDup (qtr cadence : list fl) (us : list fl)
  (acc indx : list nat) :
  quarters_apart qtr →
  Forall (fun q => q ∈ qtr) us →
  StronglySorted (fun u v => fl_ltb u v = true) us →
  NoDup acc →
  (∀ (i : nat) (q qi : fl), i ∈ acc → q ∈ us → qtr !! i = Some qi →
     same_quarter q qi = true → False) →
  foldl (fun acc q =>
           indx ← acc;
           xs ← OneCadence_quarter qtr cadence q;
           Ok (indx ++ xs)) (Ok acc) us = Ok indx →
  NoDup indx.
Proof.
  intros Hap Hin HS. revert acc.
  induction HS as [|q us HS IH Hq]; intros acc Hnd Hdis Hf.
  - simpl in Hf. by injection Hf as <-.
  - cbn [foldl mbind result_bind] in Hf.
    destruct (OneCadence_quarter qtr cadence q) as [xs|] eqn:Exs.
    + cbn [mbind result_bind] in Hf.
      destruct (OneCadence_quarter_sorted qtr cadence q xs Exs) as [Hxs Hmem].
      inversion Hin as [|? ? Hqin Hin']; subst.
      apply (IH Hin' (acc ++ xs)); [| | exact Hf].
      * apply NoDup_app. split; [done |]. split.
        -- intros i Hi Hi'. destruct (Hmem i Hi') as (qi & Hqi & Hn).
           apply (Hdis i q qi Hi); [rewrite elem_of_cons; by left | done | done].
        -- by apply StronglySorted_lt_NoDup.
      * intros i q' qi Hi Hq' Hqi Hn'.
        apply elem_of_app in Hi as [Hi | Hi].
        -- apply (Hdis i q' qi Hi); [rewrite elem_of_cons; by right | done | done].
        -- destruct (Hmem i Hi) as (qi' & Hqi' & Hn).
           rewrite Hqi in Hqi'. injection Hqi' as <-.
           assert (Hqiin : qi ∈ qtr) by (by eapply list_elem_of_lookup_2).
           assert (Hq'in : q' ∈ qtr) by (by eapply Forall_forall in Hin').
           pose proof (Hap q qi Hqin Hqiin Hn) as E1.
           pose proof (Hap q' qi Hq'in Hqiin Hn') as E2.
           assert (E : fl_eqb q' q = true).
           { eapply fl_eqb_trans; [| exact E1]. by rewrite fl_eqb_sym. }
           eapply Forall_forall in Hq; [| exact Hq'].
           eapply fl_ltb_not_leb; [exact Hq |].
           unfold fl_eqb in E. apply andb_true_iff in E. tauto.
    + exfalso. clear -Hf. induction us as [|u us IH]; [discriminate | by apply IH].
Qed.

(** X25.  With finite quarters that are equal or at least 0.1 apart, no
    row is kept twice. *)
Theorem OneCadence_keeps_once {row : Type} (qtr_of cadence_of : row → fl)
  (data : list row) (indx : list nat) :
  Forall (fun r => fl_isfinite (qtr_of r) = true) data →
  quarters_apart (map qtr_of data) →
  OneCadence_indx (map qtr_of data) (map cadence_of data) = Ok indx →
  NoDup indx.
Proof.
  intros Hq Hap Hf. unfold OneCadence_indx in Hf.
  assert (HF : Forall (fun v => fl_isfinite v = true) (map qtr_of data))
    by (by apply Forall_fmap).
  eapply (OneCadence_fold_NoDup _ _ _ []); [exact Hap | | | | | exact Hf].
  - apply Forall_forall. intros q. apply np_unique_elem.
  - by apply np_unique_sorted.
  - constructor.
  - intros i q qi Hi. by inversion Hi.
Qed.

Lemma OneCadence_keeps_once_witness :
  OneCadence_indx
    (map fst [(fz 1, fz 30); (fz 1, fz 1); (fz 2, fz 30); (fz 1, fz 1)])
    (map snd [(fz 1, fz 30); (fz 1, fz 1); (fz 2, fz 30); (fz 1, fz 1)]) =
    Ok [1; 3; 2]%nat ∧
  NoDup [1; 3; 2]%nat.
Proof.
  split; [vm_compute; reflexivity |].
  apply (OneCadence_keeps_once fst snd
           [(fz 1, fz 30); (fz 1, fz 1); (fz 2, fz 30); (fz 1, fz 1)]).
  - repeat constructor.
  - apply quarters_apart_check. vm_compute. reflexivity.
  - vm_compute. reflexivity.
Defined.
